(** * SpotDown: a shallow embedding of [SpotDown.py]

    The downloader resolves a Spotify URL to collection metadata, drives the
    [spotdl] command line tool with retries and a format fallback, pairs the
    downloaded files with the resolved tracks and transcodes every pair with
    [ffmpeg].  This file embeds those functions as Rocq definitions and
    proves properties of them.

    Conventions of the embedding.
    - A Python [str] is a list of characters ([pystr]); a character is a
      code point below 256, held in an [ascii], and [str.lower] folds the
      capitals of that range: A-Z and the Latin-1 capitals.
    - Python [int] is [Z]; [len] is a [nat].
    - The outside world (file system, run log, spawned processes, HTTP) is
      an explicit [World] threaded through a state-and-exception monad; the
      answers of external collaborators come from an [Env] of oracles.
    - Console output ([print]) is not modelled; the standard input is the
      list of its lines, which the prompt of [main] and the login prompt of
      [get_spotify_token] share.
    - The thread pool of [convert_to_aac_parallel] is modelled by running
      the pairs one after the other in list order, which is the order in
      which [executor.map] hands the results back to the counting loop.
      All pairs are submitted before the first result is read; when a
      result raises, the pairs behind it that a worker has already taken
      still run and the others are cancelled, and how many were taken is up
      to the scheduler, so it is an oracle of the environment.
      [max_workers] only bounds how many pairs are in flight and is not a
      parameter of the model.
    - Responses of the catalog are typed records, so a response that lacks
      a key the code subscripts is excluded; a [null] track is kept. *)

From Stdlib Require Import String Ascii.
From Stdlib Require Import List ZArith Lia Bool Arith PeanoNat.
Import ListNotations.

Set Implicit Arguments.

(* ================================================================== *)
(** * Part I.  Definitions *)
(* ================================================================== *)

(** ** Python strings *)

Definition pystr := list ascii.

(** [py "flac"] is the Python literal ["flac"]. *)
Definition py (lit : string) : pystr := list_ascii_of_string lit.

Definition ch (lit : string) : ascii :=
  match lit with
  | String c _ => c
  | EmptyString => zero
  end.

Arguments py : simpl never.
Arguments ch : simpl never.

Fixpoint str_eqb (a b : pystr) : bool :=
  match a, b with
  | [], [] => true
  | x :: a', y :: b' => Ascii.eqb x y && str_eqb a' b'
  | _, _ => false
  end.

(** [s.startswith(p)] *)
Fixpoint prefixb (p s : pystr) : bool :=
  match p, s with
  | [], _ => true
  | a :: p', b :: s' => Ascii.eqb a b && prefixb p' s'
  | _ :: _, [] => false
  end.

(** [sub in s] *)
Fixpoint contains (sub s : pystr) : bool :=
  prefixb sub s ||
  match s with
  | [] => false
  | _ :: t => contains sub t
  end.

(** [c in chars] for a single character *)
Definition char_in (c : ascii) (chars : pystr) : bool :=
  existsb (Ascii.eqb c) chars.

(** [str.lower] on one code point below 256: the capitals are A-Z (65-90)
    and the Latin-1 capitals 192-222 without the multiplication sign 215;
    each has its small letter 32 places further. *)
Definition is_capital (n : nat) : bool :=
  ((65 <=? n) && (n <=? 90)) ||
  ((192 <=? n) && (n <=? 222) && negb (n =? 215)).

Definition lower_char (c : ascii) : ascii :=
  let n := nat_of_ascii c in
  if is_capital n then ascii_of_nat (n + 32) else c.

(** [s.lower()] *)
Definition lower (s : pystr) : pystr := map lower_char s.

(** [s.replace(old, new)] for one-character [old] and [new] *)
Definition replace_char (s : pystr) (old new : ascii) : pystr :=
  map (fun c => if Ascii.eqb c old then new else c) s.

Fixpoint lstrip (chars s : pystr) : pystr :=
  match s with
  | [] => []
  | c :: t => if char_in c chars then lstrip chars t else s
  end.

Definition rstrip (chars s : pystr) : pystr :=
  rev (lstrip chars (rev s)).

(** [s.strip(chars)] *)
Definition strip (chars s : pystr) : pystr :=
  rstrip chars (lstrip chars s).

(** [sep.join(parts)] *)
Fixpoint join (sep : pystr) (parts : list pystr) : pystr :=
  match parts with
  | [] => []
  | [p] => p
  | p :: rest => p ++ sep ++ join sep rest
  end.

Definition digit_char (d : nat) : ascii := ascii_of_nat (48 + d).

Fixpoint str_nat_fuel (fuel n : nat) (acc : pystr) : pystr :=
  match fuel with
  | O => acc
  | S fuel' =>
      let acc' := digit_char (n mod 10) :: acc in
      if n <? 10 then acc' else str_nat_fuel fuel' (n / 10) acc'
  end.

(** [str(n)] for a non-negative [n] *)
Definition str_nat (n : nat) : pystr := str_nat_fuel (S n) n [].

(** [str(z)] for a Python [int] *)
Definition str_int (z : Z) : pystr :=
  if (z <? 0)%Z then ch "-" :: str_nat (Z.to_nat (- z)) else str_nat (Z.to_nat z).

(** [s.zfill(width)]: zeros go after a leading sign. *)
Definition zfill (s : pystr) (width : nat) : pystr :=
  if width <=? length s then s
  else
    let fill := repeat (ch "0") (width - length s) in
    match s with
    | c :: rest =>
        if char_in c (py "+-") then c :: fill ++ rest else fill ++ s
    | [] => fill
    end.

(** ** sanitize_filename *)

(** The nine characters of the Python literal; character 34 is the double
    quote. *)
Definition invalid_chars : pystr :=
  py "<>:" ++ [ascii_of_nat 34] ++ py "/\|?*".

Definition sanitize_filename (filename : pystr) : pystr :=
  let filename :=
    fold_left (fun fn c => replace_char fn c (ch "_")) invalid_chars filename in
  firstn 200 (strip (py ". ") filename).

(** ** Paths

    A [Path] is a directory and an entry name in it; [suffix] and [stem]
    follow [pathlib]: the suffix starts at the last dot of the name unless
    that dot is the first or the last character. *)

Record Path := mkPath { parent : pystr; name : pystr }.

Fixpoint rfind_aux (c : ascii) (s : pystr) (i : nat) (found : option nat)
  : option nat :=
  match s with
  | [] => found
  | x :: t => rfind_aux c t (S i) (if Ascii.eqb x c then Some i else found)
  end.

(** [s.rfind(c)], with [None] for -1 *)
Definition rfind (c : ascii) (s : pystr) : option nat := rfind_aux c s 0 None.

Definition suffix_index (nm : pystr) : option nat :=
  match rfind (ch ".") nm with
  | Some i => if (0 <? i) && (i <? length nm - 1) then Some i else None
  | None => None
  end.

Definition suffix (p : Path) : pystr :=
  match suffix_index (name p) with
  | Some i => skipn i (name p)
  | None => []
  end.

Definition stem (p : Path) : pystr :=
  match suffix_index (name p) with
  | Some i => firstn i (name p)
  | None => name p
  end.

(** [str(path)] *)
Definition path_str (p : Path) : pystr := parent p ++ ch "/" :: name p.

(** [directory / entry] for a directory given as a string *)
Definition in_dir (directory entry : pystr) : Path := mkPath directory entry.

Definition path_eqb (p q : Path) : bool :=
  str_eqb (parent p) (parent q) && str_eqb (name p) (name q).

Fixpoint str_ltb (a b : pystr) : bool :=
  match a, b with
  | _, [] => false
  | [], _ :: _ => true
  | x :: a', y :: b' =>
      (nat_of_ascii x <? nat_of_ascii y) || (Ascii.eqb x y && str_ltb a' b')
  end.

Definition path_ltb (p q : Path) : bool :=
  str_ltb (parent p) (parent q) ||
  (str_eqb (parent p) (parent q) && str_ltb (name p) (name q)).

Fixpoint insert_sorted (p : Path) (l : list Path) : list Path :=
  match l with
  | [] => [p]
  | q :: l' => if path_ltb q p then q :: insert_sorted p l' else p :: l
  end.

(** [sorted(paths)] *)
Definition sorted (l : list Path) : list Path :=
  fold_right insert_sorted [] l.

(** ** The world *)

Definition content := pystr.

(** The file system: regular files with their contents, and directories. *)
Record FS := mkFS { files : list (Path * content); dirs : list pystr }.

Definition lookup_file (f : FS) (p : Path) : option content :=
  match find (fun e => path_eqb (fst e) p) (files f) with
  | Some e => Some (snd e)
  | None => None
  end.

Definition is_file (f : FS) (p : Path) : bool :=
  existsb (fun e => path_eqb (fst e) p) (files f).

(** [Path(d).exists()]: a directory or a regular file is there. *)
Definition dir_exists (f : FS) (d : pystr) : bool :=
  existsb (str_eqb d) (dirs f) ||
  existsb (fun e => str_eqb (path_str (fst e)) d) (files f).

(** A regular file sits at the path [d]. *)
Definition file_at (f : FS) (d : pystr) : bool :=
  existsb (fun e => str_eqb (path_str (fst e)) d) (files f).

(** [d.is_dir()]: [dirs] lists every directory. *)
Definition is_dir (f : FS) (d : pystr) : bool :=
  existsb (str_eqb d) (dirs f) && negb (file_at f d).

(** The directories above a path: what stands before each of its
    separators, the root left out. *)
Fixpoint ancestors_aux (seen_rev s : pystr) : list pystr :=
  match s with
  | [] => []
  | c :: t =>
      (if Ascii.eqb c (ch "/") then
         match seen_rev with
         | [] => []
         | _ :: _ => [rev seen_rev]
         end
       else [])
      ++ ancestors_aux (c :: seen_rev) t
  end.

Definition ancestors (d : pystr) : list pystr := ancestors_aux [] d.

(** [d.mkdir(parents=True, exist_ok=True)] cannot succeed: a regular file
    sits at the path or at one of the directories above it. *)
Definition mkdir_blocked (f : FS) (d : pystr) : bool :=
  existsb (file_at f) (d :: ancestors d).

Definition add_dir (d : pystr) (l : list pystr) : list pystr :=
  if existsb (str_eqb d) l then l else d :: l.

(** The file system after [d.mkdir(parents=True, exist_ok=True)]
    succeeded: the directory and the missing ones above it are there. *)
Definition fs_mkdir (f : FS) (d : pystr) : FS :=
  mkFS (files f) (fold_right add_dir (dirs f) (d :: ancestors d)).

(** [p.unlink(missing_ok=True)] *)
Definition fs_unlink (f : FS) (p : Path) : FS :=
  mkFS (filter (fun e => negb (path_eqb (fst e) p)) (files f)) (dirs f).

Definition fs_write (f : FS) (p : Path) (c : content) : FS :=
  mkFS ((p, c) :: files (fs_unlink f p)) (dirs f).

(** What [folder.iterdir()] lists of a directory, restricted to the
    entries for which [is_file()] holds. *)
Definition iterdir_files (f : FS) (folder : pystr) : list Path :=
  filter (fun p => str_eqb (parent p) folder) (map fst (files f)).

(** What the program did to the outside, oldest event first. *)
Inductive Event :=
| EvRun (cmd : list pystr) (returncode : option Z)
| EvSleep (seconds : Z)
| EvGet (url : pystr)
| EvToken (client_only : bool)
| EvCode (line : pystr).      (* the line typed at the login prompt *)

Record World := mkWorld {
  fs : FS;
  log : list pystr;      (* lines appended to LOG_FILE *)
  trace : list Event
}.

Inductive exn := HTTPError | OSError | TypeError | EOFError.

Inductive result (A : Type) :=
| Ok (a : A)
| Raise (e : exn).
Arguments Ok {A} a.
Arguments Raise {A} e.

(** ** Responses of the catalog service *)

Record ArtistObj := { artist_name : pystr }.
Record ImageObj := { img_url : pystr }.

Record AlbumTrackObj := {
  at_track_number : Z;
  at_name : pystr;
  at_artists : list ArtistObj
}.

Record AlbumResp := {
  album_name : pystr;
  album_artists : list ArtistObj;
  album_items : list AlbumTrackObj;
  album_images : list ImageObj
}.

Record TrackResp := {
  tr_name : pystr;
  tr_artists : list ArtistObj;
  tr_album_name : pystr;
  tr_album_images : list ImageObj
}.

Record PlaylistTrackObj := {
  pt_name : pystr;
  pt_artists : list ArtistObj
}.

(** [item["track"]] is [null] for an entry whose track was removed. *)
Record PlaylistItem := { pi_track : option PlaylistTrackObj }.

Record PlaylistResp := {
  pl_name : pystr;
  pl_owner_display_name : pystr;
  pl_items : list PlaylistItem;
  pl_images : list ImageObj
}.

Record SavedTrackObj := {
  st_name : pystr;
  st_artists : list ArtistObj;
  st_album_name : pystr
}.

Record SavedItem := { si_track : option SavedTrackObj }.

Record SavedResp := { sv_items : list SavedItem }.

(** [subprocess.CompletedProcess] *)
Record CompletedProcess := {
  returncode : Z;
  stdout : pystr;
  stderr : pystr
}.

(** ** External collaborators

    Every oracle sees the world at the moment it is consulted, so its answer
    may depend on everything that happened before.  [None] stands for a
    raised exception. *)

Record Env := {
  home : pystr;                       (* Path.home() *)
  tempdir : pystr;                    (* tempfile.gettempdir() *)
  uuid4_hex : World -> pystr;         (* uuid.uuid4().hex *)
  strftime_now : World -> pystr;      (* datetime.now().strftime(...) *)
  (* subprocess.run(cmd, capture_output=True, text=True): the completed
     process and the file system it leaves behind *)
  spawn : World -> list pystr -> option (CompletedProcess * FS);
  token_grant : World -> bool -> option pystr;
  (* requests.get(url, headers); raise_for_status(); json() *)
  get_album : World -> pystr -> pystr -> option AlbumResp;
  get_track : World -> pystr -> pystr -> option TrackResp;
  get_playlist : World -> pystr -> pystr -> option PlaylistResp;
  get_saved : World -> pystr -> pystr -> option SavedResp;
  (* requests.get(url): status code and body *)
  get_raw : World -> pystr -> option (Z * content);
  (* the thread pool, when the result of a pair raises: how many of the
     pairs behind it its workers have already taken *)
  taken : World -> nat
}.

(** ** The state-and-exception monad *)

Definition M (A : Type) : Type := World -> result A * World.

Definition ret {A} (a : A) : M A := fun w => (Ok a, w).

Definition raise {A} (e : exn) : M A := fun w => (Raise e, w).

Definition bind {A B} (m : M A) (k : A -> M B) : M B :=
  fun w =>
    match m w with
    | (Ok a, w') => k a w'
    | (Raise e, w') => (Raise e, w')
    end.

Notation "x <- m ;; k" := (bind m (fun x => k))
  (at level 61, m at next level, right associativity).
Notation "m ;;; k" := (bind m (fun _ => k))
  (at level 61, right associativity).

(** [try: m  except: return fallback] (a bare [except]) *)
Definition try_except {A} (m : M A) (fallback : A) : M A :=
  fun w =>
    match m w with
    | (Ok a, w') => (Ok a, w')
    | (Raise _, w') => (Ok fallback, w')
    end.

Definition get_world : M World := fun w => (Ok w, w).

Definition emit (e : Event) : M unit :=
  fun w => (Ok tt, mkWorld (fs w) (log w) (trace w ++ [e])).

Definition set_fs (f : FS) : M unit :=
  fun w => (Ok tt, mkWorld f (log w) (trace w)).

Definition append_log (line : pystr) : M unit :=
  fun w => (Ok tt, mkWorld (fs w) (log w ++ [line]) (trace w)).

Definition of_option {A} (o : option A) (e : exn) : M A :=
  match o with
  | Some a => ret a
  | None => raise e
  end.

(** [subprocess.run(cmd, capture_output=True, text=True)] *)
Definition subprocess_run (env : Env) (cmd : list pystr) : M CompletedProcess :=
  w <- get_world ;;
  match spawn env w cmd with
  | Some (cp, f) => emit (EvRun cmd (Some (returncode cp))) ;;; set_fs f ;;; ret cp
  | None => emit (EvRun cmd None) ;;; raise OSError
  end.

(** [time.sleep(seconds)].  The delays of the retry loop are powers of
    two; the [OverflowError] of [time.sleep] for a delay of 2^34 seconds or
    more, which the loop could only reach after centuries of sleeping, is
    not modelled. *)
Definition sleep (seconds : Z) : M unit := emit (EvSleep seconds).

(** [d.mkdir(parents=True, exist_ok=True)]: raises [FileExistsError] or
    [NotADirectoryError], both of them [OSError]s, when a regular file is in
    the way. *)
Definition mkdir (d : pystr) : M unit :=
  w <- get_world ;;
  if mkdir_blocked (fs w) d then raise OSError
  else set_fs (fs_mkdir (fs w) d).

(** [[f for f in folder.iterdir() if f.is_file()]]: raises
    [FileNotFoundError] or [NotADirectoryError], both of them [OSError]s,
    when the folder is not a directory. *)
Definition iterdir (folder : pystr) : M (list Path) :=
  w <- get_world ;;
  if is_dir (fs w) folder then ret (iterdir_files (fs w) folder)
  else raise OSError.

Definition unlink (p : Path) : M unit :=
  w <- get_world ;; set_fs (fs_unlink (fs w) p).

Definition write_file (p : Path) (c : content) : M unit :=
  w <- get_world ;; set_fs (fs_write (fs w) p c).

(** ** Configuration *)

Definition dir_join (directory entry : pystr) : pystr :=
  directory ++ ch "/" :: entry.

Definition BASE_DIR (env : Env) : pystr := dir_join (home env) (py "SpotifyDownloads").

Definition PREFERRED_FORMAT : pystr := py "flac".
Definition FALLBACK_FORMAT : pystr := py "mp3".
Definition MP3_BITRATE : pystr := py "320k".

(** ** Spotify auth

    The two grant flows are an external collaborator; only the choice of
    flow and the possibility of failure are kept.  The login flow first
    reads the code from the standard input; that line is taken off the input
    in [main_loop], which holds the input, before the run starts. *)

Definition get_spotify_token (env : Env) (client_only : bool) : M pystr :=
  w <- get_world ;;
  emit (EvToken client_only) ;;;
  of_option (token_grant env w client_only) HTTPError.

(** ** Metadata fetchers *)

Record TrackInfo := mkTrack {
  number : Z;
  title : pystr;
  artists : pystr;
  album : pystr
}.

Record Metadata := mkMetadata {
  md_artist : pystr;
  md_album : pystr;
  md_tracks : list TrackInfo;
  md_image_url : option pystr
}.

Definition is_alnum (c : ascii) : bool :=
  let n := nat_of_ascii c in
  ((97 <=? n) && (n <=? 122)) || ((65 <=? n) && (n <=? 90)) ||
  ((48 <=? n) && (n <=? 57)).

(** [s] without the prefix [p], when [s] starts with [p] *)
Fixpoint strip_prefix (p s : pystr) : option pystr :=
  match p, s with
  | [], _ => Some s
  | a :: p', b :: s' => if Ascii.eqb a b then strip_prefix p' s' else None
  | _ :: _, [] => None
  end.

Fixpoint take_while (f : ascii -> bool) (s : pystr) : pystr :=
  match s with
  | [] => []
  | c :: t => if f c then c :: take_while f t else []
  end.

(** The tail of the pattern after the kind: [/([a-zA-Z0-9]+)]. *)
Definition match_id (kind rest : pystr) : option (pystr * pystr) :=
  match strip_prefix (py "/") rest with
  | Some rest' =>
      match take_while is_alnum rest' with
      | [] => None
      | id => Some (id, kind)
      end
  | None => None
  end.

(** [(album|playlist|track)/([a-zA-Z0-9]+)]: the alternatives in order. *)
Fixpoint match_kinds (kinds : list pystr) (rest : pystr) : option (pystr * pystr) :=
  match kinds with
  | [] => None
  | k :: kinds' =>
      match
        match strip_prefix k rest with
        | Some rest' => match_id k rest'
        | None => None
        end
      with
      | Some r => Some r
      | None => match_kinds kinds' rest
      end
  end.

Definition match_host (rest : pystr) : option (pystr * pystr) :=
  match strip_prefix (py "://open.spotify.com/") rest with
  | Some rest' => match_kinds [py "album"; py "playlist"; py "track"] rest'
  | None => None
  end.

(** The whole pattern anchored at the start of [s]; [s?] first tries to
    consume an [s] and backtracks to consuming none. *)
Definition match_here (s : pystr) : option (pystr * pystr) :=
  match strip_prefix (py "http") s with
  | Some rest =>
      match
        match strip_prefix (py "s") rest with
        | Some rest' => match_host rest'
        | None => None
        end
      with
      | Some r => Some r
      | None => match_host rest
      end
  | None => None
  end.

(** [re.search(pattern, s)]: the leftmost position where the pattern matches;
    the result is (group 2, group 1). *)
Fixpoint re_search (s : pystr) : option (pystr * pystr) :=
  match match_here s with
  | Some r => Some r
  | None =>
      match s with
      | [] => None
      | _ :: t => re_search t
      end
  end.

(** [None] is the pair [(None, None)]. *)
Definition extract_spotify_id_and_type (url : pystr) : option (pystr * pystr) :=
  if contains (py "liked-songs") url then Some (py "liked", py "liked")
  else re_search url.

Definition artist_names (l : list ArtistObj) : pystr :=
  join (py ", ") (map artist_name l).

(** [images[0]["url"] if images else None] *)
Definition first_image (images : list ImageObj) : option pystr :=
  match images with
  | i :: _ => Some (img_url i)
  | [] => None
  end.

Definition get_album_metadata (env : Env) (spotify_id token : pystr) : M Metadata :=
  let url := py "https://api.spotify.com/v1/albums/" ++ spotify_id in
  w <- get_world ;;
  emit (EvGet url) ;;;
  data <- of_option (get_album env w url token) HTTPError ;;
  let tracks :=
    map (fun t => mkTrack (at_track_number t) (at_name t)
                          (artist_names (at_artists t)) (album_name data))
        (album_items data) in
  ret (mkMetadata (artist_names (album_artists data)) (album_name data) tracks
                  (first_image (album_images data))).

Definition get_track_metadata (env : Env) (spotify_id token : pystr) : M Metadata :=
  let url := py "https://api.spotify.com/v1/tracks/" ++ spotify_id in
  w <- get_world ;;
  emit (EvGet url) ;;;
  data <- of_option (get_track env w url token) HTTPError ;;
  ret (mkMetadata (artist_names (tr_artists data)) (tr_album_name data)
                  [mkTrack 1 (tr_name data) (artist_names (tr_artists data))
                           (tr_album_name data)]
                  (first_image (tr_album_images data))).

(** The loop over [enumerate(items, start=idx)] of [get_playlist_metadata]. *)
Fixpoint playlist_tracks (collection : pystr) (idx : Z) (items : list PlaylistItem)
  : list TrackInfo :=
  match items with
  | [] => []
  | item :: rest =>
      match pi_track item with
      | Some track =>
          mkTrack idx (pt_name track) (artist_names (pt_artists track)) collection
          :: playlist_tracks collection (idx + 1) rest
      | None => playlist_tracks collection (idx + 1) rest
      end
  end.

Definition get_playlist_metadata (env : Env) (spotify_id token : pystr) : M Metadata :=
  let url := py "https://api.spotify.com/v1/playlists/" ++ spotify_id in
  w <- get_world ;;
  emit (EvGet url) ;;;
  data <- of_option (get_playlist env w url token) HTTPError ;;
  ret (mkMetadata (pl_owner_display_name data) (pl_name data)
                  (playlist_tracks (pl_name data) 1 (pl_items data))
                  (first_image (pl_images data))).

(** The loop of [get_liked_songs_metadata]; subscripting a [null] track
    raises. *)
Fixpoint liked_tracks (idx : Z) (items : list SavedItem) : result (list TrackInfo) :=
  match items with
  | [] => Ok []
  | item :: rest =>
      match si_track item with
      | Some t =>
          match liked_tracks (idx + 1) rest with
          | Ok tracks =>
              Ok (mkTrack idx (st_name t) (artist_names (st_artists t)) (st_album_name t)
                  :: tracks)
          | Raise e => Raise e
          end
      | None => Raise TypeError
      end
  end.

Definition LIKED_URL : pystr := py "https://api.spotify.com/v1/me/tracks?limit=50".

Definition get_liked_songs_metadata (env : Env) (token : pystr) : M Metadata :=
  w <- get_world ;;
  emit (EvGet LIKED_URL) ;;;
  data <- of_option (get_saved env w LIKED_URL token) HTTPError ;;
  match liked_tracks 1 (sv_items data) with
  | Ok tracks =>
      ret (mkMetadata (py "Liked Songs") (py "Spotify Liked Songs") tracks None)
  | Raise e => raise e
  end.

(** [None] is the empty dict. *)
Definition get_metadata_from_url (env : Env) (url : pystr) : M (option Metadata) :=
  match extract_spotify_id_and_type url with
  | None => ret None
  | Some (spotify_id, content_type) =>
      match spotify_id with
      | [] => ret None
      | _ =>
          let client_only :=
            existsb (str_eqb content_type) [py "album"; py "track"] in
          token <- get_spotify_token env client_only ;;
          if str_eqb content_type (py "album") then
            md <- get_album_metadata env spotify_id token ;; ret (Some md)
          else if str_eqb content_type (py "track") then
            md <- get_track_metadata env spotify_id token ;; ret (Some md)
          else if str_eqb content_type (py "playlist") then
            md <- get_playlist_metadata env spotify_id token ;; ret (Some md)
          else if str_eqb content_type (py "liked") then
            md <- get_liked_songs_metadata env token ;; ret (Some md)
          else ret None
      end
  end.

(** ** Utilities *)

Definition download_album_art (env : Env) (url : pystr) : M (option Path) :=
  match url with
  | [] => ret None
  | _ =>
      w <- get_world ;;
      emit (EvGet url) ;;;
      response <- of_option (get_raw env w url) HTTPError ;;
      if (fst response =? 200)%Z then
        w' <- get_world ;;
        let tmp_file :=
          in_dir (tempdir env) (py "album_art_" ++ uuid4_hex env w' ++ py ".jpg") in
        write_file tmp_file (snd response) ;;;
        ret (Some tmp_file)
      else ret None
  end.

(** The line [log_download] writes, for a given time stamp. *)
Definition log_entry (timestamp status artist collection : pystr) (num_songs : Z)
  (fmt : pystr) : pystr :=
  py "[" ++ timestamp ++ py "] " ++ status ++ py " | " ++ artist ++ py " - " ++
  collection ++ py " | " ++ str_int num_songs ++ py " songs | " ++ fmt ++
  [ascii_of_nat 10].

Definition log_download (env : Env) (artist collection : pystr) (num_songs : Z)
  (fmt status : pystr) : M unit :=
  mkdir (BASE_DIR env) ;;;
  w <- get_world ;;
  let timestamp := strftime_now env w in
  append_log (log_entry timestamp status artist collection num_songs fmt).

(** ** Conversion and metadata *)

Definition probe_cmd : list pystr := [py "ffmpeg"; py "-encoders"].

Definition get_ffmpeg_aac_codec (env : Env) : M pystr :=
  try_except
    (result <- subprocess_run env probe_cmd ;;
     if contains (py "aac_at") (stdout result) then ret (py "aac_at")
     else ret (py "aac"))
    (py "aac").

(** The name of the file [embed_metadata] produces. *)
Definition output_name (track_info : TrackInfo) (pad_digits : nat) : pystr :=
  let track_number_str := zfill (str_int (number track_info)) pad_digits in
  let safe_title := sanitize_filename (title track_info) in
  track_number_str ++ py " - " ++ safe_title ++ py ".m4a".

Definition output_path (file_path : Path) (track_info : TrackInfo) (pad_digits : nat)
  : Path :=
  in_dir (parent file_path) (output_name track_info pad_digits).

Definition ffmpeg_cmd (file_path : Path) (track_info : TrackInfo)
  (album_art : option Path) (codec : pystr) (output_file : Path) : list pystr :=
  [py "ffmpeg"; py "-y"; py "-i"; path_str file_path] ++
  match album_art with
  | Some art =>
      [py "-i"; path_str art; py "-map"; py "0:a"; py "-map"; py "1:v";
       py "-c:v"; py "copy"; py "-disposition:v:0"; py "attached_pic"]
  | None => [py "-map"; py "0:a"]
  end ++
  [py "-c:a"; codec;
   py "-b:a"; py "256k";
   py "-movflags"; py "+faststart";
   py "-metadata"; py "artist=" ++ artists track_info;
   py "-metadata"; py "album=" ++ album track_info;
   py "-metadata"; py "title=" ++ title track_info;
   py "-metadata"; py "track=" ++ str_int (number track_info);
   path_str output_file].

(** [album_art if album_art and album_art.exists() else None] *)
Definition usable_art (f : FS) (album_art : option Path) : option Path :=
  match album_art with
  | Some art => if is_file f art then Some art else None
  | None => None
  end.

Definition embed_metadata (env : Env) (file_path : Path) (track_info : TrackInfo)
  (album_art : option Path) (pad_digits : nat) : M (option Path) :=
  codec <- get_ffmpeg_aac_codec env ;;
  let output_file := output_path file_path track_info pad_digits in
  w <- get_world ;;
  let cmd :=
    ffmpeg_cmd file_path track_info (usable_art (fs w) album_art) codec output_file in
  result <- subprocess_run env cmd ;;
  if (returncode result =? 0)%Z then
    unlink file_path ;;;
    ret (Some output_file)
  else ret None.

Definition audio_suffixes : list pystr :=
  [py ".mp3"; py ".flac"; py ".wav"; py ".ogg"].

Definition is_audio (p : Path) : bool :=
  existsb (str_eqb (lower (suffix p))) audio_suffixes.

(** A matched pair with the two values every pair shares. *)
Definition Job : Type := (Path * TrackInfo * option Path * nat)%type.

Definition job_file (j : Job) : Path := fst (fst (fst j)).
Definition job_track (j : Job) : TrackInfo := snd (fst (fst j)).

(** [track["title"].lower() in f.stem.lower()] *)
Definition title_in_stem (track : TrackInfo) (f : Path) : bool :=
  contains (lower (title track)) (lower (stem f)).

(** The inner loop: the first file whose stem contains the title. *)
Definition first_match (track : TrackInfo) (fl : list Path) : option Path :=
  find (title_in_stem track) fl.

(** The matching loop of [convert_to_aac_parallel]. *)
Fixpoint match_tracks (fl : list Path) (track_list : list TrackInfo)
  (album_art_path : option Path) (pad_digits : nat) : list Job :=
  match track_list with
  | [] => []
  | track :: rest =>
      match first_match track fl with
      | Some f =>
          (f, track, album_art_path, pad_digits)
          :: match_tracks fl rest album_art_path pad_digits
      | None => match_tracks fl rest album_art_path pad_digits
      end
  end.

(** [pad_digits = len(str(len(track_list)))] *)
Definition pad_width (track_list : list TrackInfo) : nat :=
  length (str_nat (length track_list)).

(** The pairs behind one whose result raised.  [Executor.map] has
    submitted every pair before the first result is read, and its result
    iterator cancels the futures that are still pending when a result
    raises; leaving the [with] block then waits for the running ones.  The
    workers take the pairs in the order of submission, so the first [k] pairs
    run to their end, whatever they return or raise, and the others never
    start. *)
Fixpoint run_taken (env : Env) (k : nat) (jobs : list Job) : M unit :=
  match k, jobs with
  | S k', (f, track, art, pad) :: rest =>
      fun w => run_taken env k' rest (snd (embed_metadata env f track art pad w))
  | _, _ => ret tt
  end.

(** The pool's work and the counting loop: the results are read in list
    order and a result that is not [None] counts; the first exception in
    that order is re-raised, after the pairs behind it that a worker has
    already taken have run. *)
Fixpoint run_jobs (env : Env) (matched : list Job) : M Z :=
  match matched with
  | [] => ret 0%Z
  | (f, track, art, pad) :: rest =>
      fun w =>
        match embed_metadata env f track art pad w with
        | (Ok output_file, w1) =>
            let (others, w2) := run_jobs env rest w1 in
            (match others with
             | Ok converted =>
                 Ok (match output_file with
                     | Some _ => converted + 1
                     | None => converted
                     end)%Z
             | Raise e => Raise e
             end, w2)
        | (Raise e, w1) =>
            (Raise e, snd (run_taken env (taken env w1) rest w1))
        end
  end.

Definition convert_to_aac_parallel (env : Env) (folder : pystr)
  (track_list : list TrackInfo) (album_art_url : option pystr) : M Z :=
  listed <- iterdir folder ;;
  let fl := sorted (filter is_audio listed) in
  album_art_path <-
    match album_art_url with
    | Some url => download_album_art env url
    | None => ret None
    end ;;
  let pad_digits := pad_width track_list in
  let matched := match_tracks fl track_list album_art_path pad_digits in
  run_jobs env matched.

(** ** SpotDL download *)

(** [range(lo, hi)] *)
Definition py_range (lo hi : Z) : list Z :=
  map (fun i => (lo + Z.of_nat i)%Z) (seq 0 (Z.to_nat (hi - lo))).

Definition spotdl_cmd (url output_template fmt : pystr) (bitrate : option pystr)
  : list pystr :=
  [py "spotdl"; py "download"; url; py "--output"; output_template;
   py "--format"; fmt; py "--threads"; py "8"] ++
  match bitrate with
  | Some ((_ :: _) as b) => if str_eqb fmt (py "mp3") then [py "--bitrate"; b] else []
  | _ => []
  end.

(** The body of [for attempt in range(1, retries + 2)]. *)
Fixpoint spotdl_attempts (env : Env) (cmd : list pystr) (target_folder : pystr)
  (attempts : list Z) : M (option pystr) :=
  match attempts with
  | [] => ret None
  | attempt :: rest =>
      result <- subprocess_run env cmd ;;
      if (returncode result =? 0)%Z then ret (Some target_folder)
      else
        sleep (2 ^ attempt) ;;;
        spotdl_attempts env cmd target_folder rest
  end.

Definition target_folder_of (env : Env) (artist collection : pystr) : pystr :=
  dir_join (BASE_DIR env) (sanitize_filename (artist ++ py " - " ++ collection)).

Definition output_template_of (target_folder : pystr) : pystr :=
  path_str (in_dir target_folder (py "{artists} - {title}.{output-ext}")).

(** The command line of every attempt of one [run_spotdl_download] call. *)
Definition download_cmd (env : Env) (url artist collection fmt : pystr)
  (bitrate : option pystr) : list pystr :=
  spotdl_cmd url (output_template_of (target_folder_of env artist collection))
    fmt bitrate.

Definition run_spotdl_download (env : Env) (url artist collection fmt : pystr)
  (bitrate : option pystr) (retries : Z) : M (option pystr) :=
  let target_folder := target_folder_of env artist collection in
  mkdir target_folder ;;;
  spotdl_attempts env (download_cmd env url artist collection fmt bitrate)
    target_folder (py_range 1 (retries + 2)).

(** The default of the [retries] parameter. *)
Definition DEFAULT_RETRIES : Z := 2.

Definition run_spotdl_download_with_fallback (env : Env) (url artist collection : pystr)
  : M (option pystr * pystr) :=
  folder <- run_spotdl_download env url artist collection PREFERRED_FORMAT None
              DEFAULT_RETRIES ;;
  match folder with
  | Some _ => ret (folder, PREFERRED_FORMAT)
  | None =>
      folder <- run_spotdl_download env url artist collection FALLBACK_FORMAT
                  (Some MP3_BITRATE) DEFAULT_RETRIES ;;
      ret (folder, FALLBACK_FORMAT)
  end.

(** ** Main *)

Definition download_spotify_url (env : Env) (url : pystr) : M unit :=
  metadata <- get_metadata_from_url env url ;;
  match metadata with
  | None => ret tt
  | Some metadata =>
      let artist := md_artist metadata in
      let collection := md_album metadata in
      let track_list := md_tracks metadata in
      let album_art_url := md_image_url metadata in
      r <- run_spotdl_download_with_fallback env url artist collection ;;
      let (folder, fmt) := r in
      w <- get_world ;;
      match folder with
      | Some folder =>
          if dir_exists (fs w) folder then
            num <- convert_to_aac_parallel env folder track_list album_art_url ;;
            if (num >? 0)%Z then
              log_download env artist collection num
                (py "AAC M4A (from " ++ fmt ++ py ")") (py "SUCCESS")
            else ret tt
          else ret tt
      | None => ret tt
      end
  end.

(** ** Predicates used in the statements *)

(** No character of [s] is one of the nine invalid ones. *)
Definition no_invalid (s : pystr) : bool :=
  forallb (fun c => negb (char_in c invalid_chars)) s.

(** [s] does not begin with a dot or a space. *)
Definition clean_start (s : pystr) : bool :=
  match s with
  | c :: _ => negb (char_in c (py ". "))
  | [] => true
  end.

(** [s] does not end with a dot or a space. *)
Definition clean_end (s : pystr) : bool := clean_start (rev s).

(** What the nine replacements do to one character. *)
Definition sanitize_char (c : ascii) : ascii :=
  fold_left (fun x bad => if Ascii.eqb x bad then ch "_" else x) invalid_chars c.

Definition is_digit (c : ascii) : bool := char_in c (py "0123456789").

Definition valid_char (c : ascii) : bool := negb (char_in c invalid_chars).

(** What is claimed of a sanitized name. *)
Definition well_sanitized (s : pystr) : bool :=
  no_invalid s && clean_start s && clean_end s && (length s <=? 200).


(** [a] is [b] with some elements left out, the order kept. *)
Inductive subseq {A : Type} : list A -> list A -> Prop :=
| subseq_nil : subseq [] []
| subseq_skip x l1 l2 : subseq l1 l2 -> subseq l1 (x :: l2)
| subseq_take x l1 l2 : subseq l1 l2 -> subseq (x :: l1) (x :: l2).


(** [enumerate(l, start=idx)] *)
Fixpoint enumerate_from {A : Type} (idx : Z) (l : list A) : list (Z * A) :=
  match l with
  | [] => []
  | x :: rest => (idx, x) :: enumerate_from (idx + 1) rest
  end.

Definition present (item : PlaylistItem) : bool :=
  match pi_track item with
  | Some _ => true
  | None => false
  end.

(** The 1-based slots of a playlist response whose track is still there. *)
Definition present_slots (items : list PlaylistItem) : list Z :=
  map fst (filter (fun p => present (snd p)) (enumerate_from 1 items)).

(** [idx, idx+1, ..., idx+n-1] *)
Definition positions_from (idx : Z) (n : nat) : list Z :=
  map (fun i => (idx + Z.of_nat i)%Z) (seq 0 n).

(** The positions are exactly 1, 2, ..., n. *)
Definition gap_free (tracks : list TrackInfo) : Prop :=
  map number tracks = positions_from 1 (length tracks).

(** The events of attempts that all failed, the first one numbered [first]:
    each is the run of [cmd] with its exit code, then the back-off sleep. *)
Fixpoint backoff_events (cmd : list pystr) (first : Z) (codes : list Z) : list Event :=
  match codes with
  | [] => []
  | rc :: rest =>
      EvRun cmd (Some rc) :: EvSleep (2 ^ first) :: backoff_events cmd (first + 1) rest
  end.

(** The sleeps of a trace, in order. *)
Fixpoint sleeps (evs : list Event) : list Z :=
  match evs with
  | [] => []
  | EvSleep s :: rest => s :: sleeps rest
  | _ :: rest => sleeps rest
  end.

(** The runs of a trace, in order. *)
Fixpoint runs (evs : list Event) : list (list pystr * option Z) :=
  match evs with
  | [] => []
  | EvRun cmd rc :: rest => (cmd, rc) :: runs rest
  | _ :: rest => runs rest
  end.

Definition is_transcode (cmd : list pystr) : bool :=
  match cmd with
  | a :: b :: _ => str_eqb a (py "ffmpeg") && str_eqb b (py "-y")
  | _ => false
  end.

Definition is_spotdl (cmd : list pystr) : bool :=
  match cmd with
  | a :: _ => str_eqb a (py "spotdl")
  | [] => false
  end.

(** The value of [--format] in a [spotdl] command line. *)
Definition cmd_format (cmd : list pystr) : pystr := nth 6 cmd [].

Definition transcode_event (e : Event) : bool :=
  match e with
  | EvRun cmd _ => is_transcode cmd
  | _ => false
  end.

Definition transcode_ok (e : Event) : bool :=
  match e with
  | EvRun cmd (Some rc) => is_transcode cmd && (rc =? 0)%Z
  | _ => false
  end.

(** How many transcodes of a trace exited with code 0. *)
Definition transcode_successes (evs : list Event) : Z :=
  Z.of_nat (length (filter transcode_ok evs)).

Definition spotdl_event (e : Event) : bool :=
  match e with
  | EvRun cmd _ => is_spotdl cmd
  | _ => false
  end.

(** The format of the first [spotdl] run of a trace that exited with 0. *)
Fixpoint acquired_format (evs : list Event) : option pystr :=
  match evs with
  | [] => None
  | EvRun cmd (Some rc) :: rest =>
      if is_spotdl cmd && (rc =? 0)%Z then Some (cmd_format cmd)
      else acquired_format rest
  | _ :: rest => acquired_format rest
  end.

(** ** Concrete inputs *)

Definition long_title : pystr := repeat (ch "a") 199 ++ py " b".

Definition long_track : TrackInfo :=
  mkTrack 1 (repeat (ch "a") 200) (py "Artist") (py "Album").

Definition file_song_a : Path := mkPath (py "/music") (py "Artist - Song A.mp3").





Definition removed_item : PlaylistItem := {| pi_track := None |}.

Definition kept_item : PlaylistItem :=
  {| pi_track := Some {| pt_name := py "Intro"; pt_artists := [] |} |}.

(** A small environment: [spotdl] fails for flac and succeeds otherwise,
    every other process exits with 0, and the catalog answers with short
    fixed responses. *)
Definition demo_env : Env := {|
  home := py "/home/u";
  tempdir := py "/tmp";
  uuid4_hex := fun _ => py "0f";
  strftime_now := fun _ => py "2024-01-01 00:00:00";
  spawn := fun w cmd =>
    Some ({| returncode :=
               if is_spotdl cmd && str_eqb (cmd_format cmd) (py "flac")
               then 1%Z else 0%Z;
             stdout := [];
             stderr := [] |}, fs w);
  token_grant := fun _ _ => Some (py "token");
  get_album := fun _ _ _ => None;
  get_track := fun _ _ _ => None;
  get_playlist := fun _ _ _ =>
    Some {| pl_name := py "Mix";
            pl_owner_display_name := py "Owner";
            pl_items := [removed_item; kept_item];
            pl_images := [] |};
  get_saved := fun _ _ _ =>
    Some {| sv_items :=
              [{| si_track := Some {| st_name := py "Intro";
                                      st_artists := [];
                                      st_album_name := py "Album" |} |}] |};
  get_raw := fun _ _ => None;
  taken := fun _ => 7
|}.


Definition demo_folder : pystr := py "/home/u/SpotifyDownloads/Owner - Mix".

(** The directories of the demo file system: the target folder and the
    ones above it. *)
Definition demo_dirs : list pystr :=
  [demo_folder; py "/home"; py "/home/u"; py "/home/u/SpotifyDownloads"].

Definition demo_fs : FS :=
  mkFS [(mkPath demo_folder (py "Owner - Intro.mp3"), py "audio")] demo_dirs.

Definition demo_world : World := mkWorld demo_fs [] [].


Definition demo_url : pystr := py "https://open.spotify.com/playlist/37i9dQ".

Definition demo_flac_cmd : list pystr :=
  download_cmd demo_env demo_url (py "Owner") (py "Mix") PREFERRED_FORMAT None.


(** The demo world after three failed flac attempts. *)
Definition demo_after_flac : World :=
  mkWorld (fs_mkdir demo_fs demo_folder) []
    (backoff_events demo_flac_cmd 1 [1; 1; 1]%Z).


Definition demo_file : Path := mkPath demo_folder (py "Owner - Intro.mp3").

Definition demo_track : TrackInfo := mkTrack 2 (py "Intro") [] (py "Mix").

Definition demo_output : Path := mkPath demo_folder (py "2 - Intro.m4a").

(** The demo world after [demo_file] was transcoded for [demo_track]. *)
Definition demo_after_embed : World :=
  mkWorld (mkFS [] demo_dirs) []
    [EvRun probe_cmd (Some 0%Z);
     EvRun (ffmpeg_cmd demo_file demo_track None (py "aac") demo_output) (Some 0%Z)].

(** ** URL shapes *)

(** The URL mentions the liked songs. *)
Definition liked_link (url : pystr) : Prop :=
  exists pre post, url = pre ++ py "liked-songs" ++ post.

(** Somewhere in the URL there is [http://] or [https://], the host
    [open.spotify.com], one of the three kinds and an identifier of at least
    one letter or digit. *)
Definition catalog_link (url : pystr) : Prop :=
  exists pre scheme kind c post,
    url = pre ++ scheme ++ py "://open.spotify.com/" ++ kind ++ py "/" ++ c :: post /\
    In scheme [py "http"; py "https"] /\
    In kind [py "album"; py "playlist"; py "track"] /\
    is_alnum c = true.

(** The URL has the shape of a track, album, playlist or liked-songs URL. *)
Definition recognized (url : pystr) : Prop := liked_link url \/ catalog_link url.

Definition unknown_url : pystr := py "https://example.com/album/42".

(** ** Actions that spawn nothing

    An action is [quiet] when it leaves the log alone and adds no process
    run to the trace. *)
Definition quiet {A : Type} (m : M A) : Prop :=
  forall w r w',
    m w = (r, w') ->
    exists evs, log w' = log w /\ trace w' = trace w ++ evs /\ runs evs = [].

(** The demo world after the whole run for [demo_url]. *)
Definition demo_final : World :=
  snd (download_spotify_url demo_env demo_url demo_world).

Definition demo_log_line : pystr :=
  py "[2024-01-01 00:00:00] SUCCESS | Owner - Mix | 1 songs | AAC M4A (from mp3)"
  ++ [ascii_of_nat 10].

(** ** The installation check and the interactive loop *)

Definition version_cmd : list pystr := [py "spotdl"; py "--version"].

(** [check=True] makes a non-zero exit raise [CalledProcessError]; the bare
    [except] catches it like any other exception, so its class cannot be
    observed and [OSError] stands for it here. *)
Definition check_spotdl_installed (env : Env) : M bool :=
  try_except
    (result <- subprocess_run env version_cmd ;;
     if (returncode result =? 0)%Z then ret true else raise OSError)
    false.

(** The characters [str.strip()] removes when it is given no argument:
    the code points below 256 for which [str.isspace] holds. *)
Definition whitespace : pystr :=
  map ascii_of_nat [9; 10; 11; 12; 13; 28; 29; 30; 31; 32; 133; 160].

(** [url.lower() in ["exit", "quit"]] *)
Definition is_exit (url : pystr) : bool :=
  existsb (str_eqb (lower url)) [py "exit"; py "quit"].

(** [url.lower() == "history"] *)
Definition is_history (url : pystr) : bool := str_eqb (lower url) (py "history").

(** The run for [url] asks for the user login: the URL resolves to a
    playlist or to the liked songs, so [get_metadata_from_url] calls
    [get_spotify_token] with [client_only=False], which reads one line, the
    code, from the standard input. *)
Definition asks_login (url : pystr) : bool :=
  match extract_spotify_id_and_type url with
  | Some (_ :: _, content_type) =>
      negb (existsb (str_eqb content_type) [py "album"; py "track"])
  | _ => false
  end.

(** The [while True] loop of [main], over the lines the standard input
    holds.  The prompt of [main] and the login prompt of [get_spotify_token]
    read from the same input, so a run that asks for the user login takes
    the line after its URL as the code; the code is recorded in the trace,
    where the token grant can see it.  After the last line [input] raises
    [EOFError]: in [main] that ends the loop, at the login prompt nothing
    catches it.  Showing the history only prints, so it leaves the world as
    it is. *)
Fixpoint main_loop (env : Env) (inputs : list pystr) : M unit :=
  match inputs with
  | [] => ret tt
  | line :: rest =>
      let url := strip whitespace line in
      if is_exit url then ret tt
      else if is_history url then main_loop env rest
      else if asks_login url then
        match rest with
        | [] => raise EOFError
        | code :: rest' =>
            emit (EvCode code) ;;;
            download_spotify_url env url ;;;
            main_loop env rest'
        end
      else download_spotify_url env url ;;; main_loop env rest
  end.

(** After these lines the next line is read by the prompt of [main], not
    by the login prompt. *)
Fixpoint ends_at_prompt (inputs : list pystr) : bool :=
  match inputs with
  | [] => true
  | line :: rest =>
      let url := strip whitespace line in
      if is_exit url then true
      else if is_history url then ends_at_prompt rest
      else if asks_login url then
        match rest with
        | [] => false
        | _ :: rest' => ends_at_prompt rest'
        end
      else ends_at_prompt rest
  end.

(** [main]; [Some 1] stands for [sys.exit(1)], [None] for a normal return. *)
Definition main (env : Env) (inputs : list pystr) : M (option Z) :=
  installed <- check_spotdl_installed env ;;
  if installed then main_loop env inputs ;;; ret None
  else ret (Some 1%Z).

(** ** More predicates used in the statements *)

(** The files the matching loop of [convert_to_aac_parallel] chooses from. *)
Definition candidate_files (f : FS) (folder : pystr) : list Path :=
  sorted (filter is_audio (iterdir_files f folder)).

(** The seconds slept in a trace. *)
Definition total_sleep (evs : list Event) : Z := fold_right Z.add 0%Z (sleeps evs).

(** The catalog endpoint read for an identifier of a kind. *)
Definition endpoint (kind spotify_id : pystr) : pystr :=
  if str_eqb kind (py "album") then py "https://api.spotify.com/v1/albums/" ++ spotify_id
  else if str_eqb kind (py "track") then
    py "https://api.spotify.com/v1/tracks/" ++ spotify_id
  else if str_eqb kind (py "playlist") then
    py "https://api.spotify.com/v1/playlists/" ++ spotify_id
  else LIKED_URL.

(** The process behind a command line is [ffmpeg]. *)
Definition is_ffmpeg (cmd : list pystr) : bool :=
  match cmd with
  | a :: _ => str_eqb a (py "ffmpeg")
  | [] => false
  end.

(** The command lines of the transcodes of a trace, in order. *)
Definition transcode_cmds (evs : list Event) : list (list pystr) :=
  filter is_transcode (map fst (runs evs)).

(** The last argument of a command line: for a transcode, the file it
    writes. *)
Definition output_arg (cmd : list pystr) : pystr := last cmd [].

(** The fourth argument of a command line: for a transcode, the file it
    reads (the one after the first [-i]). *)
Definition input_arg (cmd : list pystr) : pystr := nth 3 cmd [].

(** The events of pairs that ran: only [ffmpeg] is started, and the
    transcodes are those of the pairs, in their order. *)
Definition ran_as (evs : list Event) (jobs : list Job) : Prop :=
  Forall (fun c => is_ffmpeg (fst c) = true) (runs evs) /\
  map input_arg (transcode_cmds evs) = map (fun j => path_str (job_file j)) jobs /\
  map output_arg (transcode_cmds evs)
  = map (fun j => path_str (output_path (job_file j) (job_track j) (snd j))) jobs.

(** A name that needs no sanitizing, with a title that does. *)
Definition clean_name : pystr := py "Artist - Album (Deluxe)".

(** An action that reads one URL and does nothing else to the world. *)
Definition reads_once {A : Type} (m : M A) (url : pystr) : Prop :=
  forall w r w',
    m w = (r, w') ->
    fs w' = fs w /\ log w' = log w /\ trace w' = trace w ++ [EvGet url].

(** The saved item still has its track. *)
Definition saved_present (item : SavedItem) : bool :=
  match si_track item with
  | Some _ => true
  | None => false
  end.

Definition demo_track_resp : TrackResp :=
  {| tr_name := py "AC/DC live.";
     tr_artists := [{| artist_name := py "AC/DC" |}];
     tr_album_name := py "Live";
     tr_album_images := [] |}.

(** An environment whose catalog knows one track and whose saved tracks
    hold a removed one. *)
Definition track_env : Env := {|
  home := py "/home/u";
  tempdir := py "/tmp";
  uuid4_hex := fun _ => py "0f";
  strftime_now := fun _ => py "2024-01-01 00:00:00";
  spawn := fun _ _ => None;
  token_grant := fun _ _ => Some (py "token");
  get_album := fun _ _ _ => None;
  get_track := fun _ _ _ => Some demo_track_resp;
  get_playlist := fun _ _ _ => None;
  get_saved := fun _ _ _ =>
    Some {| sv_items := [{| si_track := None |}] |};
  get_raw := fun _ url => Some (if str_eqb url (py "http://img/ok") then 200%Z else 404%Z,
                                py "jpeg");
  taken := fun _ => 0
|}.

(** An environment whose catalog knows the track [T.N.T.] and in which
    every process exits with 0. *)
Definition single_env : Env := {|
  home := home track_env;
  tempdir := tempdir track_env;
  uuid4_hex := uuid4_hex track_env;
  strftime_now := strftime_now track_env;
  spawn := spawn demo_env;
  token_grant := token_grant track_env;
  get_album := get_album track_env;
  get_track := fun _ _ _ =>
    Some {| tr_name := py "T.N.T.";
            tr_artists := [{| artist_name := py "AC/DC" |}];
            tr_album_name := py "T.N.T.";
            tr_album_images := [] |};
  get_playlist := get_playlist track_env;
  get_saved := get_saved track_env;
  get_raw := get_raw track_env;
  taken := taken track_env
|}.

(** A world whose folder [/music] holds the download of that track. *)
Definition single_world : World :=
  mkWorld (mkFS [(mkPath (py "/music") (py "AC_DC - T.N.T..flac"), py "audio")]
             [py "/music"]) [] [].

(** No path of the list is smaller than the one before it. *)
Fixpoint ascending (l : list Path) : bool :=
  match l with
  | a :: (b :: _) as rest => negb (path_ltb b a) && ascending rest
  | _ => true
  end.

(** A folder with two audio files, an earlier output and a text file. *)
Definition mixed_fs : FS :=
  mkFS [(mkPath demo_folder (py "b - Outro.FLAC"), py "audio");
        (mkPath demo_folder (py "1 - Intro.m4a"), py "aac");
        (mkPath demo_folder (py "a - Intro.mp3"), py "audio");
        (mkPath demo_folder (py "notes.txt"), py "text")] demo_dirs.
(* ================================================================== *)
(** * Part II.  Properties *)
(* ================================================================== *)

Unset Implicit Arguments.

(** ** Strings *)

Lemma forallb_rev (f : ascii -> bool) (s : pystr) :
  forallb f (rev s) = forallb f s.
Proof.
  induction s as [|c s IH]; simpl; [reflexivity|].
  rewrite forallb_app, IH. simpl. rewrite andb_true_r. apply andb_comm.
Qed.

Lemma forallb_lstrip (f : ascii -> bool) (chars s : pystr) :
  forallb f s = true -> forallb f (lstrip chars s) = true.
Proof.
  induction s as [|c s IH]; simpl; [reflexivity|].
  intros H. apply andb_true_iff in H as [Hc Hs].
  destruct (char_in c chars); [auto|].
  simpl. now rewrite Hc, Hs.
Qed.

Lemma forallb_strip (f : ascii -> bool) (chars s : pystr) :
  forallb f s = true -> forallb f (strip chars s) = true.
Proof.
  intros H. unfold strip, rstrip.
  rewrite forallb_rev. apply forallb_lstrip.
  rewrite forallb_rev. now apply forallb_lstrip.
Qed.

Lemma forallb_firstn (f : ascii -> bool) (n : nat) (s : pystr) :
  forallb f s = true -> forallb f (firstn n s) = true.
Proof.
  revert s. induction n as [|n IH]; intros [|c s]; simpl; try reflexivity.
  intros H. apply andb_true_iff in H as [Hc Hs].
  now rewrite Hc, IH.
Qed.

Lemma lstrip_length (chars s : pystr) : length (lstrip chars s) <= length s.
Proof.
  induction s as [|c s IH]; simpl; [lia|].
  destruct (char_in c chars); simpl; lia.
Qed.

Lemma strip_length (chars s : pystr) : length (strip chars s) <= length s.
Proof.
  unfold strip, rstrip. rewrite length_rev.
  etransitivity; [apply lstrip_length|]. rewrite length_rev. apply lstrip_length.
Qed.

Lemma lstrip_cons (chars : pystr) (c : ascii) (t : pystr) :
  lstrip chars (c :: t) = if char_in c chars then lstrip chars t else c :: t.
Proof. reflexivity. Qed.

Lemma lstrip_clean (s : pystr) : clean_start (lstrip (py ". ") s) = true.
Proof.
  induction s as [|c s IH]; [reflexivity|].
  rewrite lstrip_cons.
  destruct (char_in c (py ". ")) eqn:E; [exact IH|].
  unfold clean_start. now rewrite E.
Qed.

(** [lstrip] keeps a suffix, so [rstrip] keeps a prefix. *)
Lemma lstrip_suffix (chars s : pystr) : exists p, s = p ++ lstrip chars s.
Proof.
  induction s as [|c s [p Hp]]; simpl.
  - now exists [].
  - destruct (char_in c chars).
    + exists (c :: p). simpl. now f_equal.
    + now exists [].
Qed.

Lemma rstrip_prefix (chars s : pystr) : exists t, s = rstrip chars s ++ t.
Proof.
  unfold rstrip. destruct (lstrip_suffix chars (rev s)) as [p Hp].
  exists (rev p).
  rewrite <- rev_app_distr, <- Hp. now rewrite rev_involutive.
Qed.

Lemma clean_start_prefix (p t : pystr) :
  clean_start (p ++ t) = true -> clean_start p = true.
Proof. destruct p; simpl; auto. Qed.

Lemma clean_start_firstn (n : nat) (s : pystr) :
  clean_start s = true -> clean_start (firstn n s) = true.
Proof. destruct n, s; simpl; auto. Qed.

Lemma strip_clean_start (s : pystr) : clean_start (strip (py ". ") s) = true.
Proof.
  unfold strip.
  destruct (rstrip_prefix (py ". ") (lstrip (py ". ") s)) as [t Ht].
  apply clean_start_prefix with (t := t). rewrite <- Ht. apply lstrip_clean.
Qed.

Lemma strip_clean_end (s : pystr) : clean_end (strip (py ". ") s) = true.
Proof.
  unfold clean_end, strip, rstrip. rewrite rev_involutive. apply lstrip_clean.
Qed.

(** ** sanitize_filename *)

Lemma replace_fold_map (bads s : pystr) :
  fold_left (fun fn c => replace_char fn c (ch "_")) bads s
  = map (fold_left (fun x bad => if Ascii.eqb x bad then ch "_" else x) bads) s.
Proof.
  revert s. induction bads as [|b bads IH]; intros s; simpl.
  - now rewrite map_id.
  - rewrite IH. unfold replace_char. now rewrite map_map.
Qed.

Lemma sanitize_char_valid (c : ascii) :
  negb (char_in (sanitize_char c) invalid_chars) = true.
Proof. destruct c as [[] [] [] [] [] [] [] []]; reflexivity. Qed.

Lemma replaced_no_invalid (s : pystr) :
  no_invalid (fold_left (fun fn c => replace_char fn c (ch "_")) invalid_chars s) = true.
Proof.
  rewrite replace_fold_map. unfold no_invalid.
  rewrite forallb_forall. intros x Hx.
  apply in_map_iff in Hx as [c [<- _]]. apply sanitize_char_valid.
Qed.

Lemma replaced_length (bads s : pystr) :
  length (fold_left (fun fn c => replace_char fn c (ch "_")) bads s) = length s.
Proof. rewrite replace_fold_map. apply length_map. Qed.

Lemma sanitize_no_invalid (s : pystr) : no_invalid (sanitize_filename s) = true.
Proof.
  unfold sanitize_filename, no_invalid.
  apply forallb_firstn, forallb_strip. apply replaced_no_invalid.
Qed.

Lemma sanitize_clean_start (s : pystr) : clean_start (sanitize_filename s) = true.
Proof. unfold sanitize_filename. apply clean_start_firstn, strip_clean_start. Qed.

Lemma sanitize_length (s : pystr) : length (sanitize_filename s) <= 200.
Proof. unfold sanitize_filename. rewrite length_firstn. lia. Qed.

Lemma sanitize_clean_end (s : pystr) :
  length s <= 200 -> clean_end (sanitize_filename s) = true.
Proof.
  intros H. unfold sanitize_filename.
  rewrite firstn_all2; [apply strip_clean_end|].
  etransitivity; [apply strip_length|]. now rewrite replaced_length.
Qed.

(** ** Decimal printing and zero padding *)

Lemma digit_char_is_digit (n : nat) : is_digit (digit_char (n mod 10)) = true.
Proof.
  assert (H : n mod 10 < 10) by (apply Nat.mod_upper_bound; lia).
  remember (n mod 10) as k eqn:E. clear E.
  do 10 (destruct k as [|k]; [reflexivity|]). lia.
Qed.

Lemma str_nat_fuel_digits (fuel n : nat) (acc : pystr) :
  forallb is_digit acc = true -> forallb is_digit (str_nat_fuel fuel n acc) = true.
Proof.
  revert n acc.
  induction fuel as [|fuel IH]; intros n acc Hacc; cbn [str_nat_fuel]; [exact Hacc|].
  destruct (n <? 10).
  - cbn [forallb]. now rewrite digit_char_is_digit.
  - apply IH. cbn [forallb]. now rewrite digit_char_is_digit.
Qed.

Lemma str_nat_digits (n : nat) : forallb is_digit (str_nat n) = true.
Proof. now apply str_nat_fuel_digits. Qed.

(** The number of characters [str] prints is the number of decimal digits. *)
Lemma str_nat_fuel_length (fuel n : nat) (acc : pystr) :
  n < fuel ->
  exists d,
    length (str_nat_fuel fuel n acc) = d + length acc /\
    1 <= d /\ n < 10 ^ d /\ (0 < n -> 10 ^ (d - 1) <= n).
Proof.
  revert n acc. induction fuel as [|fuel IH]; intros n acc Hn; [lia|].
  cbn [str_nat_fuel]. destruct (n <? 10) eqn:E.
  - apply Nat.ltb_lt in E. exists 1. cbn [length Nat.add Nat.sub].
    change (10 ^ 1) with 10. change (10 ^ 0) with 1. repeat split; lia.
  - apply Nat.ltb_ge in E.
    assert (Hdiv : n / 10 < fuel).
    { assert (n / 10 < n) by (apply Nat.div_lt; lia). lia. }
    destruct (IH (n / 10) (digit_char (n mod 10) :: acc) Hdiv)
      as [d [Hlen [Hd [Hub Hlb]]]].
    exists (S d). cbn [length] in Hlen. rewrite Hlen.
    assert (Hq : 0 < n / 10) by (apply Nat.div_str_pos; lia).
    specialize (Hlb Hq).
    pose proof (Nat.div_mod_eq n 10) as Hdm.
    assert (Hm : n mod 10 < 10) by (apply Nat.mod_upper_bound; lia).
    replace (S d - 1) with (S (d - 1)) by lia.
    rewrite !Nat.pow_succ_r'.
    repeat split; try lia.
Qed.

Lemma str_nat_length (n : nat) :
  exists d,
    length (str_nat n) = d /\ 1 <= d /\ n < 10 ^ d /\ (0 < n -> 10 ^ (d - 1) <= n).
Proof.
  destruct (@str_nat_fuel_length (S n) n [] ltac:(lia)) as [d [Hlen H]].
  exists d. split; [|exact H]. unfold str_nat. rewrite Hlen. simpl. lia.
Qed.

Lemma str_nat_nonempty (n : nat) : str_nat n <> [].
Proof.
  destruct (str_nat_length n) as [d [Hlen [Hd _]]].
  intros E. rewrite E in Hlen. simpl in Hlen. lia.
Qed.

(** [zfill] only ever adds zeros. *)
Lemma forallb_zfill (f : ascii -> bool) (s : pystr) (width : nat) :
  f (ch "0") = true -> forallb f s = true -> forallb f (zfill s width) = true.
Proof.
  intros H0 Hs. unfold zfill.
  assert (Hfill : forall k, forallb f (repeat (ch "0") k) = true).
  { induction k; simpl; [reflexivity|]. now rewrite H0. }
  destruct (width <=? length s); [exact Hs|].
  destruct s as [|c rest]; [apply Hfill|].
  simpl in Hs. apply andb_true_iff in Hs as [Hc Hrest].
  destruct (char_in c (py "+-")).
  - simpl. rewrite Hc, forallb_app, Hfill, Hrest. reflexivity.
  - rewrite forallb_app, Hfill. simpl. now rewrite Hc, Hrest.
Qed.

Lemma zfill_length (s : pystr) (width : nat) :
  length (zfill s width) = Nat.max width (length s).
Proof.
  unfold zfill. destruct (width <=? length s) eqn:E.
  - apply Nat.leb_le in E. lia.
  - apply Nat.leb_gt in E.
    destruct s as [|c rest]; [simpl; rewrite repeat_length; simpl; lia|].
    destruct (char_in c (py "+-")); simpl;
      rewrite length_app, repeat_length; simpl in *; lia.
Qed.

(** A padded non-negative number is zeros followed by its digits. *)
Lemma zfill_digits (s : pystr) (width : nat) :
  forallb is_digit s = true ->
  zfill s width = repeat (ch "0") (width - length s) ++ s.
Proof.
  intros Hs. unfold zfill. destruct (width <=? length s) eqn:E.
  - apply Nat.leb_le in E. now replace (width - length s) with 0 by lia.
  - destruct s as [|c rest]; [now rewrite app_nil_r|].
    simpl in Hs. apply andb_true_iff in Hs as [Hc _].
    assert (Hsign : char_in c (py "+-") = false).
    { revert Hc. destruct c as [[] [] [] [] [] [] [] []]; now intros. }
    now rewrite Hsign.
Qed.

Lemma clean_start_zfill (s : pystr) (width : nat) :
  clean_start s = true -> clean_start (zfill s width) = true.
Proof.
  intros Hs. unfold zfill.
  destruct (width <=? length s) eqn:E; [exact Hs|].
  apply Nat.leb_gt in E.
  destruct s as [|c rest].
  - simpl in E. destruct width; [lia|reflexivity].
  - destruct (char_in c (py "+-")); [exact Hs|].
    destruct (width - length (c :: rest)) eqn:E'; [lia|reflexivity].
Qed.

Lemma is_digit_valid (c : ascii) : is_digit c = true -> valid_char c = true.
Proof. destruct c as [[] [] [] [] [] [] [] []]; now intros. Qed.

Lemma is_digit_clean (c : ascii) :
  is_digit c = true -> negb (char_in c (py ". ")) = true.
Proof. destruct c as [[] [] [] [] [] [] [] []]; now intros. Qed.

Lemma forallb_impl (f g : ascii -> bool) (s : pystr) :
  (forall c, f c = true -> g c = true) -> forallb f s = true -> forallb g s = true.
Proof.
  intros Hfg. induction s as [|c s IH]; simpl; [reflexivity|].
  intros H. apply andb_true_iff in H as [Hc Hs]. now rewrite (Hfg _ Hc), IH.
Qed.

Lemma str_int_valid (z : Z) : forallb valid_char (str_int z) = true.
Proof.
  unfold str_int. destruct (z <? 0)%Z; simpl;
    apply forallb_impl with (f := is_digit);
    auto using is_digit_valid, str_nat_digits.
Qed.

Lemma str_int_clean_start (z : Z) : clean_start (str_int z) = true.
Proof.
  unfold str_int. destruct (z <? 0)%Z; [reflexivity|].
  pose proof (str_nat_digits (Z.to_nat z)) as H.
  destruct (str_nat (Z.to_nat z)) as [|c rest]; [reflexivity|].
  simpl in H. apply andb_true_iff in H as [Hc _].
  now apply is_digit_clean.
Qed.

(** ** Output file names *)

Lemma output_name_no_invalid (t : TrackInfo) (pad : nat) :
  no_invalid (output_name t pad) = true.
Proof.
  unfold output_name, no_invalid. fold valid_char.
  rewrite !forallb_app.
  rewrite forallb_zfill; [|reflexivity|apply str_int_valid].
  pose proof (sanitize_no_invalid (title t)) as H. unfold no_invalid in H.
  fold valid_char in H. rewrite H. reflexivity.
Qed.

Lemma output_name_clean_start (t : TrackInfo) (pad : nat) :
  clean_start (output_name t pad) = true.
Proof.
  unfold output_name.
  pose proof (clean_start_zfill (str_int (number t)) pad (str_int_clean_start _)) as H.
  assert (Hne : zfill (str_int (number t)) pad <> []).
  { intros E. apply (f_equal (@length ascii)) in E.
    rewrite zfill_length in E. simpl in E.
    assert (length (str_int (number t)) <> 0); [|lia].
    unfold str_int. destruct (number t <? 0)%Z; simpl; [lia|].
    pose proof (str_nat_nonempty (Z.to_nat (number t))).
    destruct (str_nat (Z.to_nat (number t))); simpl; congruence. }
  destruct (zfill (str_int (number t)) pad); [congruence|exact H].
Qed.

Lemma output_name_clean_end (t : TrackInfo) (pad : nat) :
  clean_end (output_name t pad) = true.
Proof.
  unfold output_name, clean_end.
  rewrite !rev_app_distr. reflexivity.
Qed.

Lemma output_name_length (t : TrackInfo) (pad : nat) :
  length (output_name t pad)
  = Nat.max pad (length (str_int (number t))) + 3
    + length (sanitize_filename (title t)) + 4.
Proof.
  unfold output_name. rewrite !length_app, zfill_length. simpl. lia.
Qed.

(** C10 fails as stated: truncation to 200 characters happens after the
    stripping and can expose a space, and an output file name is longer than
    the sanitized title it contains. *)
Lemma sanitize_filename_not_always_well_sanitized :
  well_sanitized (sanitize_filename long_title) = false /\
  clean_end (sanitize_filename long_title) = false /\
  well_sanitized (output_name long_track 1) = false /\
  length (output_name long_track 1) = 208.
Proof. repeat split; vm_compute; reflexivity. Qed.

(** C10, amended: a sanitized name holds none of the nine invalid
    characters, does not begin with a dot or a space and has at most 200
    characters; it does not end with a dot or a space either when the input
    had at most 200 characters.  The directory of a collection is named by
    such a sanitized string; an output file name holds no invalid character
    and neither begins nor ends with a dot or a space, and is as long as its
    padded number, its sanitized title and seven more characters. *)
Theorem sanitize_filename_safe :
  forall (filename : pystr) (env : Env) (artist collection : pystr)
         (track : TrackInfo) (pad : nat),
    (no_invalid (sanitize_filename filename) = true /\
     clean_start (sanitize_filename filename) = true /\
     length (sanitize_filename filename) <= 200 /\
     (length filename <= 200 -> clean_end (sanitize_filename filename) = true)) /\
    (exists folder_name,
       target_folder_of env artist collection = dir_join (BASE_DIR env) folder_name /\
       no_invalid folder_name = true /\
       clean_start folder_name = true /\
       length folder_name <= 200) /\
    (no_invalid (output_name track pad) = true /\
     clean_start (output_name track pad) = true /\
     clean_end (output_name track pad) = true /\
     length (output_name track pad)
     = Nat.max pad (length (str_int (number track))) + 3
       + length (sanitize_filename (title track)) + 4 /\
     length (sanitize_filename (title track)) <= 200).
Proof.
  intros filename env artist collection track pad. split; [|split].
  - auto using sanitize_no_invalid, sanitize_clean_start, sanitize_length,
      sanitize_clean_end.
  - exists (sanitize_filename (artist ++ py " - " ++ collection)).
    auto using sanitize_no_invalid, sanitize_clean_start, sanitize_length.
  - auto using output_name_no_invalid, output_name_clean_start,
      output_name_clean_end, output_name_length, sanitize_length.
Qed.

(** ** Substrings *)

Lemma prefixb_app (p t : pystr) : prefixb p (p ++ t) = true.
Proof. induction p as [|c p IH]; simpl; [reflexivity|]. now rewrite Ascii.eqb_refl. Qed.

Lemma prefixb_split (p s : pystr) : prefixb p s = true -> exists t, s = p ++ t.
Proof.
  revert s. induction p as [|c p IH]; intros s; simpl.
  - intros _. now exists s.
  - destruct s as [|d s]; [discriminate|].
    intros H. apply andb_true_iff in H as [Hcd Hps].
    apply Ascii.eqb_eq in Hcd. destruct (IH _ Hps) as [t ->].
    exists t. now subst.
Qed.

Lemma contains_eq (sub s : pystr) :
  contains sub s =
  prefixb sub s || match s with [] => false | _ :: t => contains sub t end.
Proof. destruct s; reflexivity. Qed.

Lemma contains_split (sub s : pystr) :
  contains sub s = true <-> exists pre post, s = pre ++ sub ++ post.
Proof.
  split.
  - induction s as [|c s IH]; simpl.
    + rewrite orb_false_r. intros H. apply prefixb_split in H as [t Ht].
      exists [], t. exact Ht.
    + intros H. apply orb_true_iff in H as [H|H].
      * apply prefixb_split in H as [t Ht]. exists [], t. exact Ht.
      * destruct (IH H) as [pre [post ->]]. exists (c :: pre), post. reflexivity.
  - intros [pre [post ->]]. induction pre as [|c pre IH]; simpl.
    + now rewrite contains_eq, prefixb_app.
    + rewrite IH. apply orb_true_r.
Qed.

(** ** The matching loop *)



Lemma subseq_length {A : Type} (l1 l2 : list A) :
  subseq l1 l2 -> length l1 <= length l2.
Proof. induction 1; simpl; lia. Qed.


Lemma match_tracks_subseq (fl : list Path) (tracks : list TrackInfo)
  (art : option Path) (pad : nat) :
  subseq (map job_track (match_tracks fl tracks art pad)) tracks.
Proof.
  induction tracks as [|t tracks IH]; simpl; [constructor|].
  destruct (first_match t fl); simpl; now constructor.
Qed.

Lemma match_tracks_In (fl : list Path) (tracks : list TrackInfo)
  (art : option Path) (pad : nat) (j : Job) :
  In j (match_tracks fl tracks art pad) <->
  exists t f, In t tracks /\ first_match t fl = Some f /\ j = (f, t, art, pad).
Proof.
  induction tracks as [|t tracks IH]; simpl.
  - split; [tauto|]. intros [? [? [[] _]]].
  - destruct (first_match t fl) as [f|] eqn:E; simpl; rewrite IH; split.
    + intros [<-|[t' [f' [Hin [Hf Hj]]]]]; [exists t, f|exists t', f']; auto.
    + intros [t' [f' [[<-|Hin] [Hf Hj]]]].
      * left. congruence.
      * right. exists t', f'. auto.
    + intros [t' [f' [Hin [Hf Hj]]]]. exists t', f'. auto.
    + intros [t' [f' [[<-|Hin] [Hf Hj]]]]; [congruence|].
      exists t', f'. auto.
Qed.



(** ** Playlist positions *)

Lemma positions_from_S (idx : Z) (n : nat) :
  positions_from idx (S n) = idx :: positions_from (idx + 1) n.
Proof.
  unfold positions_from. simpl. f_equal; [lia|].
  rewrite <- seq_shift, map_map. apply map_ext. intros i. lia.
Qed.

Lemma playlist_tracks_slots (collection : pystr) (idx : Z) (items : list PlaylistItem) :
  map number (playlist_tracks collection idx items)
  = map fst (filter (fun p => present (snd p)) (enumerate_from idx items)).
Proof.
  revert idx. induction items as [|item items IH]; intros idx; simpl; [reflexivity|].
  unfold present at 1. simpl.
  destruct (pi_track item); simpl; now rewrite IH.
Qed.

Lemma playlist_tracks_lower_bound (collection : pystr) (idx : Z)
  (items : list PlaylistItem) :
  Forall (fun t => (idx <= number t)%Z) (playlist_tracks collection idx items).
Proof.
  revert idx. induction items as [|item items IH]; intros idx; simpl; [constructor|].
  assert (H : Forall (fun t => (idx <= number t)%Z)
                (playlist_tracks collection (idx + 1) items)).
  { eapply Forall_impl; [|apply IH]. simpl. intros; lia. }
  destruct (pi_track item); [constructor; simpl; [lia|exact H]|exact H].
Qed.

Lemma playlist_tracks_increasing (collection : pystr) (idx : Z)
  (items : list PlaylistItem) :
  forall i j a b,
    nth_error (playlist_tracks collection idx items) i = Some a ->
    nth_error (playlist_tracks collection idx items) j = Some b ->
    i < j -> (number a < number b)%Z.
Proof.
  revert idx. induction items as [|item items IH]; intros idx i j a b; simpl.
  - destruct i; discriminate.
  - destruct (pi_track item); [|apply IH].
    destruct i, j; simpl; try lia.
    + intros [= <-] Hb _. simpl.
      pose proof (playlist_tracks_lower_bound collection (idx + 1) items) as Hlb.
      rewrite Forall_forall in Hlb. apply nth_error_In in Hb.
      specialize (Hlb _ Hb). lia.
    + intros Ha Hb Hlt. eapply IH; eauto. lia.
Qed.

Lemma playlist_tracks_all_present (collection : pystr) (idx : Z)
  (items : list PlaylistItem) :
  forallb present items = true ->
  map number (playlist_tracks collection idx items)
  = positions_from idx (length items) /\
  length (playlist_tracks collection idx items) = length items.
Proof.
  revert idx. induction items as [|item items IH]; intros idx; simpl.
  - now intros _.
  - unfold present at 1. destruct (pi_track item); [|discriminate].
    simpl. intros H. destruct (IH (idx + 1)%Z H) as [Hn Hl].
    rewrite positions_from_S, Hn, Hl. auto.
Qed.

Lemma playlist_tracks_titles (collection : pystr) (idx : Z)
  (items : list PlaylistItem) :
  length (playlist_tracks collection idx items) = length (filter present items).
Proof.
  revert idx. induction items as [|item items IH]; intros idx; simpl; [reflexivity|].
  unfold present at 1. destruct (pi_track item); simpl; now rewrite IH.
Qed.

(** C2 fails as stated: with a removed entry in slot 1, the only included
    track gets position 2, so the positions are not 1, ..., n. *)
Lemma playlist_positions_keep_gaps :
  map number (playlist_tracks (py "Mix") 1 [removed_item; kept_item]) = [2%Z] /\
  ~ gap_free (playlist_tracks (py "Mix") 1 [removed_item; kept_item]).
Proof.
  split; [reflexivity|]. unfold gap_free. vm_compute. discriminate.
Qed.

(** ** The monad and its primitive actions *)

Lemma bind_eq {A B : Type} (m : M A) (k : A -> M B) (w : World) :
  bind m k w =
  match m w with
  | (Ok a, w') => k a w'
  | (Raise e, w') => (Raise e, w')
  end.
Proof. reflexivity. Qed.

Lemma subprocess_run_eq (env : Env) (cmd : list pystr) (w : World) :
  subprocess_run env cmd w =
  match spawn env w cmd with
  | Some (cp, f) =>
      (Ok cp, mkWorld f (log w) (trace w ++ [EvRun cmd (Some (returncode cp))]))
  | None => (Raise OSError, mkWorld (fs w) (log w) (trace w ++ [EvRun cmd None]))
  end.
Proof.
  unfold subprocess_run, bind, get_world, emit, set_fs, ret, raise.
  destruct (spawn env w cmd) as [[cp f]|]; reflexivity.
Qed.

Lemma mkdir_eq (d : pystr) (w : World) :
  mkdir d w =
  if mkdir_blocked (fs w) d then (Raise OSError, w)
  else (Ok tt, mkWorld (fs_mkdir (fs w) d) (log w) (trace w)).
Proof.
  unfold mkdir, bind, get_world, raise, set_fs.
  destruct (mkdir_blocked (fs w) d); reflexivity.
Qed.

Lemma iterdir_eq (folder : pystr) (w : World) :
  iterdir folder w =
  if is_dir (fs w) folder then (Ok (iterdir_files (fs w) folder), w)
  else (Raise OSError, w).
Proof.
  unfold iterdir, bind, get_world, ret, raise.
  destruct (is_dir (fs w) folder); reflexivity.
Qed.

Lemma sleep_eq (s : Z) (w : World) :
  sleep s w = (Ok tt, mkWorld (fs w) (log w) (trace w ++ [EvSleep s])).
Proof. reflexivity. Qed.

(** ** Retries and back-off *)

Lemma py_range_cons (lo hi : Z) :
  (lo < hi)%Z -> py_range lo hi = lo :: py_range (lo + 1) hi.
Proof.
  intros H. unfold py_range.
  replace (Z.to_nat (hi - lo)) with (S (Z.to_nat (hi - (lo + 1)))) by lia.
  simpl. f_equal; [lia|].
  rewrite <- seq_shift, map_map. apply map_ext. intros i. lia.
Qed.

Lemma py_range_nil (lo hi : Z) : (hi <= lo)%Z -> py_range lo hi = [].
Proof.
  intros H. unfold py_range. now replace (Z.to_nat (hi - lo)) with 0 by lia.
Qed.

Lemma py_range_length (lo hi : Z) : length (py_range lo hi) = Z.to_nat (hi - lo).
Proof. unfold py_range. now rewrite length_map, length_seq. Qed.

(** The loop over the attempts [lo, lo+1, ..., lo+n-1]: a run of failed
    attempts, each followed by its sleep, then success, a spawn failure, or
    the end of the range. *)
Lemma spotdl_attempts_range (env : Env) (cmd : list pystr) (target : pystr)
  (n : nat) (lo : Z) (w : World) (r : result (option pystr)) (w' : World) :
  spotdl_attempts env cmd target (py_range lo (lo + Z.of_nat n)) w = (r, w') ->
  exists failed last,
    log w' = log w /\
    trace w' = trace w ++ backoff_events cmd lo failed ++ last /\
    Forall (fun rc => rc <> 0%Z) failed /\
    ((r = Ok None /\ last = [] /\ length failed = n) \/
     (r = Ok (Some target) /\ last = [EvRun cmd (Some 0%Z)] /\ length failed < n) \/
     (r = Raise OSError /\ last = [EvRun cmd None] /\ length failed < n)).
Proof.
  revert lo w. induction n as [|n IH]; intros lo w.
  - rewrite py_range_nil by lia. intros [= <- <-]. exists [], []. simpl.
    rewrite app_nil_r. repeat split; auto.
  - rewrite py_range_cons by lia.
    replace (lo + Z.of_nat (S n))%Z with ((lo + 1) + Z.of_nat n)%Z by lia.
    cbn [spotdl_attempts]. rewrite bind_eq, subprocess_run_eq.
    destruct (spawn env w cmd) as [[cp f]|] eqn:Hsp.
    + destruct (returncode cp =? 0)%Z eqn:Hrc.
      * apply Z.eqb_eq in Hrc. intros [= <- <-].
        exists [], [EvRun cmd (Some 0%Z)].
        simpl. rewrite Hrc. repeat split; auto. right. left.
        repeat split; auto. lia.
      * apply Z.eqb_neq in Hrc.
        rewrite bind_eq, sleep_eq. intros Hrest.
        destruct (IH _ _ Hrest) as [failed [last [Hlog [Htr [Hnz Hcases]]]]].
        exists (returncode cp :: failed), last.
        split; [exact Hlog|]. split.
        { rewrite Htr. cbn [trace backoff_events].
          rewrite <- !app_assoc. reflexivity. }
        split; [constructor; assumption|].
        cbn [length].
        destruct Hcases as [[H1 [H2 H3]]|[[H1 [H2 H3]]|[H1 [H2 H3]]]];
          [left|right; left|right; right]; repeat split; auto; lia.
    + intros [= <- <-]. exists [], [EvRun cmd None]. simpl. repeat split; auto.
      right. right. repeat split; auto. lia.
Qed.


Lemma run_spotdl_download_trace (env : Env) (url artist collection fmt : pystr)
  (bitrate : option pystr) (retries : Z) (w : World)
  (r : result (option pystr)) (w' : World) :
  (0 <= retries)%Z ->
  run_spotdl_download env url artist collection fmt bitrate retries w = (r, w') ->
  exists failed last,
    log w' = log w /\
    trace w' = trace w
      ++ backoff_events (download_cmd env url artist collection fmt bitrate) 1 failed
      ++ last /\
    Forall (fun rc => rc <> 0%Z) failed /\
    ((r = Ok None /\ last = [] /\ Z.of_nat (length failed) = (retries + 1)%Z) \/
     (r = Ok (Some (target_folder_of env artist collection)) /\
      last = [EvRun (download_cmd env url artist collection fmt bitrate) (Some 0%Z)] /\
      (Z.of_nat (length failed) <= retries)%Z) \/
     (r = Raise OSError /\
      last = [EvRun (download_cmd env url artist collection fmt bitrate) None] /\
      (Z.of_nat (length failed) <= retries)%Z) \/
     (r = Raise OSError /\ last = [] /\ failed = [] /\ w' = w /\
      mkdir_blocked (fs w) (target_folder_of env artist collection) = true)).
Proof.
  intros Hr. unfold run_spotdl_download. rewrite bind_eq, mkdir_eq.
  destruct (mkdir_blocked (fs w) (target_folder_of env artist collection)) eqn:Hb.
  - intros [= <- <-]. exists [], []. cbn [backoff_events app].
    rewrite app_nil_r. repeat split; auto.
    right. right. right. repeat split; auto.
  - replace (retries + 2)%Z with (1 + Z.of_nat (Z.to_nat (retries + 1)))%Z by lia.
    intros H. apply spotdl_attempts_range in H
      as [failed [last [Hlog [Htr [Hnz Hcases]]]]].
    exists failed, last. repeat split; auto.
    destruct Hcases as [[H1 [H2 H3]]|[[H1 [H2 H3]]|[H1 [H2 H3]]]];
      [left|right; left|right; right; left]; repeat split; auto; lia.
Qed.

Lemma sleeps_app (a b : list Event) : sleeps (a ++ b) = sleeps a ++ sleeps b.
Proof.
  induction a as [|e a IH]; simpl; [reflexivity|].
  destruct e; simpl; now rewrite IH.
Qed.

Lemma runs_app (a b : list Event) : runs (a ++ b) = runs a ++ runs b.
Proof.
  induction a as [|e a IH]; simpl; [reflexivity|].
  destruct e; simpl; now rewrite IH.
Qed.


Lemma runs_backoff (cmd : list pystr) (first : Z) (codes : list Z) :
  runs (backoff_events cmd first codes) = map (fun rc => (cmd, Some rc)) codes.
Proof.
  revert first. induction codes as [|rc codes IH]; intros first; [reflexivity|].
  cbn [backoff_events runs map]. now rewrite IH.
Qed.




Lemma cmd_format_download (env : Env) (url artist collection fmt : pystr)
  (bitrate : option pystr) :
  cmd_format (download_cmd env url artist collection fmt bitrate) = fmt.
Proof. reflexivity. Qed.

(** The orchestrator, case by case: the value returned and the events
    that led to it. *)
Lemma with_fallback_cases (env : Env) (url artist collection : pystr)
  (w : World) (r : result (option pystr * pystr)) (w' : World) :
  run_spotdl_download_with_fallback env url artist collection w = (r, w') ->
  log w' = log w /\
  ((exists failed,
      (length failed <= 2) /\ Forall (fun rc => rc <> 0%Z) failed /\
      ((r = Ok (Some (target_folder_of env artist collection), PREFERRED_FORMAT) /\
        trace w' = trace w
          ++ backoff_events
               (download_cmd env url artist collection PREFERRED_FORMAT None) 1 failed
          ++ [EvRun (download_cmd env url artist collection PREFERRED_FORMAT None)
                (Some 0%Z)]) \/
       (r = Raise OSError /\
        trace w' = trace w
          ++ backoff_events
               (download_cmd env url artist collection PREFERRED_FORMAT None) 1 failed
          ++ [EvRun (download_cmd env url artist collection PREFERRED_FORMAT None)
                None]))) \/
   (exists failed1 failed2 last,
      length failed1 = 3 /\ Forall (fun rc => rc <> 0%Z) failed1 /\
      Forall (fun rc => rc <> 0%Z) failed2 /\
      trace w' = trace w
        ++ backoff_events
             (download_cmd env url artist collection PREFERRED_FORMAT None) 1 failed1
        ++ backoff_events
             (download_cmd env url artist collection FALLBACK_FORMAT (Some MP3_BITRATE))
             1 failed2
        ++ last /\
      ((r = Ok (Some (target_folder_of env artist collection), FALLBACK_FORMAT) /\
        length failed2 <= 2 /\
        last = [EvRun (download_cmd env url artist collection FALLBACK_FORMAT
                         (Some MP3_BITRATE)) (Some 0%Z)]) \/
       (r = Ok (None, FALLBACK_FORMAT) /\ length failed2 = 3 /\ last = []) \/
       (r = Raise OSError /\
        length failed2 <= 2 /\
        last = [EvRun (download_cmd env url artist collection FALLBACK_FORMAT
                         (Some MP3_BITRATE)) None]) \/
       (r = Raise OSError /\ failed2 = [] /\ last = []))) \/
   (r = Raise OSError /\ w' = w /\
    mkdir_blocked (fs w) (target_folder_of env artist collection) = true)).
Proof.
  unfold run_spotdl_download_with_fallback. rewrite bind_eq.
  destruct (run_spotdl_download env url artist collection PREFERRED_FORMAT None
              DEFAULT_RETRIES w) as [r1 w1] eqn:E1.
  apply run_spotdl_download_trace in E1
    as [failed1 [last1 [Hlog1 [Htr1 [Hnz1 Hc1]]]]]; [|unfold DEFAULT_RETRIES; lia].
  unfold DEFAULT_RETRIES in Hc1.
  destruct Hc1 as [[-> [-> Hlen1]]|[[-> [-> Hlen1]]|[[-> [-> Hlen1]]
                  |[-> [-> [-> [-> Hb]]]]]]].
  - rewrite bind_eq.
    destruct (run_spotdl_download env url artist collection FALLBACK_FORMAT
                (Some MP3_BITRATE) DEFAULT_RETRIES w1) as [r2 w2] eqn:E2.
    apply run_spotdl_download_trace in E2
      as [failed2 [last2 [Hlog2 [Htr2 [Hnz2 Hc2]]]]]; [|unfold DEFAULT_RETRIES; lia].
    unfold DEFAULT_RETRIES in Hc2.
    assert (Htr : trace w2 = trace w
        ++ backoff_events
             (download_cmd env url artist collection PREFERRED_FORMAT None) 1 failed1
        ++ backoff_events
             (download_cmd env url artist collection FALLBACK_FORMAT (Some MP3_BITRATE))
             1 failed2
        ++ last2).
    { rewrite Htr2, Htr1, app_nil_r, <- !app_assoc. reflexivity. }
    destruct Hc2 as [[-> [-> Hlen2]]|[[-> [-> Hlen2]]|[[-> [-> Hlen2]]
                    |[-> [-> [Hf2 _]]]]]];
      intros [= <- <-]; (split; [congruence|]); right; left;
      exists failed1, failed2.
    + exists []. repeat split; auto; try lia.
      right. left. repeat split; auto. lia.
    + eexists. repeat split; eauto; try lia.
      left. repeat split; auto. lia.
    + eexists. repeat split; eauto; try lia.
      right. right. left. repeat split; auto. lia.
    + exists []. repeat split; auto; try lia.
      right. right. right. repeat split; auto.
  - intros [= <- <-]. split; [exact Hlog1|]. left. exists failed1.
    repeat split; auto; try lia.
  - intros [= <- <-]. split; [exact Hlog1|]. left. exists failed1.
    repeat split; auto; try lia.
  - intros [= <- <-]. split; [reflexivity|]. right. right. auto.
Qed.




(** ** What the orchestrator returns *)

Lemma acquired_format_backoff (cmd : list pystr) (first : Z) (failed : list Z)
  (rest : list Event) :
  Forall (fun rc => rc <> 0%Z) failed ->
  acquired_format (backoff_events cmd first failed ++ rest) = acquired_format rest.
Proof.
  intros H. revert first. induction H as [|rc failed Hrc _ IH]; intros first.
  - reflexivity.
  - cbn [backoff_events app acquired_format].
    apply Z.eqb_neq in Hrc. rewrite Hrc, andb_false_r. apply IH.
Qed.



(** ** The playlist and liked-songs resolvers *)

Lemma get_playlist_metadata_eq (env : Env) (spotify_id token : pystr) (w : World) :
  get_playlist_metadata env spotify_id token w =
  let url := py "https://api.spotify.com/v1/playlists/" ++ spotify_id in
  let w1 := mkWorld (fs w) (log w) (trace w ++ [EvGet url]) in
  match get_playlist env w url token with
  | Some data =>
      (Ok (mkMetadata (pl_owner_display_name data) (pl_name data)
             (playlist_tracks (pl_name data) 1 (pl_items data))
             (first_image (pl_images data))), w1)
  | None => (Raise HTTPError, w1)
  end.
Proof.
  unfold get_playlist_metadata, bind, get_world, emit, of_option, ret, raise.
  cbv zeta. destruct (get_playlist env w _ token); reflexivity.
Qed.

Lemma playlist_tracks_nth_lower (collection : pystr) (idx : Z)
  (items : list PlaylistItem) (k : nat) (t : TrackInfo) :
  nth_error (playlist_tracks collection idx items) k = Some t ->
  (idx + Z.of_nat k <= number t)%Z.
Proof.
  revert idx k. induction items as [|item items IH]; intros idx k; simpl.
  - destruct k; discriminate.
  - destruct (pi_track item).
    + destruct k as [|k]; simpl.
      * intros [= <-]. simpl. lia.
      * intros H. apply IH in H. lia.
    + intros H. apply IH in H. lia.
Qed.

(** C2, amended: [get_playlist_metadata] skips the entries whose track is
    null and gives each included track the 1-based index of its entry in the
    playlist response, not its rank among the included tracks.  The positions
    therefore grow strictly, the k-th included track has a position of at
    least k, and the positions are exactly 1, ..., n when no entry of the
    response is null. *)
Theorem get_playlist_metadata_positions :
  forall (env : Env) (spotify_id token : pystr) (w : World) (data : PlaylistResp),
    get_playlist env w (py "https://api.spotify.com/v1/playlists/" ++ spotify_id) token
      = Some data ->
    exists md w',
      get_playlist_metadata env spotify_id token w = (Ok md, w') /\
      length (md_tracks md) = length (filter present (pl_items data)) /\
      map number (md_tracks md) = present_slots (pl_items data) /\
      (forall i j a b,
         nth_error (md_tracks md) i = Some a ->
         nth_error (md_tracks md) j = Some b ->
         i < j -> (number a < number b)%Z) /\
      (forall k t,
         nth_error (md_tracks md) k = Some t -> (Z.of_nat k + 1 <= number t)%Z) /\
      (forallb present (pl_items data) = true -> gap_free (md_tracks md)).
Proof.
  intros env spotify_id token w data Hdata.
  rewrite get_playlist_metadata_eq. cbv zeta. rewrite Hdata.
  eexists; eexists. split; [reflexivity|]. cbn [md_tracks].
  split; [apply playlist_tracks_titles|].
  split; [apply playlist_tracks_slots|].
  split; [apply playlist_tracks_increasing|].
  split.
  - intros k t H. apply playlist_tracks_nth_lower in H. lia.
  - intros H. unfold gap_free.
    destruct (playlist_tracks_all_present (pl_name data) 1 (pl_items data) H)
      as [Hn Hl].
    now rewrite Hn, Hl.
Qed.

(** C2 at work: a playlist whose first entry was removed. *)
Lemma get_playlist_metadata_positions_witness :
  get_playlist demo_env demo_world
    (py "https://api.spotify.com/v1/playlists/" ++ py "37i9dQ") (py "token")
  = Some {| pl_name := py "Mix";
            pl_owner_display_name := py "Owner";
            pl_items := [removed_item; kept_item];
            pl_images := [] |} /\
  exists md w',
    get_playlist_metadata demo_env (py "37i9dQ") (py "token") demo_world = (Ok md, w') /\
    map number (md_tracks md) = [2%Z].
Proof.
  split; [reflexivity|].
  destruct (get_playlist_metadata_positions demo_env (py "37i9dQ") (py "token")
              demo_world {| pl_name := py "Mix";
                            pl_owner_display_name := py "Owner";
                            pl_items := [removed_item; kept_item];
                            pl_images := [] |})
    as [md [w' [Hrun [_ [Hnum _]]]]]; [reflexivity|].
  exists md, w'. split; [exact Hrun|]. rewrite Hnum. reflexivity.
Defined.

Lemma liked_tracks_length (idx : Z) (items : list SavedItem) (tracks : list TrackInfo) :
  liked_tracks idx items = Ok tracks -> length tracks = length items.
Proof.
  revert idx tracks. induction items as [|item items IH]; intros idx tracks; simpl.
  - now intros [= <-].
  - destruct (si_track item); [|discriminate].
    destruct (liked_tracks (idx + 1) items) as [l|] eqn:E; [|discriminate].
    intros [= <-]. simpl. f_equal. eapply IH; eauto.
Qed.


Lemma get_liked_songs_metadata_eq (env : Env) (token : pystr) (w : World) :
  get_liked_songs_metadata env token w =
  let w1 := mkWorld (fs w) (log w) (trace w ++ [EvGet LIKED_URL]) in
  match get_saved env w LIKED_URL token with
  | Some data =>
      match liked_tracks 1 (sv_items data) with
      | Ok tracks =>
          (Ok (mkMetadata (py "Liked Songs") (py "Spotify Liked Songs") tracks None), w1)
      | Raise e => (Raise e, w1)
      end
  | None => (Raise HTTPError, w1)
  end.
Proof.
  unfold get_liked_songs_metadata, bind, get_world, emit, of_option, ret, raise.
  cbv zeta. destruct (get_saved env w LIKED_URL token) as [data|]; [|reflexivity].
  destruct (liked_tracks 1 (sv_items data)); reflexivity.
Qed.




(** ** Files *)

Lemma str_eqb_refl (s : pystr) : str_eqb s s = true.
Proof. induction s as [|c s IH]; simpl; [reflexivity|]. now rewrite Ascii.eqb_refl. Qed.

Lemma str_eqb_eq (a b : pystr) : str_eqb a b = true -> a = b.
Proof.
  revert b. induction a as [|x a IH]; intros [|y b]; simpl; try discriminate; auto.
  intros H. apply andb_true_iff in H as [Hxy Hab].
  apply Ascii.eqb_eq in Hxy. apply IH in Hab. congruence.
Qed.

Lemma path_eqb_refl (p : Path) : path_eqb p p = true.
Proof. unfold path_eqb. now rewrite !str_eqb_refl. Qed.

Lemma path_eqb_eq (p q : Path) : path_eqb p q = true -> p = q.
Proof.
  unfold path_eqb. intros H. apply andb_true_iff in H as [Hp Hn].
  apply str_eqb_eq in Hp, Hn. destruct p, q; simpl in *; congruence.
Qed.

Lemma is_file_unlink (f : FS) (p : Path) : is_file (fs_unlink f p) p = false.
Proof.
  unfold is_file, fs_unlink. cbn [files].
  induction (files f) as [|e l IH]; simpl; [reflexivity|].
  destruct (path_eqb (fst e) p) eqn:E; simpl; [exact IH|].
  now rewrite E.
Qed.

Lemma lookup_unlink_same (f : FS) (p : Path) : lookup_file (fs_unlink f p) p = None.
Proof.
  unfold lookup_file, fs_unlink. cbn [files].
  induction (files f) as [|e l IH]; simpl; [reflexivity|].
  destruct (path_eqb (fst e) p) eqn:E; simpl; [exact IH|].
  now rewrite E.
Qed.

Lemma lookup_unlink_other (f : FS) (p q : Path) :
  q <> p -> lookup_file (fs_unlink f p) q = lookup_file f q.
Proof.
  intros Hne. unfold lookup_file, fs_unlink. cbn [files].
  induction (files f) as [|e l IH]; simpl; [reflexivity|].
  destruct (path_eqb (fst e) p) eqn:Ep; simpl.
  - destruct (path_eqb (fst e) q) eqn:Eq; [|exact IH].
    apply path_eqb_eq in Ep, Eq. congruence.
  - destruct (path_eqb (fst e) q); [reflexivity|exact IH].
Qed.

Lemma insert_sorted_In (p x : Path) (l : list Path) :
  In x (insert_sorted p l) <-> x = p \/ In x l.
Proof.
  induction l as [|q l IH]; simpl; [intuition|].
  destruct (path_ltb q p); simpl; [rewrite IH|]; intuition.
Qed.

Lemma sorted_In (x : Path) (l : list Path) : In x (sorted l) <-> In x l.
Proof.
  unfold sorted. induction l as [|p l IH]; simpl; [tauto|].
  rewrite insert_sorted_In, IH. intuition.
Qed.

Lemma insert_sorted_length (p : Path) (l : list Path) :
  length (insert_sorted p l) = S (length l).
Proof.
  induction l as [|q l IH]; simpl; [reflexivity|].
  destruct (path_ltb q p); simpl; [now rewrite IH|reflexivity].
Qed.

Lemma sorted_length (l : list Path) : length (sorted l) = length l.
Proof.
  unfold sorted. induction l as [|p l IH]; simpl; [reflexivity|].
  now rewrite insert_sorted_length, IH.
Qed.

Lemma candidate_files_In (f : FS) (folder : pystr) (p : Path) :
  In p (candidate_files f folder) <->
  In p (map fst (files f)) /\ parent p = folder /\ is_audio p = true.
Proof.
  unfold candidate_files, iterdir_files.
  rewrite sorted_In, !filter_In. split.
  - intros [[Hin Hpar] Haud]. apply str_eqb_eq in Hpar. auto.
  - intros [Hin [<- Haud]]. now rewrite str_eqb_refl.
Qed.

(** ** embed_metadata *)

Lemma get_ffmpeg_aac_codec_eq (env : Env) (w : World) :
  get_ffmpeg_aac_codec env w =
  match spawn env w probe_cmd with
  | Some (cp, f) =>
      (Ok (if contains (py "aac_at") (stdout cp) then py "aac_at" else py "aac"),
       mkWorld f (log w) (trace w ++ [EvRun probe_cmd (Some (returncode cp))]))
  | None =>
      (Ok (py "aac"), mkWorld (fs w) (log w) (trace w ++ [EvRun probe_cmd None]))
  end.
Proof.
  unfold get_ffmpeg_aac_codec, try_except. rewrite bind_eq, subprocess_run_eq.
  destruct (spawn env w probe_cmd) as [[cp f]|]; [|reflexivity].
  destruct (contains (py "aac_at") (stdout cp)); reflexivity.
Qed.

(** The probe never raises and only adds its own run to the trace. *)
Lemma get_ffmpeg_aac_codec_ok (env : Env) (w : World) :
  exists codec w1 rc,
    get_ffmpeg_aac_codec env w = (Ok codec, w1) /\
    log w1 = log w /\
    trace w1 = trace w ++ [EvRun probe_cmd rc].
Proof.
  rewrite get_ffmpeg_aac_codec_eq.
  destruct (spawn env w probe_cmd) as [[cp f]|];
    eexists; eexists; eexists; repeat split.
Qed.

Lemma embed_metadata_eq (env : Env) (file_path : Path) (track_info : TrackInfo)
  (album_art : option Path) (pad_digits : nat) (w : World) (codec : pystr) (w1 : World) :
  get_ffmpeg_aac_codec env w = (Ok codec, w1) ->
  embed_metadata env file_path track_info album_art pad_digits w =
  let output_file := output_path file_path track_info pad_digits in
  let cmd :=
    ffmpeg_cmd file_path track_info (usable_art (fs w1) album_art) codec output_file in
  match spawn env w1 cmd with
  | Some (cp, after) =>
      if (returncode cp =? 0)%Z then
        (Ok (Some output_file),
         mkWorld (fs_unlink after file_path) (log w1)
           (trace w1 ++ [EvRun cmd (Some (returncode cp))]))
      else
        (Ok None,
         mkWorld after (log w1) (trace w1 ++ [EvRun cmd (Some (returncode cp))]))
  | None =>
      (Raise OSError, mkWorld (fs w1) (log w1) (trace w1 ++ [EvRun cmd None]))
  end.
Proof.
  intros Hcodec. unfold embed_metadata. rewrite bind_eq, Hcodec.
  rewrite bind_eq. unfold get_world at 1. cbv zeta.
  rewrite bind_eq, subprocess_run_eq.
  destruct (spawn env w1 _) as [[cp after]|]; [|reflexivity].
  destruct (returncode cp =? 0)%Z; reflexivity.
Qed.

Lemma is_transcode_ffmpeg_cmd (file_path : Path) (track_info : TrackInfo)
  (album_art : option Path) (codec : pystr) (output_file : Path) :
  is_transcode (ffmpeg_cmd file_path track_info album_art codec output_file) = true.
Proof. reflexivity. Qed.

Lemma embed_metadata_effects (env : Env) (file_path : Path) (track_info : TrackInfo)
  (album_art : option Path) (pad_digits : nat) (w : World)
  (r : result (option Path)) (w' : World) :
  embed_metadata env file_path track_info album_art pad_digits w = (r, w') ->
  exists rcp cmd rc,
    is_transcode cmd = true /\
    log w' = log w /\
    trace w' = trace w ++ [EvRun probe_cmd rcp; EvRun cmd rc] /\
    ((r = Ok (Some (output_path file_path track_info pad_digits)) /\ rc = Some 0%Z) \/
     (r = Ok None /\ exists c, rc = Some c /\ c <> 0%Z) \/
     (r = Raise OSError /\ rc = None)).
Proof.
  destruct (get_ffmpeg_aac_codec_ok env w) as [codec [w1 [rcp [Hc [Hlog Htr]]]]].
  rewrite (embed_metadata_eq env file_path track_info album_art pad_digits w codec
             w1 Hc).
  cbv zeta.
  destruct (spawn env w1 _) as [[cp after]|].
  - destruct (returncode cp =? 0)%Z eqn:E; intros [= <- <-];
      exists rcp; eexists; eexists;
      (split; [apply is_transcode_ffmpeg_cmd|]); cbn [log trace];
      (split; [exact Hlog|]); (split; [rewrite Htr, <- app_assoc; reflexivity|]).
    + apply Z.eqb_eq in E. rewrite E. left. auto.
    + apply Z.eqb_neq in E. right. left. eauto.
  - intros [= <- <-]. exists rcp; eexists; eexists.
    split; [apply is_transcode_ffmpeg_cmd|]. cbn [log trace].
    split; [exact Hlog|]. split; [rewrite Htr, <- app_assoc; reflexivity|].
    right. right. auto.
Qed.

Lemma transcode_successes_app (a b : list Event) :
  transcode_successes (a ++ b) = (transcode_successes a + transcode_successes b)%Z.
Proof. unfold transcode_successes. rewrite filter_app, length_app. lia. Qed.

Lemma transcode_events_app (a b : list Event) :
  length (filter transcode_event (a ++ b))
  = length (filter transcode_event a) + length (filter transcode_event b).
Proof. now rewrite filter_app, length_app. Qed.

Lemma transcode_ok_probe (rc : option Z) : transcode_ok (EvRun probe_cmd rc) = false.
Proof. destruct rc; reflexivity. Qed.

Lemma is_transcode_is_ffmpeg (cmd : list pystr) :
  is_transcode cmd = true -> is_ffmpeg cmd = true.
Proof.
  destruct cmd as [|a [|b cmd]]; try discriminate. cbn [is_transcode is_ffmpeg].
  intros H. now apply andb_true_iff in H as [H _].
Qed.

(** What [embed_metadata] runs: the probe, then one transcode of the file
    into the output path. *)
Lemma embed_metadata_cmd (env : Env) (file_path : Path) (track_info : TrackInfo)
  (album_art : option Path) (pad_digits : nat) (w : World)
  (r : result (option Path)) (w' : World) :
  embed_metadata env file_path track_info album_art pad_digits w = (r, w') ->
  exists rcp art codec rc,
    log w' = log w /\
    trace w' = trace w
      ++ [EvRun probe_cmd rcp;
          EvRun (ffmpeg_cmd file_path track_info art codec
                   (output_path file_path track_info pad_digits)) rc].
Proof.
  destruct (get_ffmpeg_aac_codec_ok env w) as [codec [w1 [rcp [Hc [Hlog Htr]]]]].
  rewrite (embed_metadata_eq env file_path track_info album_art pad_digits w codec
             w1 Hc).
  cbv zeta.
  destruct (spawn env w1 _) as [[cp after]|];
    [destruct (returncode cp =? 0)%Z|];
    intros [= <- <-]; exists rcp; eexists; eexists; eexists; cbn [trace log];
    (split; [exact Hlog|]); rewrite Htr, <- app_assoc; reflexivity.
Qed.

Lemma transcode_cmds_app (a b : list Event) :
  transcode_cmds (a ++ b) = transcode_cmds a ++ transcode_cmds b.
Proof. unfold transcode_cmds. now rewrite runs_app, map_app, filter_app. Qed.

Lemma transcode_cmds_no_runs (evs : list Event) : runs evs = [] -> transcode_cmds evs = [].
Proof. unfold transcode_cmds. now intros ->. Qed.

Lemma output_arg_ffmpeg_cmd (file_path : Path) (track_info : TrackInfo)
  (album_art : option Path) (codec : pystr) (output_file : Path) :
  output_arg (ffmpeg_cmd file_path track_info album_art codec output_file)
  = path_str output_file.
Proof. destruct album_art; reflexivity. Qed.

Lemma input_arg_ffmpeg_cmd (file_path : Path) (track_info : TrackInfo)
  (album_art : option Path) (codec : pystr) (output_file : Path) :
  input_arg (ffmpeg_cmd file_path track_info album_art codec output_file)
  = path_str file_path.
Proof. reflexivity. Qed.

Lemma ran_as_nil : ran_as [] [].
Proof. repeat split. constructor. Qed.

Lemma ran_as_cons (rcp rc : option Z) (f : Path) (t : TrackInfo) (art art' : option Path)
  (codec : pystr) (pad : nat) (evs : list Event) (jobs : list Job) :
  ran_as evs jobs ->
  ran_as ([EvRun probe_cmd rcp; EvRun (ffmpeg_cmd f t art' codec (output_path f t pad)) rc]
          ++ evs)
    ((f, t, art, pad) :: jobs).
Proof.
  intros [Hruns [Hin Hout]]. split; [|split].
  - rewrite runs_app. apply Forall_app. split; [|exact Hruns].
    cbn [runs]. repeat constructor.
  - rewrite transcode_cmds_app.
    change (transcode_cmds
              [EvRun probe_cmd rcp;
               EvRun (ffmpeg_cmd f t art' codec (output_path f t pad)) rc])
      with [ffmpeg_cmd f t art' codec (output_path f t pad)].
    cbn [app map]. now rewrite Hin, input_arg_ffmpeg_cmd.
  - rewrite transcode_cmds_app.
    change (transcode_cmds
              [EvRun probe_cmd rcp;
               EvRun (ffmpeg_cmd f t art' codec (output_path f t pad)) rc])
      with [ffmpeg_cmd f t art' codec (output_path f t pad)].
    cbn [app map]. now rewrite Hout, output_arg_ffmpeg_cmd.
Qed.

Lemma run_taken_effects (env : Env) (k : nat) (jobs : list Job) (w : World)
  (r : result unit) (w' : World) :
  run_taken env k jobs w = (r, w') ->
  exists evs,
    log w' = log w /\
    trace w' = trace w ++ evs /\
    ran_as evs (firstn k jobs).
Proof.
  revert jobs w. induction k as [|k IH]; intros jobs w.
  - cbn [run_taken firstn]. intros [= <- <-]. exists []. rewrite app_nil_r.
    split; [reflexivity|]. split; [reflexivity|apply ran_as_nil].
  - destruct jobs as [|[[[f t] art] pad] jobs].
    + cbn [run_taken firstn]. intros [= <- <-]. exists []. rewrite app_nil_r.
      split; [reflexivity|]. split; [reflexivity|apply ran_as_nil].
    + cbn [run_taken firstn].
      destruct (embed_metadata env f t art pad w) as [r1 w1] eqn:E1.
      apply embed_metadata_cmd in E1 as [rcp [art' [codec [rc [Hlog1 Htr1]]]]].
      cbn [snd]. intros Hrest. apply IH in Hrest as [evs [Hlog2 [Htr2 Hran]]].
      eexists. split; [congruence|].
      split; [rewrite Htr2, Htr1, <- app_assoc; reflexivity|].
      now apply ran_as_cons.
Qed.

Lemma run_jobs_cons (env : Env) (f : Path) (track : TrackInfo) (art : option Path)
  (pad : nat) (rest : list Job) (w : World) :
  run_jobs env ((f, track, art, pad) :: rest) w =
  match embed_metadata env f track art pad w with
  | (Ok output_file, w1) =>
      let (others, w2) := run_jobs env rest w1 in
      (match others with
       | Ok converted =>
           Ok (match output_file with
               | Some _ => converted + 1
               | None => converted
               end)%Z
       | Raise e => Raise e
       end, w2)
  | (Raise e, w1) => (Raise e, snd (run_taken env (taken env w1) rest w1))
  end.
Proof. reflexivity. Qed.

(** The pool and the counting loop: when it returns a count, every pair
    was transcoded and the count is the number of transcodes that exited
    with 0. *)
Lemma run_jobs_effects (env : Env) (jobs : list Job) (w : World)
  (r : result Z) (w' : World) :
  run_jobs env jobs w = (r, w') ->
  exists evs,
    log w' = log w /\
    trace w' = trace w ++ evs /\
    forall n,
      r = Ok n ->
      n = transcode_successes evs /\
      length (filter transcode_event evs) = length jobs /\
      (0 <= n <= Z.of_nat (length jobs))%Z.
Proof.
  revert w r w'. induction jobs as [|[[[f t] art] pad] jobs IH]; intros w r w'.
  - intros [= <- <-]. exists []. rewrite app_nil_r.
    split; [reflexivity|]. split; [reflexivity|].
    intros n [= <-]. cbn. lia.
  - rewrite run_jobs_cons.
    destruct (embed_metadata env f t art pad w) as [r1 w1] eqn:E1.
    apply embed_metadata_effects in E1
      as [rcp [cmd [rc [Hcmd [Hlog1 [Htr1 Hcases]]]]]].
    destruct r1 as [out|e].
    + destruct (run_jobs env jobs w1) as [r2 w2] eqn:E2.
      apply IH in E2 as [evs [Hlog2 [Htr2 Hn]]].
      intros [= <- <-].
      exists ([EvRun probe_cmd rcp; EvRun cmd rc] ++ evs).
      split; [congruence|].
      split; [rewrite Htr2, Htr1, <- app_assoc; reflexivity|].
      intros n Hres.
      destruct r2 as [n2|e2]; [|discriminate Hres].
      destruct (Hn n2 eq_refl) as [Hn2 [Hlen Hrange]].
      rewrite transcode_successes_app, transcode_events_app, <- Hn2, Hlen.
      unfold transcode_successes.
      cbn [filter transcode_event]. rewrite transcode_ok_probe.
      change (is_transcode probe_cmd) with false. cbn [transcode_ok].
      rewrite Hcmd. cbn [length].
      destruct Hcases as [[[= ->] ->]|[[[= ->] [c [-> Hc]]]|[[=] _]]].
      * injection Hres as <-. cbn [andb Z.eqb length]. lia.
      * injection Hres as <-. apply Z.eqb_neq in Hc. rewrite Hc.
        cbn [andb length]. lia.
    + destruct (run_taken env (taken env w1) jobs w1) as [r2 w2] eqn:E2.
      apply run_taken_effects in E2 as [evs [Hlog2 [Htr2 _]]].
      cbn [snd]. intros [= <- <-].
      exists ([EvRun probe_cmd rcp; EvRun cmd rc] ++ evs).
      split; [congruence|].
      split; [rewrite Htr2, Htr1, <- app_assoc; reflexivity|].
      intros n [=].
Qed.

(** C5: when the transcoding engine exits with code 0, [embed_metadata]
    deletes the input file and returns the output file; when it exits with
    another code, [embed_metadata] returns [None] without raising and leaves
    the file system as the engine left it, so an input file the engine did
    not touch is still there with its contents.  In the aggregate, when a
    count is returned, every pair was transcoded whatever the transcodes of
    the other pairs exited with, and the count is the number of transcodes
    that exited with 0. *)
Theorem embed_metadata_outcome :
  forall (env : Env) (file_path : Path) (track_info : TrackInfo)
         (album_art : option Path) (pad_digits : nat) (w : World)
         (r : result (option Path)) (w' : World),
    embed_metadata env file_path track_info album_art pad_digits w = (r, w') ->
    (exists codec w1 cmd,
       get_ffmpeg_aac_codec env w = (Ok codec, w1) /\
       cmd = ffmpeg_cmd file_path track_info (usable_art (fs w1) album_art) codec
               (output_path file_path track_info pad_digits) /\
       log w' = log w /\
       match spawn env w1 cmd with
       | Some (cp, after) =>
           trace w' = trace w1 ++ [EvRun cmd (Some (returncode cp))] /\
           ((returncode cp = 0%Z /\
             r = Ok (Some (output_path file_path track_info pad_digits)) /\
             fs w' = fs_unlink after file_path /\
             is_file (fs w') file_path = false /\
             lookup_file (fs w') file_path = None /\
             (forall p, p <> file_path ->
                        lookup_file (fs w') p = lookup_file after p)) \/
            (returncode cp <> 0%Z /\
             r = Ok None /\
             fs w' = after /\
             (lookup_file (fs w1) file_path = lookup_file (fs w) file_path ->
              lookup_file after file_path = lookup_file (fs w1) file_path ->
              lookup_file (fs w') file_path = lookup_file (fs w) file_path)))
       | None => r = Raise OSError /\ fs w' = fs w1
       end) /\
    (forall (jobs : list Job) (v : World) (n : Z) (v' : World),
       run_jobs env jobs v = (Ok n, v') ->
       exists evs,
         trace v' = trace v ++ evs /\
         length (filter transcode_event evs) = length jobs /\
         n = transcode_successes evs /\
         (0 <= n <= Z.of_nat (length jobs))%Z).
Proof.
  intros env file_path track_info album_art pad_digits w r w' Hrun. split.
  - destruct (get_ffmpeg_aac_codec_ok env w) as [codec [w1 [rcp [Hc [Hlog Htr]]]]].
    exists codec, w1. eexists. split; [exact Hc|]. split; [reflexivity|].
    rewrite (embed_metadata_eq env file_path track_info album_art pad_digits w codec
               w1 Hc) in Hrun.
    cbv zeta in Hrun.
    destruct (spawn env w1 _) as [[cp after]|].
    + destruct (returncode cp =? 0)%Z eqn:E; injection Hrun as <- <-;
        cbn [log trace fs]; (split; [exact Hlog|]); (split; [reflexivity|]).
      * apply Z.eqb_eq in E. left.
        repeat split; auto using is_file_unlink, lookup_unlink_same.
        intros p Hp. now apply lookup_unlink_other.
      * apply Z.eqb_neq in E. right. repeat split; auto. congruence.
    + injection Hrun as <- <-. cbn [log fs]. auto.
  - intros jobs v n v' Hjobs.
    apply run_jobs_effects in Hjobs as [evs [_ [Htr Hn]]].
    exists evs. destruct (Hn n eq_refl) as [H1 [H2 H3]]. auto.
Qed.

(** C5 at work: a transcode that exits with 0 deletes its input. *)
Lemma embed_metadata_outcome_witness :
  embed_metadata demo_env demo_file demo_track None 1 demo_world
    = (Ok (Some demo_output), demo_after_embed) /\
  is_file (fs demo_world) demo_file = true /\
  is_file (fs demo_after_embed) demo_file = false /\
  log demo_after_embed = log demo_world.
Proof.
  assert (Hrun : embed_metadata demo_env demo_file demo_track None 1 demo_world
                 = (Ok (Some demo_output), demo_after_embed))
    by (vm_compute; reflexivity).
  split; [exact Hrun|]. split; [reflexivity|]. split; [reflexivity|].
  destruct (embed_metadata_outcome demo_env demo_file demo_track None 1 demo_world
              (Ok (Some demo_output)) demo_after_embed Hrun)
    as [[codec [w1 [cmd [_ [_ [Hlog _]]]]]] _].
  exact Hlog.
Defined.

(** ** URL shapes *)

Lemma strip_prefix_app (p r : pystr) : strip_prefix p (p ++ r) = Some r.
Proof. induction p as [|c p IH]; simpl; [reflexivity|]. now rewrite Ascii.eqb_refl. Qed.

Lemma strip_prefix_some (p s r : pystr) : strip_prefix p s = Some r -> s = p ++ r.
Proof.
  revert s. induction p as [|c p IH]; intros s; simpl.
  - now intros [= ->].
  - destruct s as [|d s]; [discriminate|].
    destruct (Ascii.eqb c d) eqn:E; [|discriminate].
    apply Ascii.eqb_eq in E. intros H. apply IH in H. now subst.
Qed.

Lemma match_id_some (kind rest : pystr) (r : pystr * pystr) :
  match_id kind rest = Some r ->
  exists c post, rest = py "/" ++ c :: post /\ is_alnum c = true.
Proof.
  unfold match_id.
  destruct (strip_prefix (py "/") rest) as [rest'|] eqn:E; [|discriminate].
  apply strip_prefix_some in E. subst rest.
  destruct rest' as [|c post]; [discriminate|]. simpl.
  destruct (is_alnum c) eqn:Hc; [|discriminate].
  intros _. now exists c, post.
Qed.

Lemma match_id_app (kind : pystr) (c : ascii) (post : pystr) :
  is_alnum c = true -> exists r, match_id kind (py "/" ++ c :: post) = Some r.
Proof.
  intros Hc. unfold match_id. rewrite strip_prefix_app. simpl. rewrite Hc. eauto.
Qed.

Lemma match_kinds_some (kinds : list pystr) (rest : pystr) (r : pystr * pystr) :
  match_kinds kinds rest = Some r ->
  exists kind c post,
    In kind kinds /\ rest = kind ++ py "/" ++ c :: post /\ is_alnum c = true.
Proof.
  induction kinds as [|k kinds IH]; simpl; [discriminate|].
  destruct (strip_prefix k rest) as [rest'|] eqn:E.
  - destruct (match_id k rest') as [r'|] eqn:Hid.
    + intros _. apply strip_prefix_some in E.
      apply match_id_some in Hid as [c [post [-> Hc]]].
      exists k, c, post. auto.
    + intros H. destruct (IH H) as [kind [c [post [Hin Hrest]]]].
      exists kind, c, post. auto.
  - intros H. destruct (IH H) as [kind [c [post [Hin Hrest]]]].
    exists kind, c, post. auto.
Qed.

Lemma match_kinds_app (kinds : list pystr) (kind : pystr) (c : ascii) (post : pystr) :
  In kind kinds -> is_alnum c = true ->
  exists r, match_kinds kinds (kind ++ py "/" ++ c :: post) = Some r.
Proof.
  intros Hin Hc. induction kinds as [|k kinds IH]; [destruct Hin|].
  cbn [match_kinds].
  destruct (strip_prefix k (kind ++ py "/" ++ c :: post)) as [rest'|] eqn:E.
  - destruct (match_id k rest') as [r'|] eqn:Hid; [eauto|].
    destruct Hin as [->|Hin]; [|auto].
    rewrite strip_prefix_app in E. injection E as <-.
    destruct (match_id_app kind c post Hc) as [r Hr].
    exfalso. revert Hid.
    change (match_id kind (py "/" ++ c :: post) = None -> False). congruence.
  - destruct Hin as [->|Hin]; [|auto].
    rewrite strip_prefix_app in E. discriminate.
Qed.

Lemma match_host_some (rest : pystr) (r : pystr * pystr) :
  match_host rest = Some r ->
  exists kind c post,
    In kind [py "album"; py "playlist"; py "track"] /\
    rest = py "://open.spotify.com/" ++ kind ++ py "/" ++ c :: post /\
    is_alnum c = true.
Proof.
  unfold match_host.
  destruct (strip_prefix (py "://open.spotify.com/") rest) as [rest'|] eqn:E;
    [|discriminate].
  apply strip_prefix_some in E. intros H.
  apply match_kinds_some in H as [kind [c [post [Hin [-> Hc]]]]].
  exists kind, c, post. auto.
Qed.

Lemma match_host_app (kind : pystr) (c : ascii) (post : pystr) :
  In kind [py "album"; py "playlist"; py "track"] -> is_alnum c = true ->
  exists r,
    match_host (py "://open.spotify.com/" ++ kind ++ py "/" ++ c :: post) = Some r.
Proof.
  intros Hin Hc. unfold match_host. rewrite strip_prefix_app.
  now apply match_kinds_app.
Qed.

Lemma match_here_some (s : pystr) (r : pystr * pystr) :
  match_here s = Some r ->
  exists scheme kind c post,
    In scheme [py "http"; py "https"] /\
    In kind [py "album"; py "playlist"; py "track"] /\
    s = scheme ++ py "://open.spotify.com/" ++ kind ++ py "/" ++ c :: post /\
    is_alnum c = true.
Proof.
  unfold match_here.
  destruct (strip_prefix (py "http") s) as [rest|] eqn:E; [|discriminate].
  apply strip_prefix_some in E. subst s.
  destruct (strip_prefix (py "s") rest) as [rest'|] eqn:Es.
  - destruct (match_host rest') as [r'|] eqn:Hh.
    + intros _. apply strip_prefix_some in Es. subst rest.
      apply match_host_some in Hh as [kind [c [post [Hin [-> Hc]]]]].
      exists (py "https"), kind, c, post. simpl. auto.
    + intros H. apply match_host_some in H as [kind [c [post [Hin [-> Hc]]]]].
      exists (py "http"), kind, c, post. simpl. auto.
  - intros H. apply match_host_some in H as [kind [c [post [Hin [-> Hc]]]]].
    exists (py "http"), kind, c, post. simpl. auto.
Qed.

Lemma match_here_app (scheme kind : pystr) (c : ascii) (post : pystr) :
  In scheme [py "http"; py "https"] ->
  In kind [py "album"; py "playlist"; py "track"] ->
  is_alnum c = true ->
  exists r,
    match_here (scheme ++ py "://open.spotify.com/" ++ kind ++ py "/" ++ c :: post)
    = Some r.
Proof.
  intros Hs Hk Hc.
  destruct (match_host_app kind c post Hk Hc) as [r Hr].
  unfold match_here.
  destruct Hs as [<-|[<-|[]]].
  - rewrite strip_prefix_app.
    change (strip_prefix (py "s")
              (py "://open.spotify.com/" ++ kind ++ py "/" ++ c :: post)) with
      (@None pystr).
    eauto.
  - change (py "https") with (py "http" ++ py "s").
    rewrite <- !app_assoc, strip_prefix_app, strip_prefix_app, Hr. eauto.
Qed.

Lemma re_search_eq (s : pystr) :
  re_search s =
  match match_here s with
  | Some r => Some r
  | None => match s with [] => None | _ :: t => re_search t end
  end.
Proof. destruct s; reflexivity. Qed.

Lemma re_search_some (s : pystr) (r : pystr * pystr) :
  re_search s = Some r -> catalog_link s.
Proof.
  induction s as [|a s IH].
  - intros H. vm_compute in H. discriminate.
  - cbn [re_search]. destruct (match_here (a :: s)) eqn:E.
    + intros _. apply match_here_some in E as [scheme [kind [c [post H]]]].
      exists [], scheme, kind, c, post. simpl. tauto.
    + intros H. destruct (IH H) as [pre [scheme [kind [c [post [-> Hrest]]]]]].
      exists (a :: pre), scheme, kind, c, post. auto.
Qed.

Lemma re_search_app (pre rest : pystr) :
  (exists r, match_here rest = Some r) -> exists r, re_search (pre ++ rest) = Some r.
Proof.
  intros [r Hr]. induction pre as [|a pre IH].
  - cbn [app]. rewrite re_search_eq, Hr. eauto.
  - cbn [app]. rewrite re_search_eq.
    destruct (match_here (a :: pre ++ rest)); eauto.
Qed.

(** The extractor recognizes exactly the URLs of the four shapes. *)
Lemma extract_recognized (url : pystr) :
  extract_spotify_id_and_type url = None <-> ~ recognized url.
Proof.
  unfold extract_spotify_id_and_type, recognized, liked_link. split.
  - destruct (contains (py "liked-songs") url) eqn:E; [discriminate|].
    intros Hre [Hliked|Hcat].
    + apply contains_split in Hliked. congruence.
    + destruct Hcat as [pre [scheme [kind [c [post [-> [Hs [Hk Hc]]]]]]]].
      destruct (re_search_app pre _ (match_here_app scheme kind c post Hs Hk Hc))
        as [r Hr].
      congruence.
  - intros Hnot. destruct (contains (py "liked-songs") url) eqn:E.
    + exfalso. apply Hnot. left. now apply contains_split.
    + destruct (re_search url) as [r|] eqn:Hr; [|reflexivity].
      exfalso. apply Hnot. right. eapply re_search_some; eauto.
Qed.

Lemma get_metadata_unrecognized (env : Env) (url : pystr) (w : World) :
  extract_spotify_id_and_type url = None ->
  get_metadata_from_url env url w = (Ok None, w).
Proof. intros H. unfold get_metadata_from_url. now rewrite H. Qed.

(** C8: a URL that has none of the four shapes resolves to the empty
    result without any request, and the run then ends with the world as it
    was: no [spotdl] run or any other event is added to the trace and nothing
    is appended to the log. *)
Theorem unrecognized_url_aborts :
  forall (env : Env) (url : pystr) (w : World),
    ~ recognized url ->
    extract_spotify_id_and_type url = None /\
    get_metadata_from_url env url w = (Ok None, w) /\
    download_spotify_url env url w = (Ok tt, w) /\
    trace (snd (download_spotify_url env url w)) = trace w /\
    log (snd (download_spotify_url env url w)) = log w.
Proof.
  intros env url w Hnot. apply extract_recognized in Hnot.
  assert (Hrun : download_spotify_url env url w = (Ok tt, w)).
  { unfold download_spotify_url.
    now rewrite bind_eq, (get_metadata_unrecognized env url w Hnot). }
  split; [exact Hnot|]. split; [now apply get_metadata_unrecognized|].
  split; [exact Hrun|]. now rewrite Hrun.
Qed.

(** C8 at work: a URL of another site. *)
Lemma unrecognized_url_aborts_witness :
  ~ recognized unknown_url /\
  download_spotify_url demo_env unknown_url demo_world = (Ok tt, demo_world).
Proof.
  assert (Hnot : ~ recognized unknown_url).
  { apply extract_recognized. vm_compute. reflexivity. }
  split; [exact Hnot|].
  destruct (unrecognized_url_aborts demo_env unknown_url demo_world Hnot)
    as [_ [_ [Hrun _]]].
  exact Hrun.
Defined.

(** ** Quiet actions *)

Lemma quiet_ret {A : Type} (a : A) : quiet (ret a).
Proof.
  intros w r w' [= <- <-]. exists []. now rewrite app_nil_r.
Qed.

Lemma quiet_raise {A : Type} (e : exn) : quiet (@raise A e).
Proof.
  intros w r w' [= <- <-]. exists []. now rewrite app_nil_r.
Qed.

Lemma quiet_get_world : quiet get_world.
Proof.
  intros w r w' [= <- <-]. exists []. now rewrite app_nil_r.
Qed.

Lemma quiet_set_fs (f : FS) : quiet (set_fs f).
Proof.
  intros w r w' [= <- <-]. exists []. simpl. now rewrite app_nil_r.
Qed.

Lemma quiet_of_option {A : Type} (o : option A) (e : exn) : quiet (of_option o e).
Proof. destruct o; [apply quiet_ret|apply quiet_raise]. Qed.

Lemma quiet_emit_get (url : pystr) : quiet (emit (EvGet url)).
Proof. intros w r w' [= <- <-]. exists [EvGet url]. auto. Qed.

Lemma quiet_emit_token (b : bool) : quiet (emit (EvToken b)).
Proof. intros w r w' [= <- <-]. exists [EvToken b]. auto. Qed.

Lemma quiet_bind {A B : Type} (m : M A) (k : A -> M B) :
  quiet m -> (forall a, quiet (k a)) -> quiet (bind m k).
Proof.
  intros Hm Hk w r w'. rewrite bind_eq.
  destruct (m w) as [[a|e] w1] eqn:E.
  - intros Hka. destruct (Hm _ _ _ E) as [e1 [Hl1 [Ht1 Hr1]]].
    destruct (Hk a _ _ _ Hka) as [e2 [Hl2 [Ht2 Hr2]]].
    exists (e1 ++ e2). split; [congruence|]. split.
    + now rewrite Ht2, Ht1, app_assoc.
    + now rewrite runs_app, Hr1, Hr2.
  - intros [= <- <-]. exact (Hm _ _ _ E).
Qed.

Create HintDb quiet.

#[local] Hint Resolve quiet_ret quiet_raise quiet_get_world quiet_set_fs
  quiet_of_option quiet_emit_get quiet_emit_token : quiet.

Ltac quiet_steps :=
  repeat first
    [ apply quiet_bind; [|intros ?]
    | progress auto with quiet
    | match goal with
      | |- quiet (match ?x with _ => _ end) => destruct x
      | |- quiet (if ?b then _ else _) => destruct b
      | |- quiet (let x := _ in _) => cbv zeta
      end ].

Lemma quiet_get_spotify_token (env : Env) (client_only : bool) :
  quiet (get_spotify_token env client_only).
Proof. unfold get_spotify_token. quiet_steps. Qed.

Lemma quiet_get_album_metadata (env : Env) (spotify_id token : pystr) :
  quiet (get_album_metadata env spotify_id token).
Proof. unfold get_album_metadata. quiet_steps. Qed.

Lemma quiet_get_track_metadata (env : Env) (spotify_id token : pystr) :
  quiet (get_track_metadata env spotify_id token).
Proof. unfold get_track_metadata. quiet_steps. Qed.

Lemma quiet_get_playlist_metadata (env : Env) (spotify_id token : pystr) :
  quiet (get_playlist_metadata env spotify_id token).
Proof. unfold get_playlist_metadata. quiet_steps. Qed.

Lemma quiet_get_liked_songs_metadata (env : Env) (token : pystr) :
  quiet (get_liked_songs_metadata env token).
Proof. unfold get_liked_songs_metadata. quiet_steps. Qed.

#[local] Hint Resolve quiet_get_spotify_token quiet_get_album_metadata
  quiet_get_track_metadata quiet_get_playlist_metadata
  quiet_get_liked_songs_metadata : quiet.

Lemma quiet_get_metadata_from_url (env : Env) (url : pystr) :
  quiet (get_metadata_from_url env url).
Proof. unfold get_metadata_from_url. quiet_steps. Qed.

Lemma quiet_download_album_art (env : Env) (url : pystr) :
  quiet (download_album_art env url).
Proof. unfold download_album_art, write_file. quiet_steps. Qed.

(** Events that are not runs count for nothing. *)
Lemma transcode_successes_no_runs (evs : list Event) :
  runs evs = [] -> transcode_successes evs = 0%Z.
Proof.
  unfold transcode_successes. induction evs as [|e evs IH]; [reflexivity|].
  destruct e; simpl; try discriminate; auto.
Qed.

Lemma acquired_format_no_runs (evs rest : list Event) :
  runs evs = [] -> acquired_format (evs ++ rest) = acquired_format rest.
Proof.
  induction evs as [|e evs IH]; [reflexivity|].
  destruct e; simpl; try discriminate; auto.
Qed.

Lemma transcode_successes_backoff (env : Env) (url artist collection fmt : pystr)
  (bitrate : option pystr) (first : Z) (codes : list Z) :
  transcode_successes
    (backoff_events (download_cmd env url artist collection fmt bitrate) first codes)
  = 0%Z.
Proof.
  unfold transcode_successes. revert first.
  induction codes as [|rc codes IH]; intros first; [reflexivity|].
  cbn [backoff_events filter transcode_ok].
  change (is_transcode (download_cmd env url artist collection fmt bitrate))
    with false.
  cbn [andb]. apply IH.
Qed.

(** ** Padding width and file names *)

Lemma embed_metadata_output (env : Env) (file_path : Path) (track_info : TrackInfo)
  (album_art : option Path) (pad_digits : nat) (w : World) (out : Path) (w' : World) :
  embed_metadata env file_path track_info album_art pad_digits w = (Ok (Some out), w') ->
  out = output_path file_path track_info pad_digits.
Proof.
  intros H. apply embed_metadata_effects in H
    as [rcp [cmd [rc [_ [_ [_ [[[= ->] _]|[[[=] _]|[[=] _]]]]]]]]].
  reflexivity.
Qed.

(** The pool transcodes the pairs in order, each file into the output path
    of its pair; every pair when it returns a count, and the first ones when
    it raises. *)
Lemma run_jobs_transcodes (env : Env) (jobs : list Job) (w : World)
  (r : result Z) (w' : World) :
  run_jobs env jobs w = (r, w') ->
  exists evs ran cancelled,
    trace w' = trace w ++ evs /\
    jobs = ran ++ cancelled /\
    (forall n, r = Ok n -> cancelled = []) /\
    ran_as evs ran.
Proof.
  revert w r w'. induction jobs as [|[[[f t] art] pad] jobs IH]; intros w r w'.
  - intros [= <- <-]. exists [], [], []. rewrite app_nil_r.
    split; [reflexivity|]. split; [reflexivity|]. split; [auto|apply ran_as_nil].
  - rewrite run_jobs_cons.
    destruct (embed_metadata env f t art pad w) as [r1 w1] eqn:E1.
    apply embed_metadata_cmd in E1 as [rcp [art' [codec [rc [_ Htr1]]]]].
    destruct r1 as [out|e].
    + destruct (run_jobs env jobs w1) as [r2 w2] eqn:E2.
      apply IH in E2 as [evs [ran [cancelled [Htr2 [Hjobs [Hok Hran]]]]]].
      intros [= <- <-].
      eexists; exists ((f, t, art, pad) :: ran), cancelled.
      split; [rewrite Htr2, Htr1, <- app_assoc; reflexivity|].
      split; [cbn [app]; now rewrite Hjobs|].
      split; [|now apply ran_as_cons].
      intros n Hn. destruct r2 as [n2|e2]; [|discriminate Hn]. now apply (Hok n2).
    + destruct (run_taken env (taken env w1) jobs w1) as [r2 w2] eqn:E2.
      apply run_taken_effects in E2 as [evs [_ [Htr2 Hran]]].
      cbn [snd]. intros [= <- <-].
      eexists; exists ((f, t, art, pad) :: firstn (taken env w1) jobs),
                      (skipn (taken env w1) jobs).
      split; [rewrite Htr2, Htr1, <- app_assoc; reflexivity|].
      split; [cbn [app]; now rewrite firstn_skipn|].
      split; [intros n [=]|now apply ran_as_cons].
Qed.

(** What [convert_to_aac_parallel] transcodes, and into which files. *)
Lemma convert_transcodes (env : Env) (folder : pystr) (track_list : list TrackInfo)
  (album_art_url : option pystr) (w : World) (r : result Z) (w' : World) :
  convert_to_aac_parallel env folder track_list album_art_url w = (r, w') ->
  (is_dir (fs w) folder = false /\ r = Raise OSError /\ w' = w) \/
  (is_dir (fs w) folder = true /\
   exists evs,
     trace w' = trace w ++ evs /\
     ((exists e, r = Raise e /\ runs evs = []) \/
      (exists art ran cancelled,
         match_tracks (candidate_files (fs w) folder) track_list art
           (pad_width track_list) = ran ++ cancelled /\
         (forall n, r = Ok n -> cancelled = []) /\
         map input_arg (transcode_cmds evs) = map (fun j => path_str (job_file j)) ran /\
         map output_arg (transcode_cmds evs)
         = map (fun j =>
                  folder ++ py "/"
                  ++ zfill (str_int (number (job_track j))) (pad_width track_list)
                  ++ py " - " ++ sanitize_filename (title (job_track j))
                  ++ py ".m4a") ran))).
Proof.
  unfold convert_to_aac_parallel. rewrite bind_eq, iterdir_eq.
  destruct (is_dir (fs w) folder);
    [|intros [= <- <-]; left; repeat split].
  intros Hrun. right. split; [reflexivity|]. revert Hrun. cbv zeta. rewrite bind_eq.
  assert (Hart : quiet match album_art_url with
                       | Some u => download_album_art env u
                       | None => ret None
                       end).
  { destruct album_art_url; [apply quiet_download_album_art|apply quiet_ret]. }
  destruct (match album_art_url with
            | Some u => download_album_art env u
            | None => ret None
            end w) as [[art|e] w1] eqn:E;
    destruct (Hart _ _ _ E) as [e1 [_ [Ht1 Hr1]]].
  - intros Hjobs.
    apply run_jobs_transcodes in Hjobs
      as [e2 [ran [cancelled [Ht2 [Hsplit [Hok [_ [Hin Hout]]]]]]]].
    exists (e1 ++ e2). split; [now rewrite Ht2, Ht1, app_assoc|].
    right. exists art, ran, cancelled.
    fold (candidate_files (fs w) folder) in Hsplit.
    rewrite transcode_cmds_app, (transcode_cmds_no_runs e1 Hr1). cbn [app].
    split; [exact Hsplit|]. split; [exact Hok|]. split; [exact Hin|].
    rewrite Hout. apply map_ext_in.
    intros j Hj.
    assert (Hj' : In j (match_tracks (candidate_files (fs w) folder) track_list art
                          (pad_width track_list))).
    { rewrite Hsplit. apply in_or_app. now left. }
    apply match_tracks_In in Hj' as [t [f [_ [Hf ->]]]].
    apply find_some in Hf as [Hf _]. apply candidate_files_In in Hf as [_ [Hpar _]].
    cbn [job_file job_track fst snd]. unfold output_path, in_dir, path_str, output_name.
    cbn [parent name]. rewrite Hpar. reflexivity.
  - intros [= <- <-]. exists e1. split; [exact Ht1|]. left. eauto.
Qed.

(** C7: for a non-empty track list the padding width is the number of
    decimal digits of the list length (width 1 for 9 tracks, 2 for 10).
    [convert_to_aac_parallel] raises at once when the folder is no directory,
    and raises before any transcode when the artwork download raises;
    otherwise it transcodes the matched files in the order of their tracks,
    all of them when it returns a count and the first ones when a transcode
    raises, and the file each transcode is told to write is, in the folder,
    the track position padded with zeros to that width, [" - "], the
    sanitized title and the [.m4a] extension.  Padding puts zeros before the
    digits until the width is reached and leaves a longer number as it is. *)
Theorem pad_width_is_digit_count :
  forall (track_list : list TrackInfo),
    track_list <> [] ->
    1 <= pad_width track_list /\
    10 ^ (pad_width track_list - 1) <= length track_list < 10 ^ pad_width track_list /\
    (length track_list = 9 -> pad_width track_list = 1) /\
    (length track_list = 10 -> pad_width track_list = 2) /\
    (forall (env : Env) (folder : pystr) (album_art_url : option pystr) (w : World)
            (r : result Z) (w' : World),
       convert_to_aac_parallel env folder track_list album_art_url w = (r, w') ->
       (is_dir (fs w) folder = false /\ r = Raise OSError /\ w' = w) \/
       (is_dir (fs w) folder = true /\
        exists evs,
          trace w' = trace w ++ evs /\
          ((exists e, r = Raise e /\ runs evs = []) \/
           (exists art ran cancelled,
              match_tracks (candidate_files (fs w) folder) track_list art
                (pad_width track_list) = ran ++ cancelled /\
              (forall n, r = Ok n -> cancelled = []) /\
              map input_arg (transcode_cmds evs)
              = map (fun j => path_str (job_file j)) ran /\
              map output_arg (transcode_cmds evs)
              = map (fun j =>
                       folder ++ py "/"
                       ++ zfill (str_int (number (job_track j))) (pad_width track_list)
                       ++ py " - " ++ sanitize_filename (title (job_track j))
                       ++ py ".m4a") ran)))) /\
    (forall n : Z,
       length (zfill (str_int n) (pad_width track_list))
       = Nat.max (pad_width track_list) (length (str_int n)) /\
       ((0 <= n)%Z ->
        zfill (str_int n) (pad_width track_list)
        = repeat (ch "0") (pad_width track_list - length (str_nat (Z.to_nat n)))
          ++ str_nat (Z.to_nat n))).
Proof.
  intros track_list Hne. unfold pad_width at 1 2 3.
  destruct (str_nat_length (length track_list)) as [d [Hlen [Hd [Hub Hlb]]]].
  rewrite Hlen.
  assert (Hpos : 0 < length track_list).
  { destruct track_list; [congruence|simpl; lia]. }
  split; [exact Hd|]. split; [split; [auto|exact Hub]|].
  split; [intros H9; unfold pad_width; rewrite H9; reflexivity|].
  split; [intros H10; unfold pad_width; rewrite H10; reflexivity|].
  split.
  - intros env folder album_art_url w r w'. apply convert_transcodes.
  - intros n. split; [apply zfill_length|].
    intros Hnum. unfold str_int.
    destruct (n <? 0)%Z eqn:E; [apply Z.ltb_lt in E; lia|].
    apply zfill_digits, str_nat_digits.
Qed.

(** C7 at work: a collection of one track, so width 1: the one file of the
    folder is transcoded into [2 - Intro.m4a], the track being the second
    entry of its playlist. *)
Lemma pad_width_is_digit_count_witness :
  [demo_track] <> [] /\
  pad_width [demo_track] = 1 /\
  is_dir (fs demo_world) demo_folder = true /\
  exists evs,
    trace (snd (convert_to_aac_parallel demo_env demo_folder [demo_track] None
                  demo_world)) = trace demo_world ++ evs /\
    map input_arg (transcode_cmds evs)
    = [py "/home/u/SpotifyDownloads/Owner - Mix/Owner - Intro.mp3"] /\
    map output_arg (transcode_cmds evs)
    = [py "/home/u/SpotifyDownloads/Owner - Mix/2 - Intro.m4a"].
Proof.
  assert (Hne : [demo_track] <> []) by discriminate.
  split; [exact Hne|]. split; [reflexivity|]. split; [reflexivity|].
  destruct (convert_to_aac_parallel demo_env demo_folder [demo_track] None demo_world)
    as [r w'] eqn:Hrun.
  destruct (pad_width_is_digit_count [demo_track] Hne)
    as [_ [_ [_ [_ [Hconv _]]]]].
  destruct (Hconv demo_env demo_folder None demo_world r w' Hrun)
    as [[Hdir _]|[_ [evs [Htr Hcases]]]]; [discriminate Hdir|].
  exists evs. split; [exact Htr|].
  assert (Hr : r = Ok 1%Z) by (revert Hrun; vm_compute; now intros [= <- _]).
  destruct Hcases as [[e [He _]]|[art [ran [cancelled [Hsplit [Hok [Hin Hout]]]]]]];
    [congruence|].
  rewrite (Hok _ Hr), app_nil_r in Hsplit. subst ran.
  split; [rewrite Hin|rewrite Hout]; vm_compute; reflexivity.
Defined.

(** ** The whole run *)

Lemma transcode_ok_download (env : Env) (url artist collection fmt : pystr)
  (bitrate : option pystr) (rc : option Z) :
  transcode_ok (EvRun (download_cmd env url artist collection fmt bitrate) rc) = false.
Proof. destruct rc; reflexivity. Qed.

Lemma transcode_successes_attempts (env : Env) (url artist collection fmt : pystr)
  (bitrate : option pystr) (first : Z) (codes : list Z) (rc : option Z) :
  transcode_successes
    (backoff_events (download_cmd env url artist collection fmt bitrate) first codes
     ++ [EvRun (download_cmd env url artist collection fmt bitrate) rc])
  = 0%Z.
Proof.
  rewrite transcode_successes_app, transcode_successes_backoff.
  unfold transcode_successes. cbn [filter]. now rewrite transcode_ok_download.
Qed.

(** The orchestrator leaves the log alone and transcodes nothing; the
    format it returns with a directory is the format of the first [spotdl]
    run that exited with 0. *)
Lemma with_fallback_effects (env : Env) (url artist collection : pystr)
  (w : World) (r : result (option pystr * pystr)) (w' : World) :
  run_spotdl_download_with_fallback env url artist collection w = (r, w') ->
  exists evs,
    log w' = log w /\
    trace w' = trace w ++ evs /\
    transcode_successes evs = 0%Z /\
    forall folder fmt rest,
      r = Ok (Some folder, fmt) -> acquired_format (evs ++ rest) = Some fmt.
Proof.
  intros Hrun. apply with_fallback_cases in Hrun as [Hlog [Hp|[Hf|Hb]]].
  - destruct Hp as [failed [Hlen [Hnz [[-> Htr]|[-> Htr]]]]];
      eexists; (split; [exact Hlog|]); (split; [exact Htr|]);
      (split; [apply transcode_successes_attempts|]);
      intros folder fmt rest [= <- <-].
    rewrite <- app_assoc. now rewrite acquired_format_backoff.
  - destruct Hf as [failed1 [failed2 [last [Hlen1 [Hnz1 [Hnz2 [Htr Hc]]]]]]].
    eexists; (split; [exact Hlog|]); (split; [exact Htr|]). split.
    + rewrite transcode_successes_app, transcode_successes_backoff.
      destruct Hc as [[_ [_ ->]]|[[_ [_ ->]]|[[_ [_ ->]]|[_ [_ ->]]]]].
      * apply transcode_successes_attempts.
      * rewrite app_nil_r. apply transcode_successes_backoff.
      * apply transcode_successes_attempts.
      * rewrite app_nil_r. apply transcode_successes_backoff.
    + intros folder fmt rest Hr.
      destruct Hc as [[-> [_ ->]]|[[-> [_ ->]]|[[-> [_ ->]]|[-> _]]]];
        try discriminate.
      injection Hr as <- <-.
      rewrite <- !app_assoc. now rewrite !acquired_format_backoff.
  - destruct Hb as [-> [-> _]]. exists []. rewrite app_nil_r.
    split; [reflexivity|]. split; [reflexivity|]. split; [reflexivity|].
    intros folder fmt rest [=].
Qed.

Lemma convert_effects (env : Env) (folder : pystr) (track_list : list TrackInfo)
  (album_art_url : option pystr) (w : World) (r : result Z) (w' : World) :
  convert_to_aac_parallel env folder track_list album_art_url w = (r, w') ->
  exists evs,
    log w' = log w /\
    trace w' = trace w ++ evs /\
    forall n, r = Ok n -> n = transcode_successes evs.
Proof.
  unfold convert_to_aac_parallel. rewrite bind_eq, iterdir_eq.
  destruct (is_dir (fs w) folder);
    [|intros [= <- <-]; exists []; rewrite app_nil_r;
      split; [reflexivity|]; split; [reflexivity|]; intros n [=]].
  cbv zeta. rewrite bind_eq.
  assert (Hart : quiet match album_art_url with
                       | Some u => download_album_art env u
                       | None => ret None
                       end).
  { destruct album_art_url; [apply quiet_download_album_art|apply quiet_ret]. }
  destruct (match album_art_url with
            | Some u => download_album_art env u
            | None => ret None
            end w) as [[art|e] w1] eqn:E;
    destruct (Hart _ _ _ E) as [e1 [Hl1 [Ht1 Hr1]]].
  - intros Hjobs. apply run_jobs_effects in Hjobs as [e2 [Hl2 [Ht2 Hn]]].
    exists (e1 ++ e2). split; [congruence|]. split.
    + now rewrite Ht2, Ht1, app_assoc.
    + intros n Hr. destruct (Hn n Hr) as [Hcount _].
      now rewrite transcode_successes_app, (transcode_successes_no_runs e1 Hr1).
  - intros [= <- <-]. exists e1. split; [exact Hl1|]. split; [exact Ht1|].
    intros n [=].
Qed.

Lemma log_download_eq (env : Env) (artist collection : pystr) (num_songs : Z)
  (fmt status : pystr) (w : World) :
  log_download env artist collection num_songs fmt status w =
  if mkdir_blocked (fs w) (BASE_DIR env) then (Raise OSError, w)
  else
    let w1 := mkWorld (fs_mkdir (fs w) (BASE_DIR env)) (log w) (trace w) in
    (Ok tt,
     mkWorld (fs w1)
       (log w ++ [log_entry (strftime_now env w1) status artist collection num_songs fmt])
       (trace w)).
Proof.
  unfold log_download. rewrite bind_eq, mkdir_eq.
  destruct (mkdir_blocked (fs w) (BASE_DIR env)); reflexivity.
Qed.

Lemma transcode_successes_nonneg (evs : list Event) : (0 <= transcode_successes evs)%Z.
Proof. unfold transcode_successes. lia. Qed.

(** C6: a run appends a line to the log exactly when it ends normally with
    a positive post-processing success count, which is the number of
    transcodes of the run that exited with 0; the line then carries the
    artist and collection of the resolved metadata, that count and the format
    of the [spotdl] run that succeeded.  A run whose resolution gives the
    empty result or raises, whose acquisition returns no directory, or whose
    count is zero leaves the log as it was. *)
Theorem log_written_iff_success :
  forall (env : Env) (url : pystr) (w : World) (r : result unit) (w' : World),
    download_spotify_url env url w = (r, w') ->
    exists evs,
      trace w' = trace w ++ evs /\
      ((r = Ok tt /\
        (0 < transcode_successes evs)%Z /\
        exists md w1 fmt timestamp,
          get_metadata_from_url env url w = (Ok (Some md), w1) /\
          acquired_format evs = Some fmt /\
          log w' = log w
            ++ [log_entry timestamp (py "SUCCESS") (md_artist md) (md_album md)
                  (transcode_successes evs) (py "AAC M4A (from " ++ fmt ++ py ")")]) \/
       ((r <> Ok tt \/ transcode_successes evs = 0%Z \/ acquired_format evs = None) /\
        (r <> Ok tt \/ transcode_successes evs = 0%Z) /\
        log w' = log w)).
Proof.
  intros env url w r w'. unfold download_spotify_url. rewrite bind_eq.
  destruct (get_metadata_from_url env url w) as [[[md|]|e] w1] eqn:Emd;
    destruct (quiet_get_metadata_from_url env url _ _ _ Emd) as [e1 [Hl1 [Ht1 Hr1]]].
  - rewrite bind_eq.
    destruct (run_spotdl_download_with_fallback env url (md_artist md) (md_album md) w1)
      as [[[folder fmt]|e] w2] eqn:Efb;
      destruct (with_fallback_effects env url _ _ _ _ _ Efb)
        as [e2 [Hl2 [Ht2 [Hc2 Hacq]]]].
    + rewrite bind_eq. unfold get_world at 1.
      assert (Htr12 : trace w2 = trace w ++ (e1 ++ e2)).
      { now rewrite Ht2, Ht1, app_assoc. }
      assert (Hc12 : transcode_successes (e1 ++ e2) = 0%Z).
      { now rewrite transcode_successes_app, (transcode_successes_no_runs e1 Hr1), Hc2. }
      destruct folder as [folder|].
      * destruct (dir_exists (fs w2) folder).
        -- rewrite bind_eq.
           destruct (convert_to_aac_parallel env folder (md_tracks md)
                       (md_image_url md) w2) as [[num|e] w3] eqn:Ec;
             destruct (convert_effects env _ _ _ _ _ _ Ec) as [e3 [Hl3 [Ht3 Hn]]].
           ++ specialize (Hn num eq_refl).
              assert (Htr : trace w3 = trace w ++ (e1 ++ e2 ++ e3)).
              { now rewrite Ht3, Htr12, <- !app_assoc. }
              assert (Hc : transcode_successes (e1 ++ e2 ++ e3) = num).
              { rewrite app_assoc, transcode_successes_app, Hc12. lia. }
              destruct (num >? 0)%Z eqn:Hpos.
              ** rewrite log_download_eq.
                 destruct (mkdir_blocked (fs w3) (BASE_DIR env)); cbv zeta;
                   intros [= <- <-]; exists (e1 ++ e2 ++ e3);
                   (split; [exact Htr|]).
                 { right. split; [left; discriminate|].
                   split; [left; discriminate|]. congruence. }
                 left.
                 split; [reflexivity|]. split; [rewrite Hc; lia|].
                 exists md, w1, fmt. eexists. split; [reflexivity|]. split.
                 { rewrite acquired_format_no_runs by exact Hr1.
                   eapply Hacq. reflexivity. }
                 cbn [log]. rewrite Hc, Hl3, Hl2, Hl1. reflexivity.
              ** intros [= <- <-]. exists (e1 ++ e2 ++ e3).
                 split; [exact Htr|]. right.
                 assert (H0 : transcode_successes (e1 ++ e2 ++ e3) = 0%Z).
                 { pose proof (transcode_successes_nonneg (e1 ++ e2 ++ e3)). lia. }
                 split; [auto|]. split; [auto|]. congruence.
           ++ intros [= <- <-]. exists (e1 ++ e2 ++ e3). split.
              { now rewrite Ht3, Htr12, <- !app_assoc. }
              right. split; [left; discriminate|]. split; [left; discriminate|].
              congruence.
        -- intros [= <- <-]. exists (e1 ++ e2). split; [exact Htr12|].
           right. split; [auto|]. split; [auto|]. congruence.
      * intros [= <- <-]. exists (e1 ++ e2). split; [exact Htr12|].
        right. split; [auto|]. split; [auto|]. congruence.
    + intros [= <- <-]. exists (e1 ++ e2). split.
      { now rewrite Ht2, Ht1, app_assoc. }
      right. split; [left; discriminate|]. split; [left; discriminate|]. congruence.
  - intros [= <- <-]. exists e1. split; [exact Ht1|]. right.
    pose proof (transcode_successes_no_runs e1 Hr1). auto.
  - intros [= <- <-]. exists e1. split; [exact Ht1|]. right.
    split; [left; discriminate|]. split; [left; discriminate|]. exact Hl1.
Qed.

(** C6 at work: the whole run for a playlist, with the fallback format and
    one transcoded track, writes one line. *)
Lemma log_written_iff_success_witness :
  download_spotify_url demo_env demo_url demo_world = (Ok tt, demo_final) /\
  log demo_final = [demo_log_line] /\
  exists evs,
    trace demo_final = trace demo_world ++ evs /\
    transcode_successes evs = 1%Z /\
    acquired_format evs = Some FALLBACK_FORMAT.
Proof.
  assert (Hrun : download_spotify_url demo_env demo_url demo_world = (Ok tt, demo_final))
    by (vm_compute; reflexivity).
  split; [exact Hrun|]. split; [vm_compute; reflexivity|].
  destruct (log_written_iff_success demo_env demo_url demo_world (Ok tt) demo_final Hrun)
    as [evs [Htr _]].
  exists evs. split; [exact Htr|].
  cbn [trace demo_world app] in Htr. rewrite <- Htr.
  split; vm_compute; reflexivity.
Defined.

(* ================================================================== *)
(** * Part III.  Further properties of the code *)
(* ================================================================== *)

(** ** Names that need no sanitizing *)

Lemma sanitize_char_fixed (c : ascii) :
  negb (char_in c invalid_chars) = true -> sanitize_char c = c.
Proof. destruct c as [[] [] [] [] [] [] [] []]; now intros. Qed.

Lemma replaced_fixed (s : pystr) :
  no_invalid s = true ->
  fold_left (fun fn c => replace_char fn c (ch "_")) invalid_chars s = s.
Proof.
  intros H. rewrite replace_fold_map.
  transitivity (map sanitize_char s); [reflexivity|].
  unfold no_invalid in H. induction s as [|c s IH]; [reflexivity|].
  cbn [forallb] in H. apply andb_true_iff in H as [Hc Hs].
  cbn [map]. now rewrite (sanitize_char_fixed c Hc), IH.
Qed.

Lemma lstrip_fixed (chars s : pystr) :
  match s with c :: _ => char_in c chars = false | [] => True end ->
  lstrip chars s = s.
Proof. destruct s as [|c s]; [reflexivity|]. rewrite lstrip_cons. now intros ->. Qed.

Lemma strip_fixed (s : pystr) :
  clean_start s = true -> clean_end s = true -> strip (py ". ") s = s.
Proof.
  intros Hs He. unfold strip, rstrip.
  rewrite (lstrip_fixed (py ". ") s).
  - rewrite lstrip_fixed; [apply rev_involutive|].
    unfold clean_end, clean_start in He.
    destruct (rev s); [exact I|]. now apply negb_true_iff in He.
  - unfold clean_start in Hs. destruct s; [exact I|]. now apply negb_true_iff in Hs.
Qed.

Lemma sanitize_fixed (s : pystr) : well_sanitized s = true -> sanitize_filename s = s.
Proof.
  unfold well_sanitized. intros H.
  apply andb_true_iff in H as [H Hlen]. apply andb_true_iff in H as [H He].
  apply andb_true_iff in H as [Hv Hs]. apply Nat.leb_le in Hlen.
  unfold sanitize_filename. rewrite (replaced_fixed s Hv), (strip_fixed s Hs He).
  now apply firstn_all2.
Qed.

(** X1: a name that holds no invalid character, neither begins nor ends
    with a dot or a space and has at most 200 characters is returned
    unchanged by [sanitize_filename]; so sanitizing twice is the same as
    sanitizing once for every input of at most 200 characters. *)
Theorem sanitize_filename_keeps_clean_names :
  (forall s : pystr, well_sanitized s = true -> sanitize_filename s = s) /\
  (forall s : pystr,
     length s <= 200 ->
     sanitize_filename (sanitize_filename s) = sanitize_filename s).
Proof.
  split; [exact sanitize_fixed|].
  intros s Hlen. apply sanitize_fixed. unfold well_sanitized.
  rewrite sanitize_no_invalid, sanitize_clean_start, (sanitize_clean_end s Hlen).
  apply Nat.leb_le, sanitize_length.
Qed.

(** X1 at work: a clean name, and a title with a slash and a trailing dot. *)
Lemma sanitize_filename_keeps_clean_names_witness :
  well_sanitized clean_name = true /\
  sanitize_filename clean_name = clean_name /\
  sanitize_filename (sanitize_filename (py "AC/DC live."))
  = sanitize_filename (py "AC/DC live.").
Proof.
  split; [reflexivity|]. split.
  - apply (proj1 sanitize_filename_keeps_clean_names). reflexivity.
  - apply (proj2 sanitize_filename_keeps_clean_names). simpl. lia.
Defined.

(** ** What the extractor returns *)

Lemma take_while_split (f : ascii -> bool) (s : pystr) :
  exists rest,
    s = take_while f s ++ rest /\
    forallb f (take_while f s) = true /\
    match rest with c :: _ => f c = false | [] => True end.
Proof.
  induction s as [|c s [rest [Hs [Hall Hrest]]]]; simpl.
  - exists []. auto.
  - destruct (f c) eqn:E.
    + exists rest. simpl. rewrite E, Hall. split; [congruence|auto].
    + exists (c :: s). auto.
Qed.

Lemma match_id_result (kind rest : pystr) (r : pystr * pystr) :
  match_id kind rest = Some r ->
  exists id post,
    r = (id, kind) /\ rest = py "/" ++ id ++ post /\ id <> [] /\
    forallb is_alnum id = true /\
    match post with c :: _ => is_alnum c = false | [] => True end.
Proof.
  unfold match_id.
  destruct (strip_prefix (py "/") rest) as [rest'|] eqn:E; [|discriminate].
  apply strip_prefix_some in E. subst rest.
  destruct (take_while_split is_alnum rest') as [post [Hs [Hall Hpost]]].
  destruct (take_while is_alnum rest') as [|c id] eqn:Ht; [discriminate|].
  intros [= <-]. exists (c :: id), post. repeat split; auto; congruence.
Qed.

Lemma match_kinds_result (kinds : list pystr) (rest : pystr) (r : pystr * pystr) :
  match_kinds kinds rest = Some r ->
  exists kind id post,
    r = (id, kind) /\ In kind kinds /\ rest = kind ++ py "/" ++ id ++ post /\
    id <> [] /\ forallb is_alnum id = true /\
    match post with c :: _ => is_alnum c = false | [] => True end.
Proof.
  induction kinds as [|k kinds IH]; cbn [match_kinds]; [discriminate|].
  assert (Hnext : match_kinds kinds rest = Some r ->
    exists kind id post,
      r = (id, kind) /\ In kind (k :: kinds) /\ rest = kind ++ py "/" ++ id ++ post /\
      id <> [] /\ forallb is_alnum id = true /\
      match post with c :: _ => is_alnum c = false | [] => True end).
  { intros H. destruct (IH H) as [kind [id [post [Hr [Hin Hrest]]]]].
    exists kind, id, post. split; [exact Hr|]. split; [now right|exact Hrest]. }
  destruct (strip_prefix k rest) as [rest'|] eqn:E; [|exact Hnext].
  destruct (match_id k rest') as [r'|] eqn:Hid; [|exact Hnext].
  intros [= <-]. apply strip_prefix_some in E.
  apply match_id_result in Hid as [id [post [-> [-> Hrest]]]].
  exists k, id, post. split; [reflexivity|]. split; [now left|]. now subst rest.
Qed.

Lemma match_here_result (s : pystr) (r : pystr * pystr) :
  match_here s = Some r ->
  exists scheme kind id post,
    r = (id, kind) /\
    In scheme [py "http"; py "https"] /\
    In kind [py "album"; py "playlist"; py "track"] /\
    s = scheme ++ py "://open.spotify.com/" ++ kind ++ py "/" ++ id ++ post /\
    id <> [] /\ forallb is_alnum id = true /\
    match post with c :: _ => is_alnum c = false | [] => True end.
Proof.
  assert (Hhost : forall rest,
    match_host rest = Some r ->
    exists kind id post,
      r = (id, kind) /\ In kind [py "album"; py "playlist"; py "track"] /\
      rest = py "://open.spotify.com/" ++ kind ++ py "/" ++ id ++ post /\
      id <> [] /\ forallb is_alnum id = true /\
      match post with c :: _ => is_alnum c = false | [] => True end).
  { intros rest. unfold match_host.
    destruct (strip_prefix (py "://open.spotify.com/") rest) as [rest'|] eqn:E;
      [|discriminate].
    apply strip_prefix_some in E. intros H.
    apply match_kinds_result in H as [kind [id [post [Hr [Hin [-> Hrest]]]]]].
    exists kind, id, post. auto. }
  unfold match_here.
  destruct (strip_prefix (py "http") s) as [rest|] eqn:E; [|discriminate].
  apply strip_prefix_some in E. subst s.
  assert (Hplain : match_host rest = Some r ->
    exists scheme kind id post,
      r = (id, kind) /\
      In scheme [py "http"; py "https"] /\
      In kind [py "album"; py "playlist"; py "track"] /\
      py "http" ++ rest
      = scheme ++ py "://open.spotify.com/" ++ kind ++ py "/" ++ id ++ post /\
      id <> [] /\ forallb is_alnum id = true /\
      match post with c :: _ => is_alnum c = false | [] => True end).
  { intros H. apply Hhost in H as [kind [id [post [Hr [Hin [-> Hrest]]]]]].
    exists (py "http"), kind, id, post. simpl. auto. }
  destruct (strip_prefix (py "s") rest) as [rest'|] eqn:Es; [|exact Hplain].
  destruct (match_host rest') as [r'|] eqn:Hh; [|exact Hplain].
  intros [= ->]. apply strip_prefix_some in Es. subst rest.
  apply Hhost in Hh as [kind [id [post [Hr [Hin [-> Hrest]]]]]].
  exists (py "https"), kind, id, post. simpl. auto.
Qed.

Lemma re_search_result (s : pystr) (r : pystr * pystr) :
  re_search s = Some r ->
  exists pre scheme kind id post,
    r = (id, kind) /\
    In scheme [py "http"; py "https"] /\
    In kind [py "album"; py "playlist"; py "track"] /\
    s = pre ++ scheme ++ py "://open.spotify.com/" ++ kind ++ py "/" ++ id ++ post /\
    id <> [] /\ forallb is_alnum id = true /\
    match post with c :: _ => is_alnum c = false | [] => True end.
Proof.
  induction s as [|a s IH]; rewrite re_search_eq.
  - destruct (match_here []) eqn:E; [|discriminate].
    intros [= <-]. apply match_here_result in E as [scheme [kind [id [post H]]]].
    exists [], scheme, kind, id, post. exact H.
  - destruct (match_here (a :: s)) eqn:E.
    + intros [= <-]. apply match_here_result in E as [scheme [kind [id [post H]]]].
      exists [], scheme, kind, id, post. exact H.
    + intros H.
      destruct (IH H) as [pre [scheme [kind [id [post [Hr [Hs [Hk [-> Hrest]]]]]]]]].
      exists (a :: pre), scheme, kind, id, post. auto.
Qed.

(** X2: when [extract_spotify_id_and_type] returns an identifier and a
    kind, either the URL mentions the liked songs and both are ["liked"]
    (this test comes first, whatever else the URL holds), or the kind is
    album, playlist or track and the identifier is the longest run of letters
    and digits that follows [http(s)://open.spotify.com/<kind>/] in the URL;
    the identifier is never empty. *)
Theorem extract_spotify_id_and_type_result :
  forall (url spotify_id kind : pystr),
    extract_spotify_id_and_type url = Some (spotify_id, kind) ->
    spotify_id <> [] /\
    ((contains (py "liked-songs") url = true /\
      spotify_id = py "liked" /\ kind = py "liked") \/
     (contains (py "liked-songs") url = false /\
      In kind [py "album"; py "playlist"; py "track"] /\
      forallb is_alnum spotify_id = true /\
      exists pre scheme post,
        In scheme [py "http"; py "https"] /\
        url = pre ++ scheme ++ py "://open.spotify.com/" ++ kind ++ py "/"
              ++ spotify_id ++ post /\
        match post with c :: _ => is_alnum c = false | [] => True end)).
Proof.
  intros url spotify_id kind. unfold extract_spotify_id_and_type.
  destruct (contains (py "liked-songs") url) eqn:E.
  - intros [= <- <-]. split; [discriminate|]. left. auto.
  - intros H.
    apply re_search_result in H
      as [pre [scheme [k [id [post [[= -> ->] [Hs [Hk [Hurl [Hne [Hall Hpost]]]]]]]]]]].
    split; [exact Hne|]. right. split; [reflexivity|]. split; [exact Hk|].
    split; [exact Hall|]. exists pre, scheme, post. auto.
Qed.

(** X2 at work: a playlist link with a query string. *)
Lemma extract_spotify_id_and_type_result_witness :
  extract_spotify_id_and_type (py "see https://open.spotify.com/playlist/37i9dQ?si=1")
  = Some (py "37i9dQ", py "playlist") /\
  py "37i9dQ" <> [] /\
  forallb is_alnum (py "37i9dQ") = true.
Proof.
  split; [reflexivity|].
  destruct (extract_spotify_id_and_type_result
              (py "see https://open.spotify.com/playlist/37i9dQ?si=1")
              (py "37i9dQ") (py "playlist") eq_refl) as [Hne [[H _]|[_ [_ [Hall _]]]]].
  - discriminate H.
  - split; [exact Hne|exact Hall].
Defined.

(** ** Resolution *)

(** Decides the equality tests between string literals in a hypothesis. *)
Ltac decide_literal_tests H :=
  repeat match type of H with
         | context [str_eqb (py ?a) (py ?b)] =>
             let v := eval vm_compute in (str_eqb (py a) (py b)) in
             change (str_eqb (py a) (py b)) with v in H
         end.

Lemma get_spotify_token_eq (env : Env) (client_only : bool) (w : World) :
  get_spotify_token env client_only w =
  let w1 := mkWorld (fs w) (log w) (trace w ++ [EvToken client_only]) in
  match token_grant env w client_only with
  | Some token => (Ok token, w1)
  | None => (Raise HTTPError, w1)
  end.
Proof.
  unfold get_spotify_token, bind, get_world, emit, of_option, ret, raise. cbv zeta.
  destruct (token_grant env w client_only); reflexivity.
Qed.

Lemma get_album_metadata_eq (env : Env) (spotify_id token : pystr) (w : World) :
  get_album_metadata env spotify_id token w =
  let url := py "https://api.spotify.com/v1/albums/" ++ spotify_id in
  let w1 := mkWorld (fs w) (log w) (trace w ++ [EvGet url]) in
  match get_album env w url token with
  | Some data =>
      (Ok (mkMetadata (artist_names (album_artists data)) (album_name data)
             (map (fun t => mkTrack (at_track_number t) (at_name t)
                              (artist_names (at_artists t)) (album_name data))
                  (album_items data))
             (first_image (album_images data))), w1)
  | None => (Raise HTTPError, w1)
  end.
Proof.
  unfold get_album_metadata, bind, get_world, emit, of_option, ret, raise.
  cbv zeta. destruct (get_album env w _ token); reflexivity.
Qed.

Lemma get_track_metadata_eq (env : Env) (spotify_id token : pystr) (w : World) :
  get_track_metadata env spotify_id token w =
  let url := py "https://api.spotify.com/v1/tracks/" ++ spotify_id in
  let w1 := mkWorld (fs w) (log w) (trace w ++ [EvGet url]) in
  match get_track env w url token with
  | Some data =>
      (Ok (mkMetadata (artist_names (tr_artists data)) (tr_album_name data)
             [mkTrack 1 (tr_name data) (artist_names (tr_artists data))
                      (tr_album_name data)]
             (first_image (tr_album_images data))), w1)
  | None => (Raise HTTPError, w1)
  end.
Proof.
  unfold get_track_metadata, bind, get_world, emit, of_option, ret, raise.
  cbv zeta. destruct (get_track env w _ token); reflexivity.
Qed.

Lemma album_reads_once (env : Env) (spotify_id token : pystr) :
  reads_once (get_album_metadata env spotify_id token)
    (py "https://api.spotify.com/v1/albums/" ++ spotify_id).
Proof.
  intros w r w'. rewrite get_album_metadata_eq. cbv zeta.
  destruct (get_album env w _ token); intros [= <- <-]; auto.
Qed.

Lemma track_reads_once (env : Env) (spotify_id token : pystr) :
  reads_once (get_track_metadata env spotify_id token)
    (py "https://api.spotify.com/v1/tracks/" ++ spotify_id).
Proof.
  intros w r w'. rewrite get_track_metadata_eq. cbv zeta.
  destruct (get_track env w _ token); intros [= <- <-]; auto.
Qed.

Lemma playlist_reads_once (env : Env) (spotify_id token : pystr) :
  reads_once (get_playlist_metadata env spotify_id token)
    (py "https://api.spotify.com/v1/playlists/" ++ spotify_id).
Proof.
  intros w r w'. rewrite get_playlist_metadata_eq. cbv zeta.
  destruct (get_playlist env w _ token); intros [= <- <-]; auto.
Qed.

Lemma liked_reads_once (env : Env) (token : pystr) :
  reads_once (get_liked_songs_metadata env token) LIKED_URL.
Proof.
  intros w r w'. rewrite get_liked_songs_metadata_eq. cbv zeta.
  destruct (get_saved env w LIKED_URL token) as [data|];
    [destruct (liked_tracks 1 (sv_items data))|]; intros [= <- <-]; auto.
Qed.

(** A resolver's metadata, wrapped for [get_metadata_from_url]. *)
Lemma wrapped_reads_once (m : M Metadata) (url : pystr) (w : World)
  (r : result (option Metadata)) (w' : World) :
  reads_once m url ->
  bind m (fun md => ret (Some md)) w = (r, w') ->
  fs w' = fs w /\ log w' = log w /\ trace w' = trace w ++ [EvGet url] /\ r <> Ok None.
Proof.
  intros Hm. rewrite bind_eq. destruct (m w) as [[md|e] w1] eqn:E;
    intros [= <- <-]; destruct (Hm _ _ _ E) as [H1 [H2 H3]];
    repeat split; auto; discriminate.
Qed.

Lemma extract_spotify_id_and_type_shape (url spotify_id kind : pystr) :
  extract_spotify_id_and_type url = Some (spotify_id, kind) ->
  spotify_id <> [] /\
  (kind = py "liked" \/ kind = py "album" \/ kind = py "playlist" \/ kind = py "track").
Proof.
  unfold extract_spotify_id_and_type.
  destruct (contains (py "liked-songs") url).
  - intros [= <- <-]. split; [discriminate|now left].
  - intros H.
    apply re_search_result in H
      as [pre [scheme [k [id [post [[= -> ->] [_ [Hk [_ [Hne _]]]]]]]]]].
    split; [exact Hne|]. right. destruct Hk as [<-|[<-|[<-|[]]]]; auto.
Qed.

(** What resolution does, case by case. *)
Lemma get_metadata_from_url_cases :
  forall (env : Env) (url : pystr) (w : World) (r : result (option Metadata))
         (w' : World),
    get_metadata_from_url env url w = (r, w') ->
    fs w' = fs w /\
    log w' = log w /\
    match extract_spotify_id_and_type url with
    | None => r = Ok None /\ trace w' = trace w
    | Some (spotify_id, kind) =>
        (token_grant env w (existsb (str_eqb kind) [py "album"; py "track"]) = None /\
         r = Raise HTTPError /\
         trace w' = trace w
           ++ [EvToken (existsb (str_eqb kind) [py "album"; py "track"])]) \/
        (token_grant env w (existsb (str_eqb kind) [py "album"; py "track"]) <> None /\
         r <> Ok None /\
         trace w' = trace w
           ++ [EvToken (existsb (str_eqb kind) [py "album"; py "track"]);
               EvGet (endpoint kind spotify_id)])
    end.
Proof.
  intros env url w r w' Hrun. unfold get_metadata_from_url in Hrun.
  destruct (extract_spotify_id_and_type url) as [[spotify_id kind]|] eqn:Hext.
  2: { injection Hrun as <- <-. auto. }
  pose proof (extract_spotify_id_and_type_shape url spotify_id kind Hext)
    as [Hne Hkind].
  destruct spotify_id as [|c rest]; [congruence|].
  set (sid := c :: rest) in *.
  rewrite bind_eq, get_spotify_token_eq in Hrun. cbv zeta in Hrun.
  destruct (token_grant env w _) as [token|] eqn:Htok.
  2: { injection Hrun as <- <-. cbn [fs log trace].
       split; [reflexivity|]. split; [reflexivity|]. left. auto. }
  assert (Hshape : forall (m : M Metadata) (endpoint_url : pystr),
            reads_once m endpoint_url ->
            endpoint kind sid = endpoint_url ->
            bind m (fun md => ret (Some md))
              (mkWorld (fs w) (log w)
                 (trace w ++ [EvToken (existsb (str_eqb kind) [py "album"; py "track"])]))
            = (r, w') ->
            fs w' = fs w /\ log w' = log w /\
            r <> Ok None /\
            trace w' = trace w
              ++ [EvToken (existsb (str_eqb kind) [py "album"; py "track"]);
                  EvGet (endpoint kind sid)]).
  { intros m u Hm Hu Hb. rewrite Hu.
    destruct (wrapped_reads_once m u _ r w' Hm Hb) as [H1 [H2 [H3 H4]]].
    cbn [fs log trace] in H1, H2, H3.
    rewrite H3, <- app_assoc. auto. }
  assert (Hdone : fs w' = fs w /\ log w' = log w /\
            r <> Ok None /\
            trace w' = trace w
              ++ [EvToken (existsb (str_eqb kind) [py "album"; py "track"]);
                  EvGet (endpoint kind sid)]).
  { destruct Hkind as [Hkind|[-> | [-> | ->]]].
    - subst kind. decide_literal_tests Hrun.
      eapply Hshape; [apply liked_reads_once|reflexivity|exact Hrun].
    - decide_literal_tests Hrun.
      eapply Hshape; [apply album_reads_once|reflexivity|exact Hrun].
    - decide_literal_tests Hrun.
      eapply Hshape; [apply playlist_reads_once|reflexivity|exact Hrun].
    - decide_literal_tests Hrun.
      eapply Hshape; [apply track_reads_once|reflexivity|exact Hrun]. }
  destruct Hdone as [H1 [H2 [H3 H4]]].
  split; [exact H1|]. split; [exact H2|]. right. split; [congruence|]. auto.
Qed.

(** X3: resolution only talks to the catalog.  It leaves the file system
    and the log alone; for an unrecognized URL it does nothing at all; for a
    recognized one it asks for a token, with the client-credentials flow
    exactly for albums and tracks and the user login for playlists and liked
    songs, and then, if the token was granted, reads the one endpoint of that
    kind and returns metadata or raises, never the empty result. *)
Theorem get_metadata_from_url_flow :
  forall (env : Env) (url : pystr) (w : World) (r : result (option Metadata))
         (w' : World),
    get_metadata_from_url env url w = (r, w') ->
    fs w' = fs w /\
    log w' = log w /\
    match extract_spotify_id_and_type url with
    | None => r = Ok None /\ trace w' = trace w
    | Some (spotify_id, kind) =>
        (token_grant env w (existsb (str_eqb kind) [py "album"; py "track"]) = None /\
         r = Raise HTTPError /\
         trace w' = trace w
           ++ [EvToken (existsb (str_eqb kind) [py "album"; py "track"])]) \/
        (token_grant env w (existsb (str_eqb kind) [py "album"; py "track"]) <> None /\
         r <> Ok None /\
         trace w' = trace w
           ++ [EvToken (existsb (str_eqb kind) [py "album"; py "track"]);
               EvGet (endpoint kind spotify_id)])
    end.
Proof. exact get_metadata_from_url_cases. Qed.

(** X3 at work: the demo playlist is resolved with the user login. *)
Lemma get_metadata_from_url_flow_witness :
  exists r w',
    get_metadata_from_url demo_env demo_url demo_world = (r, w') /\
    fs w' = fs demo_world /\
    trace w' = [EvToken false; EvGet (py "https://api.spotify.com/v1/playlists/37i9dQ")].
Proof.
  destruct (get_metadata_from_url demo_env demo_url demo_world) as [r w'] eqn:Hrun.
  exists r, w'. split; [reflexivity|].
  destruct (get_metadata_from_url_flow demo_env demo_url demo_world r w' Hrun)
    as [Hfs [_ Htrace]].
  split; [exact Hfs|].
  change (extract_spotify_id_and_type demo_url)
    with (Some (py "37i9dQ", py "playlist")) in Htrace.
  destruct Htrace as [[Hnone _]|[_ [_ Htr]]]; [discriminate Hnone|exact Htr].
Defined.

(** X4: a single-track URL resolves to exactly one track, numbered 1, so
    the padding width is 1.  When that track list is handed to
    [convert_to_aac_parallel], at most one transcode is started: of the first
    candidate file whose stem contains the title, and the file it is told to
    write is [1 - <sanitized title>.m4a] in the download folder. *)
Theorem single_track_output_name :
  forall (env : Env) (spotify_id token : pystr) (w : World) (data : TrackResp),
    get_track env w (py "https://api.spotify.com/v1/tracks/" ++ spotify_id) token
      = Some data ->
    exists md w' track,
      get_track_metadata env spotify_id token w = (Ok md, w') /\
      md_tracks md = [track] /\
      number track = 1%Z /\
      title track = tr_name data /\
      pad_width (md_tracks md) = 1 /\
      forall (folder : pystr) (v : World) (r : result Z) (v' : World),
        convert_to_aac_parallel env folder (md_tracks md) (md_image_url md) v
          = (r, v') ->
        exists evs,
          trace v' = trace v ++ evs /\
          (transcode_cmds evs = [] \/
           exists f,
             first_match track (candidate_files (fs v) folder) = Some f /\
             map input_arg (transcode_cmds evs) = [path_str f] /\
             map output_arg (transcode_cmds evs)
             = [folder ++ py "/1 - " ++ sanitize_filename (tr_name data) ++ py ".m4a"]).
Proof.
  intros env spotify_id token w data Hdata.
  rewrite get_track_metadata_eq. cbv zeta. rewrite Hdata.
  eexists; eexists; eexists. split; [reflexivity|]. cbn [md_tracks md_image_url].
  repeat (split; [reflexivity|]).
  intros folder v r v' Hrun.
  apply convert_transcodes in Hrun as [[_ [_ ->]]|[_ [evs [Htr Hcases]]]].
  { exists []. rewrite app_nil_r. split; [reflexivity|]. left. reflexivity. }
  exists evs. split; [exact Htr|].
  destruct Hcases as [[e [_ Hruns]]|[art [ran [cancelled [Hsplit [_ [Hin Hout]]]]]]].
  { left. now apply transcode_cmds_no_runs. }
  cbn [match_tracks] in Hsplit.
  destruct ran as [|j ran]; [left; cbn [map] in Hin; now apply map_eq_nil in Hin|].
  destruct (first_match _ (candidate_files (fs v) folder)) as [f|] eqn:Hf;
    [|discriminate Hsplit].
  injection Hsplit as <- Hrest.
  symmetry in Hrest. apply app_eq_nil in Hrest as [-> _].
  right. exists f. split; [reflexivity|]. split; [exact Hin|].
  rewrite Hout. reflexivity.
Qed.

(** X4 at work: the title [T.N.T.] gives [1 - T.N.T.m4a], the dot at
    the end of the title being stripped. *)
Lemma single_track_output_name_witness :
  get_track single_env demo_world (py "https://api.spotify.com/v1/tracks/" ++ py "4u7")
    (py "token")
  = Some {| tr_name := py "T.N.T.";
            tr_artists := [{| artist_name := py "AC/DC" |}];
            tr_album_name := py "T.N.T.";
            tr_album_images := [] |} /\
  exists md w' track,
    get_track_metadata single_env (py "4u7") (py "token") demo_world = (Ok md, w') /\
    md_tracks md = [track] /\
    exists evs,
      trace (snd (convert_to_aac_parallel single_env (py "/music") (md_tracks md)
                    (md_image_url md) single_world)) = trace single_world ++ evs /\
      map input_arg (transcode_cmds evs) = [py "/music/AC_DC - T.N.T..flac"] /\
      map output_arg (transcode_cmds evs) = [py "/music/1 - T.N.T.m4a"].
Proof.
  split; [reflexivity|].
  destruct (single_track_output_name single_env (py "4u7") (py "token") demo_world
              _ eq_refl)
    as [md [w' [track [Hrun [Htracks [_ [_ [_ Hconv]]]]]]]].
  exists md, w', track. split; [exact Hrun|]. split; [exact Htracks|].
  assert (Hmd : md = mkMetadata (py "AC/DC") (py "T.N.T.")
                       [mkTrack 1 (py "T.N.T.") (py "AC/DC") (py "T.N.T.")] None).
  { revert Hrun. vm_compute. now intros [= <- _]. }
  subst md. injection Htracks as <-.
  destruct (convert_to_aac_parallel single_env (py "/music") _ _ single_world)
    as [r v'] eqn:Hc.
  destruct (Hconv _ _ _ _ Hc) as [evs [Htr Hcases]].
  exists evs. split; [exact Htr|].
  pose proof (f_equal snd Hc) as Hv. cbn [snd] in Hv.
  destruct Hcases as [Hnil|[f [Hf [Hin Hout]]]].
  - rewrite <- Hv in Htr. vm_compute in Htr. subst evs. discriminate Hnil.
  - split; [rewrite Hin|rewrite Hout; reflexivity].
    vm_compute in Hf. injection Hf as <-. reflexivity.
Defined.

(** ** Liked songs with a removed track *)

Lemma liked_tracks_all_present (idx : Z) (items : list SavedItem) :
  forallb saved_present items = true ->
  exists tracks,
    liked_tracks idx items = Ok tracks /\
    map number tracks = positions_from idx (length items).
Proof.
  revert idx. induction items as [|item items IH]; intros idx; cbn [forallb].
  - intros _. exists []. auto.
  - intros H. apply andb_true_iff in H as [Hitem Hrest].
    destruct (IH (idx + 1)%Z Hrest) as [tracks [Ht Hn]].
    unfold saved_present in Hitem. cbn [liked_tracks].
    destruct (si_track item) as [t|]; [|discriminate].
    rewrite Ht. eexists. split; [reflexivity|].
    cbn [map number length]. now rewrite positions_from_S, Hn.
Qed.

Lemma liked_tracks_null (idx : Z) (items : list SavedItem) :
  forallb saved_present items = false -> liked_tracks idx items = Raise TypeError.
Proof.
  revert idx. induction items as [|item items IH]; intros idx; cbn [forallb].
  - discriminate.
  - unfold saved_present at 1. cbn [liked_tracks].
    destruct (si_track item) as [t|]; [|reflexivity].
    cbn [andb]. intros H. now rewrite (IH (idx + 1)%Z H).
Qed.

(** X5: unlike the playlist resolver, the liked-songs resolver does not
    skip a saved item whose track is null: it raises [TypeError] as soon as
    the response holds one, after its single read.  When every item has its
    track, the tracks are numbered 1, ..., n in the order of the response. *)
Theorem get_liked_songs_metadata_null_track :
  forall (env : Env) (token : pystr) (w : World) (data : SavedResp),
    get_saved env w LIKED_URL token = Some data ->
    exists r w',
      get_liked_songs_metadata env token w = (r, w') /\
      trace w' = trace w ++ [EvGet LIKED_URL] /\
      (forallb saved_present (sv_items data) = false -> r = Raise TypeError) /\
      (forallb saved_present (sv_items data) = true ->
       exists md,
         r = Ok md /\
         gap_free (md_tracks md) /\
         length (md_tracks md) = length (sv_items data)).
Proof.
  intros env token w data Hdata.
  rewrite get_liked_songs_metadata_eq. cbv zeta. rewrite Hdata.
  destruct (forallb saved_present (sv_items data)) eqn:Hall.
  - destruct (liked_tracks_all_present 1 (sv_items data) Hall) as [tracks [Ht Hn]].
    rewrite Ht. eexists; eexists. split; [reflexivity|]. split; [reflexivity|].
    split; [discriminate|]. intros _. eexists. split; [reflexivity|].
    cbn [md_tracks]. apply liked_tracks_length in Ht.
    split; [|exact Ht]. unfold gap_free. now rewrite Hn, Ht.
  - rewrite (liked_tracks_null 1 (sv_items data) Hall).
    eexists; eexists. split; [reflexivity|]. split; [reflexivity|].
    split; [reflexivity|discriminate].
Qed.

(** X5 at work: one saved item whose track is null. *)
Lemma get_liked_songs_metadata_null_track_witness :
  get_saved track_env demo_world LIKED_URL (py "token")
    = Some {| sv_items := [{| si_track := None |}] |} /\
  exists w', get_liked_songs_metadata track_env (py "token") demo_world
             = (Raise TypeError, w').
Proof.
  split; [reflexivity|].
  destruct (get_liked_songs_metadata_null_track track_env (py "token") demo_world
              {| sv_items := [{| si_track := None |}] |} eq_refl)
    as [r [w' [Hrun [_ [Hnull _]]]]].
  exists w'. rewrite Hrun. f_equal. apply Hnull. reflexivity.
Defined.

(** ** Probes and the artwork download *)

(** X6: [check_spotdl_installed] never raises.  It runs [spotdl --version]
    once and returns [True] exactly when that process could be started and
    exited with code 0; a process that cannot be started and a non-zero exit
    both give [False]. *)
Theorem check_spotdl_installed_total :
  forall (env : Env) (w : World),
    exists installed rc w',
      check_spotdl_installed env w = (Ok installed, w') /\
      log w' = log w /\
      trace w' = trace w ++ [EvRun version_cmd rc] /\
      (installed = true <-> rc = Some 0%Z) /\
      (spawn env w version_cmd = None -> installed = false /\ fs w' = fs w).
Proof.
  intros env w. unfold check_spotdl_installed, try_except.
  rewrite bind_eq, subprocess_run_eq.
  destruct (spawn env w version_cmd) as [[cp f]|] eqn:Hsp.
  - destruct (returncode cp =? 0)%Z eqn:E.
    + apply Z.eqb_eq in E. exists true, (Some (returncode cp)). eexists.
      split; [reflexivity|]. cbn [log trace]. repeat split; try congruence.
    + apply Z.eqb_neq in E. exists false, (Some (returncode cp)). eexists.
      split; [reflexivity|]. cbn [log trace]. repeat split; try congruence.
  - exists false, None. eexists. split; [reflexivity|]. cbn [log trace fs].
    repeat split; congruence.
Qed.

(** X7: [get_ffmpeg_aac_codec] never raises.  It runs [ffmpeg -encoders]
    once and returns ["aac_at"] exactly when that process could be started
    and its output mentions [aac_at]; in every other case, also when the
    process cannot be started, it returns ["aac"]. *)
Theorem get_ffmpeg_aac_codec_total :
  forall (env : Env) (w : World),
    exists codec rc w',
      get_ffmpeg_aac_codec env w = (Ok codec, w') /\
      log w' = log w /\
      trace w' = trace w ++ [EvRun probe_cmd rc] /\
      (codec = py "aac_at" \/ codec = py "aac") /\
      (codec = py "aac_at" <->
       exists cp f,
         spawn env w probe_cmd = Some (cp, f) /\
         contains (py "aac_at") (stdout cp) = true).
Proof.
  intros env w. rewrite get_ffmpeg_aac_codec_eq.
  destruct (spawn env w probe_cmd) as [[cp f]|] eqn:Hsp.
  - destruct (contains (py "aac_at") (stdout cp)) eqn:E;
      eexists; eexists; eexists; (split; [reflexivity|]); cbn [log trace];
      (split; [reflexivity|]); (split; [reflexivity|]).
    + split; [now left|]. split; [|reflexivity]. intros _. exists cp, f. auto.
    + split; [now right|]. split; [discriminate|].
      intros [cp' [f' [[= <- <-] H]]]. congruence.
  - eexists; eexists; eexists. split; [reflexivity|]. cbn [log trace].
    split; [reflexivity|]. split; [reflexivity|]. split; [now right|].
    split; [discriminate|]. intros [cp [f [H _]]]. discriminate H.
Qed.

Lemma lookup_write_same (f : FS) (p : Path) (c : content) :
  lookup_file (fs_write f p c) p = Some c.
Proof. unfold lookup_file, fs_write. cbn [files find fst]. now rewrite path_eqb_refl. Qed.

Lemma lookup_write_other (f : FS) (p q : Path) (c : content) :
  q <> p -> lookup_file (fs_write f p c) q = lookup_file f q.
Proof.
  intros Hne. unfold lookup_file at 1. unfold fs_write. cbn [files find fst].
  destruct (path_eqb p q) eqn:E.
  - apply path_eqb_eq in E. congruence.
  - apply (lookup_unlink_other f p q Hne).
Qed.

Lemma is_file_write (f : FS) (p : Path) (c : content) :
  is_file (fs_write f p c) p = true.
Proof. unfold is_file, fs_write. cbn [files existsb fst]. now rewrite path_eqb_refl. Qed.

(** X8: [download_album_art] makes no request for an empty URL and returns
    [None].  Otherwise it makes one request: if that raises, so does the
    function; a status other than 200 gives [None] and no file; status 200
    writes the body to [album_art_<uuid>.jpg] in the temporary directory and
    returns that path, which then exists with the body as its content (so
    [embed_metadata] will attach it) while every other file is as before.
    The log is never touched. *)
Theorem download_album_art_outcome :
  forall (env : Env) (url : pystr) (w : World) (r : result (option Path)) (w' : World),
    download_album_art env url w = (r, w') ->
    log w' = log w /\
    (url = [] -> r = Ok None /\ w' = w) /\
    (url <> [] ->
     trace w' = trace w ++ [EvGet url] /\
     match get_raw env w url with
     | None => r = Raise HTTPError /\ fs w' = fs w
     | Some (status, body) =>
         if (status =? 200)%Z then
           exists hex,
             r = Ok (Some (mkPath (tempdir env) (py "album_art_" ++ hex ++ py ".jpg"))) /\
             lookup_file (fs w') (mkPath (tempdir env) (py "album_art_" ++ hex ++ py ".jpg"))
             = Some body /\
             usable_art (fs w')
               (Some (mkPath (tempdir env) (py "album_art_" ++ hex ++ py ".jpg")))
             = Some (mkPath (tempdir env) (py "album_art_" ++ hex ++ py ".jpg")) /\
             forall q,
               q <> mkPath (tempdir env) (py "album_art_" ++ hex ++ py ".jpg") ->
               lookup_file (fs w') q = lookup_file (fs w) q
         else r = Ok None /\ fs w' = fs w
     end).
Proof.
  intros env url w r w'. unfold download_album_art.
  destruct url as [|c url].
  - intros [= <- <-]. split; [reflexivity|]. split; [auto|congruence].
  - set (u := c :: url).
    unfold bind, get_world, emit, of_option, write_file, set_fs, ret, raise.
    destruct (get_raw env w u) as [[status body]|] eqn:Hraw; cbn [fst snd].
    + destruct (status =? 200)%Z eqn:E; intros [= <- <-]; cbn [log trace fs];
        (split; [reflexivity|]); (split; [discriminate|]); intros _;
        (split; [reflexivity|]).
      * eexists. split; [reflexivity|]. unfold in_dir.
        split; [apply lookup_write_same|].
        split; [unfold usable_art; now rewrite is_file_write|].
        intros q Hq. now apply lookup_write_other.
      * auto.
    + intros [= <- <-]. cbn [log trace fs]. split; [reflexivity|].
      split; [discriminate|]. auto.
Qed.

(** X8 at work: one URL answered with status 200, one with 404. *)
Lemma download_album_art_outcome_witness :
  (exists p w',
     download_album_art track_env (py "http://img/ok") demo_world = (Ok (Some p), w') /\
     log w' = log demo_world /\
     lookup_file (fs w') p = Some (py "jpeg")) /\
  (exists w',
     download_album_art track_env (py "http://img/gone") demo_world = (Ok None, w') /\
     log w' = log demo_world).
Proof.
  split.
  - destruct (download_album_art track_env (py "http://img/ok") demo_world)
      as [r w'] eqn:Hrun.
    destruct (download_album_art_outcome track_env (py "http://img/ok") demo_world
                r w' Hrun) as [Hlog _].
    revert Hrun Hlog. vm_compute. intros [= <- <-] Hlog.
    eexists; eexists. split; [reflexivity|]. split; reflexivity.
  - destruct (download_album_art track_env (py "http://img/gone") demo_world)
      as [r w'] eqn:Hrun.
    destruct (download_album_art_outcome track_env (py "http://img/gone") demo_world
                r w' Hrun) as [Hlog _].
    revert Hrun Hlog. vm_compute. intros [= <- <-] Hlog.
    eexists. split; reflexivity.
Defined.

(** ** The files that are transcoded *)

Lemma match_tracks_length (fl : list Path) (tracks : list TrackInfo)
  (art : option Path) (pad : nat) :
  length (match_tracks fl tracks art pad) <= length tracks.
Proof.
  pose proof (subseq_length _ _ (match_tracks_subseq fl tracks art pad)) as H.
  now rewrite length_map in H.
Qed.

(** X9: the count [convert_to_aac_parallel] returns is never negative and
    never more than the number of tracks of the collection, and no more
    transcodes than that are started; the log is not touched. *)
Theorem convert_count_bounded :
  forall (env : Env) (folder : pystr) (track_list : list TrackInfo)
         (album_art_url : option pystr) (w : World) (n : Z) (w' : World),
    convert_to_aac_parallel env folder track_list album_art_url w = (Ok n, w') ->
    (0 <= n <= Z.of_nat (length track_list))%Z /\
    log w' = log w /\
    exists evs,
      trace w' = trace w ++ evs /\
      n = transcode_successes evs /\
      length (filter transcode_event evs) <= length track_list.
Proof.
  intros env folder track_list album_art_url w n w'.
  unfold convert_to_aac_parallel. rewrite bind_eq, iterdir_eq.
  destruct (is_dir (fs w) folder); [|unfold raise; discriminate].
  cbv zeta. rewrite bind_eq.
  assert (Hart : quiet match album_art_url with
                       | Some u => download_album_art env u
                       | None => ret None
                       end).
  { destruct album_art_url; [apply quiet_download_album_art|apply quiet_ret]. }
  destruct (match album_art_url with
            | Some u => download_album_art env u
            | None => ret None
            end w) as [[art|e] w1] eqn:E; [|discriminate].
  destruct (Hart _ _ _ E) as [e1 [Hl1 [Ht1 Hr1]]].
  intros Hjobs. apply run_jobs_effects in Hjobs as [e2 [Hl2 [Ht2 Hn]]].
  destruct (Hn n eq_refl) as [Hcount [Hlen Hrange]].
  pose proof (match_tracks_length
                (sorted (filter is_audio (iterdir_files (fs w) folder)))
                track_list art (pad_width track_list)) as Hjobs.
  split; [lia|]. split; [congruence|].
  exists (e1 ++ e2). split; [now rewrite Ht2, Ht1, app_assoc|]. split.
  - now rewrite transcode_successes_app, (transcode_successes_no_runs e1 Hr1).
  - rewrite transcode_events_app, Hlen.
    assert (H0 : filter transcode_event e1 = []).
    { clear -Hr1. induction e1 as [|e e1 IH]; [reflexivity|].
      destruct e; simpl in *; try discriminate; auto. }
    rewrite H0. simpl. lia.
Qed.

(** X9 at work: one track, one file, one transcode. *)
Lemma convert_count_bounded_witness :
  exists w',
    convert_to_aac_parallel demo_env demo_folder [demo_track] None demo_world
      = (Ok 1%Z, w') /\
    (0 <= 1 <= Z.of_nat (length [demo_track]))%Z /\
    log w' = log demo_world.
Proof.
  destruct (convert_to_aac_parallel demo_env demo_folder [demo_track] None demo_world)
    as [r w'] eqn:Hrun.
  assert (Hr : r = Ok 1%Z).
  { revert Hrun. vm_compute. now intros [= <- _]. }
  subst r. exists w'. split; [reflexivity|].
  destruct (convert_count_bounded demo_env demo_folder [demo_track] None demo_world
              1%Z w' Hrun) as [Hrange [Hlog _]].
  split; [exact Hrange|exact Hlog].
Defined.

Lemma is_file_In (f : FS) (p : Path) : In p (map fst (files f)) -> is_file f p = true.
Proof.
  intros H. unfold is_file. apply existsb_exists.
  apply in_map_iff in H as [e [<- He]]. exists e. split; [exact He|apply path_eqb_refl].
Qed.

Lemma rfind_aux_app (c : ascii) (a b : pystr) (i : nat) (found : option nat) :
  rfind_aux c (a ++ b) i found = rfind_aux c b (i + length a) (rfind_aux c a i found).
Proof.
  revert i found. induction a as [|x a IH]; intros i found; simpl.
  - now rewrite Nat.add_0_r.
  - rewrite IH. f_equal. lia.
Qed.

(** A name that ends in [.m4a] after at least one character has the
    suffix [.m4a], which is not one of the audio suffixes. *)
Lemma m4a_not_audio (directory x : pystr) :
  x <> [] -> is_audio (mkPath directory (x ++ py ".m4a")) = false.
Proof.
  intros Hx.
  assert (Hlen : 0 < length x) by (destruct x; [congruence|simpl; lia]).
  assert (Hsuf : suffix (mkPath directory (x ++ py ".m4a")) = py ".m4a").
  { unfold suffix, suffix_index, rfind. cbn [name].
    rewrite rfind_aux_app. cbn [Nat.add].
    change (rfind_aux (ch ".") (py ".m4a") (length x) (rfind_aux (ch ".") x 0 None))
      with (Some (length x)).
    rewrite length_app. change (length (py ".m4a")) with 4.
    replace (0 <? length x) with true by (symmetry; now apply Nat.ltb_lt).
    replace (length x <? length x + 4 - 1) with true
      by (symmetry; apply Nat.ltb_lt; lia).
    cbn [andb]. rewrite skipn_app, skipn_all, Nat.sub_diag. reflexivity. }
  unfold is_audio. rewrite Hsuf. reflexivity.
Qed.

Lemma output_not_audio (file_path : Path) (track : TrackInfo) (pad : nat) :
  is_audio (output_path file_path track pad) = false.
Proof.
  unfold output_path, in_dir, output_name.
  rewrite !app_assoc. apply m4a_not_audio.
  intros H. apply (f_equal (@length ascii)) in H.
  rewrite !length_app in H. simpl in H. lia.
Qed.

(** X10: the files [convert_to_aac_parallel] pairs with tracks are regular
    files directly in the download folder whose suffix is [.mp3], [.flac],
    [.wav] or [.ogg] in any letter case.  The file a pair writes has the
    suffix [.m4a], so it is never the pair's own input and is never picked up
    as an input itself by a later run. *)
Theorem transcode_inputs_are_audio_files :
  forall (f : FS) (folder : pystr) (track_list : list TrackInfo)
         (art : option Path) (pad : nat) (j : Job),
    In j (match_tracks (candidate_files f folder) track_list art pad) ->
    parent (job_file j) = folder /\
    is_file f (job_file j) = true /\
    In (lower (suffix (job_file j))) audio_suffixes /\
    output_path (job_file j) (job_track j) pad <> job_file j /\
    (forall g any_folder,
       ~ In (output_path (job_file j) (job_track j) pad) (candidate_files g any_folder)).
Proof.
  intros f folder track_list art pad j Hj.
  apply match_tracks_In in Hj as [t [p [_ [Hfind ->]]]].
  unfold job_file, job_track. cbn [fst snd].
  apply find_some in Hfind as [Hin _].
  apply candidate_files_In in Hin as [Hfile [Hpar Haud]].
  split; [exact Hpar|]. split; [now apply is_file_In|]. split.
  - unfold is_audio in Haud. apply existsb_exists in Haud as [s [Hs Heq]].
    apply str_eqb_eq in Heq. now rewrite Heq.
  - split.
    + intros Heq. pose proof (output_not_audio p t pad) as Hout.
      rewrite Heq in Hout. congruence.
    + intros g any_folder Hin. apply candidate_files_In in Hin as [_ [_ Hin]].
      rewrite output_not_audio in Hin. discriminate.
Qed.

(** X10 at work: in a folder that also holds an earlier output and a text
    file, only the two audio files are candidates. *)
Lemma transcode_inputs_are_audio_files_witness :
  map name (candidate_files mixed_fs demo_folder)
    = [py "a - Intro.mp3"; py "b - Outro.FLAC"] /\
  exists j,
    In j (match_tracks (candidate_files mixed_fs demo_folder) [demo_track] None 1) /\
    parent (job_file j) = demo_folder /\
    output_path (job_file j) (job_track j) 1 <> job_file j.
Proof.
  split; [reflexivity|].
  exists (mkPath demo_folder (py "a - Intro.mp3"), demo_track, None, 1).
  assert (Hin : In (mkPath demo_folder (py "a - Intro.mp3"), demo_track, @None Path, 1)
                  (match_tracks (candidate_files mixed_fs demo_folder) [demo_track]
                     None 1)) by (left; reflexivity).
  split; [exact Hin|].
  destruct (transcode_inputs_are_audio_files mixed_fs demo_folder [demo_track] None 1
              _ Hin) as [Hpar [_ [_ [Hne _]]]].
  split; [exact Hpar|exact Hne].
Defined.

(** ** The order of the candidates *)

Lemma str_ltb_irrefl (a : pystr) : str_ltb a a = false.
Proof.
  induction a as [|x a IH]; simpl; [reflexivity|].
  now rewrite Nat.ltb_irrefl, Ascii.eqb_refl, IH.
Qed.

Lemma str_ltb_asym (a b : pystr) : str_ltb a b = true -> str_ltb b a = false.
Proof.
  revert b. induction a as [|x a IH]; intros [|y b]; simpl; try discriminate; auto.
  intros H. apply orb_true_iff in H as [H|H].
  - apply Nat.ltb_lt in H.
    replace (nat_of_ascii y <? nat_of_ascii x) with false
      by (symmetry; apply Nat.ltb_ge; lia).
    destruct (Ascii.eqb y x) eqn:E; [|reflexivity].
    apply Ascii.eqb_eq in E. subst. lia.
  - apply andb_true_iff in H as [Hxy Hab]. apply Ascii.eqb_eq in Hxy. subst y.
    now rewrite Nat.ltb_irrefl, Ascii.eqb_refl, (IH _ Hab).
Qed.

Lemma path_ltb_asym (p q : Path) : path_ltb p q = true -> path_ltb q p = false.
Proof.
  unfold path_ltb. intros H. apply orb_true_iff in H as [H|H].
  - rewrite (str_ltb_asym _ _ H).
    destruct (str_eqb (parent q) (parent p)) eqn:E; [|reflexivity].
    apply str_eqb_eq in E. rewrite E, str_ltb_irrefl in H. discriminate.
  - apply andb_true_iff in H as [Hp Hn]. apply str_eqb_eq in Hp.
    rewrite Hp, str_ltb_irrefl, str_eqb_refl, (str_ltb_asym _ _ Hn). reflexivity.
Qed.

Lemma ascending_cons (a b : Path) (l : list Path) :
  ascending (a :: b :: l) = negb (path_ltb b a) && ascending (b :: l).
Proof. reflexivity. Qed.

Lemma insert_sorted_ascending (p : Path) (l : list Path) :
  ascending l = true -> ascending (insert_sorted p l) = true.
Proof.
  induction l as [|q l IH]; [reflexivity|].
  intros Hl. cbn [insert_sorted]. destruct (path_ltb q p) eqn:E.
  - destruct l as [|q' l].
    + cbn [insert_sorted]. rewrite ascending_cons, (path_ltb_asym _ _ E). reflexivity.
    + rewrite ascending_cons in Hl. apply andb_true_iff in Hl as [Hqq Hrest].
      specialize (IH Hrest). cbn [insert_sorted] in *.
      destruct (path_ltb q' p) eqn:E'.
      * rewrite ascending_cons, Hqq. exact IH.
      * rewrite ascending_cons, (path_ltb_asym _ _ E). exact IH.
  - rewrite ascending_cons, E. exact Hl.
Qed.

(** X11: the candidates are handed to the matching loop in ascending path
    order, with no file of the folder lost or added by the sorting; so which
    file a track gets when several match does not depend on the order in
    which the directory is listed. *)
Theorem candidate_files_sorted :
  forall (f : FS) (folder : pystr),
    ascending (candidate_files f folder) = true /\
    length (candidate_files f folder)
    = length (filter is_audio (iterdir_files f folder)) /\
    (forall p,
       In p (candidate_files f folder) <->
       In p (iterdir_files f folder) /\ is_audio p = true).
Proof.
  intros f folder. unfold candidate_files. split; [|split].
  - unfold sorted.
    induction (filter is_audio (iterdir_files f folder)) as [|p l IH];
      [reflexivity|].
    cbn [fold_right]. now apply insert_sorted_ascending.
  - apply sorted_length.
  - intros p. rewrite sorted_In. apply filter_In.
Qed.

(** ** Edge cases and bounds of the retry loop *)



Lemma total_sleep_app (a b : list Event) :
  total_sleep (a ++ b) = (total_sleep a + total_sleep b)%Z.
Proof.
  unfold total_sleep. rewrite sleeps_app.
  induction (sleeps a) as [|s l IH]; simpl; [reflexivity|]. rewrite IH. lia.
Qed.

Lemma total_sleep_backoff (cmd : list pystr) (first : Z) (codes : list Z) :
  (0 <= first)%Z ->
  total_sleep (backoff_events cmd first codes)
  = (2 ^ (first + Z.of_nat (length codes)) - 2 ^ first)%Z.
Proof.
  revert first. induction codes as [|rc codes IH]; intros first Hfirst.
  - cbn [backoff_events length]. rewrite Z.add_0_r. unfold total_sleep. simpl. lia.
  - cbn [backoff_events]. unfold total_sleep in *. cbn [sleeps fold_right].
    rewrite IH by lia. cbn [length].
    replace (first + 1 + Z.of_nat (length codes))%Z
      with (first + Z.of_nat (S (length codes)))%Z by lia.
    rewrite (Z.pow_add_r 2 first 1) by lia. lia.
Qed.

Lemma total_sleep_attempts (cmd : list pystr) (codes : list Z) (rc : option Z) :
  total_sleep (backoff_events cmd 1 codes ++ [EvRun cmd rc])
  = (2 ^ (1 + Z.of_nat (length codes)) - 2)%Z.
Proof.
  rewrite total_sleep_app, total_sleep_backoff by lia.
  change (total_sleep [EvRun cmd rc]) with 0%Z. lia.
Qed.

Lemma runs_attempts_length (cmd : list pystr) (first : Z) (codes : list Z)
  (last : list Event) :
  length (runs (backoff_events cmd first codes ++ last))
  = length codes + length (runs last).
Proof. now rewrite runs_app, length_app, runs_backoff, length_map. Qed.

(** X13: the time spent waiting is bounded.  A [run_spotdl_download] that
    gives up after [retries >= 0] retries has started [retries + 1]
    processes and slept [2^(retries+2) - 2] seconds in all.  Whatever
    happens, [run_spotdl_download_with_fallback] starts at most 6 processes
    and sleeps at most 28 seconds, and exactly that when both formats fail. *)
Theorem backoff_total_is_bounded :
  (forall (env : Env) (url artist collection fmt : pystr) (bitrate : option pystr)
          (retries : Z) (w w' : World),
     (0 <= retries)%Z ->
     run_spotdl_download env url artist collection fmt bitrate retries w
       = (Ok None, w') ->
     exists evs,
       trace w' = trace w ++ evs /\
       Z.of_nat (length (runs evs)) = (retries + 1)%Z /\
       total_sleep evs = (2 ^ (retries + 2) - 2)%Z) /\
  (forall (env : Env) (url artist collection : pystr) (w : World)
          (r : result (option pystr * pystr)) (w' : World),
     run_spotdl_download_with_fallback env url artist collection w = (r, w') ->
     exists evs,
       trace w' = trace w ++ evs /\
       length (runs evs) <= 6 /\
       (0 <= total_sleep evs <= 28)%Z /\
       (r = Ok (None, FALLBACK_FORMAT) ->
        length (runs evs) = 6 /\ total_sleep evs = 28%Z)).
Proof.
  split.
  - intros env url artist collection fmt bitrate retries w w' Hr Hrun.
    apply run_spotdl_download_trace in Hrun
      as [failed [last [_ [Htr [_ Hcases]]]]]; [|exact Hr].
    destruct Hcases as [[_ [-> Hlen]]|[[[=] _]|[[[=] _]|[[=] _]]]].
    eexists. split; [exact Htr|]. rewrite app_nil_r. split.
    + now rewrite runs_backoff, length_map.
    + rewrite total_sleep_backoff by lia.
      replace (1 + Z.of_nat (length failed))%Z with (retries + 2)%Z by lia.
      reflexivity.
  - intros env url artist collection w r w' Hrun.
    apply with_fallback_cases in Hrun as [_ [Hp|[Hf|Hb]]];
      [| |destruct Hb as [-> [-> _]]; exists []; rewrite app_nil_r;
          split; [reflexivity|]; cbn; split; [lia|]; split; [lia|discriminate]].
    + destruct Hp as [failed [Hlen [_ [[-> Htr]|[-> Htr]]]]];
        (eexists; split; [exact Htr|]);
        rewrite runs_attempts_length, total_sleep_attempts;
        cbn [runs length];
        (split; [lia|]); (split; [|discriminate]);
        destruct failed as [|? [|? [|? ?]]]; cbn [length] in *;
        try lia; cbn; lia.
    + destruct Hf as [failed1 [failed2 [last [Hlen1 [_ [_ [Htr Hc]]]]]]].
      eexists. split; [exact Htr|].
      rewrite runs_app, length_app, runs_backoff, length_map, Hlen1.
      rewrite total_sleep_app, total_sleep_backoff, Hlen1 by lia.
      change (2 ^ (1 + Z.of_nat 3) - 2 ^ 1)%Z with 14%Z.
      destruct Hc as [[-> [Hlen2 ->]]|[[-> [Hlen2 ->]]|[[-> [Hlen2 ->]]|[-> [-> ->]]]]].
      * rewrite runs_attempts_length, total_sleep_attempts. cbn [runs length].
        split; [lia|]. split; [|discriminate].
        destruct failed2 as [|? [|? [|? ?]]]; cbn [length] in *; try lia; cbn; lia.
      * rewrite app_nil_r, runs_backoff, length_map, total_sleep_backoff, Hlen2 by lia.
        change (2 ^ (1 + Z.of_nat 3) - 2 ^ 1)%Z with 14%Z. lia.
      * rewrite runs_attempts_length, total_sleep_attempts. cbn [runs length].
        split; [lia|]. split; [|discriminate].
        destruct failed2 as [|? [|? [|? ?]]]; cbn [length] in *; try lia; cbn; lia.
      * cbn. split; [lia|]. split; [lia|discriminate].
Qed.

(** X13 at work: two retries that all fail take 2 + 4 + 8 seconds. *)
Lemma backoff_total_is_bounded_witness :
  (0 <= 2)%Z /\
  exists evs,
    trace demo_after_flac = trace demo_world ++ evs /\
    total_sleep evs = 14%Z.
Proof.
  split; [lia|].
  destruct (proj1 backoff_total_is_bounded demo_env demo_url (py "Owner") (py "Mix")
              PREFERRED_FORMAT None 2%Z demo_world demo_after_flac)
    as [evs [Htr [_ Hsleep]]]; [lia|vm_compute; reflexivity|].
  exists evs. split; [exact Htr|exact Hsleep].
Defined.

(** ** The phases of a run *)

(** X14: when resolution raises (the token is refused, the catalog read
    fails, or a liked item has no track), the run ends with the same
    exception before any process is started: the file system and the log are
    as before and nothing was acquired or transcoded. *)
Theorem resolution_error_aborts :
  forall (env : Env) (url : pystr) (w : World) (e : exn) (w1 : World),
    get_metadata_from_url env url w = (Raise e, w1) ->
    download_spotify_url env url w = (Raise e, w1) /\
    fs w1 = fs w /\
    log w1 = log w /\
    exists evs, trace w1 = trace w ++ evs /\ runs evs = [].
Proof.
  intros env url w e w1 Hres. split.
  - unfold download_spotify_url. now rewrite bind_eq, Hres.
  - destruct (get_metadata_from_url_cases env url w _ _ Hres) as [Hfs [Hlog _]].
    destruct (quiet_get_metadata_from_url env url _ _ _ Hres) as [evs [_ [Htr Hruns]]].
    split; [exact Hfs|]. split; [exact Hlog|]. exists evs. auto.
Qed.

(** X14 at work: a catalog that refuses the album read. *)
Lemma resolution_error_aborts_witness :
  exists w1,
    get_metadata_from_url demo_env (py "https://open.spotify.com/album/4aawyAB9")
      demo_world = (Raise HTTPError, w1) /\
    download_spotify_url demo_env (py "https://open.spotify.com/album/4aawyAB9")
      demo_world = (Raise HTTPError, w1) /\
    log w1 = log demo_world.
Proof.
  destruct (get_metadata_from_url demo_env (py "https://open.spotify.com/album/4aawyAB9")
              demo_world) as [r w1] eqn:Hres.
  assert (Hr : r = Raise HTTPError).
  { revert Hres. vm_compute. now intros [= <- _]. }
  subst r. exists w1. split; [reflexivity|].
  destruct (resolution_error_aborts demo_env _ demo_world HTTPError w1 Hres)
    as [Hrun [_ [Hlog _]]].
  split; [exact Hrun|exact Hlog].
Defined.

Lemma runs_backoff_spotdl (env : Env) (url artist collection fmt : pystr)
  (bitrate : option pystr) (first : Z) (codes : list Z) (last : option (option Z)) :
  Forall (fun c => is_spotdl (fst c) = true)
    (runs (backoff_events (download_cmd env url artist collection fmt bitrate)
             first codes
           ++ match last with
              | Some rc => [EvRun (download_cmd env url artist collection fmt bitrate) rc]
              | None => []
              end)).
Proof.
  rewrite runs_app, runs_backoff. apply Forall_app. split.
  - apply Forall_forall. intros c Hc. apply in_map_iff in Hc as [rc [<- _]]. reflexivity.
  - destruct last; cbn [runs]; repeat constructor.
Qed.

(** The orchestrator only runs [spotdl]. *)
Lemma with_fallback_runs (env : Env) (url artist collection : pystr)
  (w : World) (r : result (option pystr * pystr)) (w' : World) :
  run_spotdl_download_with_fallback env url artist collection w = (r, w') ->
  exists evs,
    trace w' = trace w ++ evs /\
    Forall (fun c => is_spotdl (fst c) = true) (runs evs).
Proof.
  intros Hrun. apply with_fallback_cases in Hrun as [_ [Hp|[Hf|Hb]]];
    [| |destruct Hb as [_ [-> _]]; exists []; rewrite app_nil_r;
        split; [reflexivity|constructor]].
  - destruct Hp as [failed [_ [_ [[_ Htr]|[_ Htr]]]]];
      eexists; (split; [exact Htr|]);
      [apply (runs_backoff_spotdl env url artist collection PREFERRED_FORMAT None 1
                failed (Some (Some 0%Z)))
      |apply (runs_backoff_spotdl env url artist collection PREFERRED_FORMAT None 1
                failed (Some None))].
  - destruct Hf as [failed1 [failed2 [last [_ [_ [_ [Htr Hc]]]]]]].
    eexists. split; [exact Htr|]. rewrite runs_app. apply Forall_app. split.
    + pose proof (runs_backoff_spotdl env url artist collection PREFERRED_FORMAT None 1
                    failed1 None) as H.
      cbv iota in H. now rewrite app_nil_r in H.
    + destruct Hc as [[_ [_ ->]]|[[_ [_ ->]]|[[_ [_ ->]]|[_ [_ ->]]]]].
      * apply (runs_backoff_spotdl env url artist collection FALLBACK_FORMAT
                 (Some MP3_BITRATE) 1 failed2 (Some (Some 0%Z))).
      * apply (runs_backoff_spotdl env url artist collection FALLBACK_FORMAT
                 (Some MP3_BITRATE) 1 failed2 None).
      * apply (runs_backoff_spotdl env url artist collection FALLBACK_FORMAT
                 (Some MP3_BITRATE) 1 failed2 (Some None)).
      * apply (runs_backoff_spotdl env url artist collection FALLBACK_FORMAT
                 (Some MP3_BITRATE) 1 failed2 None).
Qed.

(** Post-processing only runs [ffmpeg]. *)
Lemma run_jobs_runs (env : Env) (jobs : list Job) (w : World)
  (r : result Z) (w' : World) :
  run_jobs env jobs w = (r, w') ->
  exists evs,
    trace w' = trace w ++ evs /\
    Forall (fun c => is_ffmpeg (fst c) = true) (runs evs).
Proof.
  intros Hrun.
  apply run_jobs_transcodes in Hrun as [evs [ran [cancelled [Htr [_ [_ [Hruns _]]]]]]].
  exists evs. auto.
Qed.

Lemma convert_runs (env : Env) (folder : pystr) (track_list : list TrackInfo)
  (album_art_url : option pystr) (w : World) (r : result Z) (w' : World) :
  convert_to_aac_parallel env folder track_list album_art_url w = (r, w') ->
  exists evs,
    trace w' = trace w ++ evs /\
    Forall (fun c => is_ffmpeg (fst c) = true) (runs evs).
Proof.
  unfold convert_to_aac_parallel. rewrite bind_eq, iterdir_eq.
  destruct (is_dir (fs w) folder);
    [|intros [= <- <-]; exists []; rewrite app_nil_r;
      split; [reflexivity|constructor]].
  cbv zeta. rewrite bind_eq.
  assert (Hart : quiet match album_art_url with
                       | Some u => download_album_art env u
                       | None => ret None
                       end).
  { destruct album_art_url; [apply quiet_download_album_art|apply quiet_ret]. }
  destruct (match album_art_url with
            | Some u => download_album_art env u
            | None => ret None
            end w) as [[art|e] w1] eqn:E;
    destruct (Hart _ _ _ E) as [e1 [_ [Ht1 Hr1]]].
  - intros Hjobs. apply run_jobs_runs in Hjobs as [e2 [Ht2 Hall]].
    exists (e1 ++ e2). split; [now rewrite Ht2, Ht1, app_assoc|].
    now rewrite runs_app, Hr1.
  - intros [= <- <-]. exists e1. split; [exact Ht1|]. rewrite Hr1. constructor.
Qed.

(** X15: the three phases of a run never interleave.  The events of a run
    are those of resolution, which start no process, then runs of [spotdl]
    only, then runs of [ffmpeg] only; and [ffmpeg] is only started when one
    of the [spotdl] runs before it exited with code 0. *)
Theorem run_phases_in_order :
  forall (env : Env) (url : pystr) (w : World) (r : result unit) (w' : World),
    download_spotify_url env url w = (r, w') ->
    exists resolution acquisition processing,
      trace w' = trace w ++ resolution ++ acquisition ++ processing /\
      runs resolution = [] /\
      Forall (fun c => is_spotdl (fst c) = true) (runs acquisition) /\
      Forall (fun c => is_ffmpeg (fst c) = true) (runs processing) /\
      (runs processing <> [] -> exists fmt, acquired_format acquisition = Some fmt).
Proof.
  intros env url w r w'. unfold download_spotify_url. rewrite bind_eq.
  destruct (get_metadata_from_url env url w) as [[[md|]|e] w1] eqn:Emd;
    destruct (quiet_get_metadata_from_url env url _ _ _ Emd) as [e1 [_ [Ht1 Hr1]]].
  2, 3: intros [= <- <-]; exists e1, [], []; rewrite !app_nil_r;
        repeat split; auto; try constructor; intros H; now destruct H.
  rewrite bind_eq.
  destruct (run_spotdl_download_with_fallback env url (md_artist md) (md_album md) w1)
    as [[[folder fmt]|e] w2] eqn:Efb;
    destruct (with_fallback_runs env url _ _ _ _ _ Efb) as [e2 [Ht2 Hs2]];
    destruct (with_fallback_effects env url _ _ _ _ _ Efb)
      as [e2' [_ [Ht2' [_ Hacq]]]];
    assert (e2' = e2) by (rewrite Ht2 in Ht2'; now apply app_inv_head in Ht2');
    subst e2'.
  2: { intros [= <- <-]. exists e1, e2, []. rewrite app_nil_r.
       split; [now rewrite Ht2, Ht1, app_assoc|].
       repeat split; auto; try constructor. intros H; now destruct H. }
  rewrite bind_eq. unfold get_world at 1.
  assert (Hnone : trace w2 = trace w ++ e1 ++ e2 ++ [] /\
                  runs e1 = [] /\
                  Forall (fun c => is_spotdl (fst c) = true) (runs e2) /\
                  Forall (fun c => is_ffmpeg (fst c) = true) (runs []) /\
                  (runs [] <> [] -> exists fmt, acquired_format e2 = Some fmt)).
  { rewrite app_nil_r. split; [now rewrite Ht2, Ht1, app_assoc|].
    repeat split; auto; try constructor. intros H; now destruct H. }
  destruct folder as [folder|]; [|intros [= <- <-]; exists e1, e2, []; exact Hnone].
  destruct (dir_exists (fs w2) folder);
    [|intros [= <- <-]; exists e1, e2, []; exact Hnone].
  rewrite bind_eq.
  destruct (convert_to_aac_parallel env folder (md_tracks md) (md_image_url md) w2)
    as [[num|e] w3] eqn:Ec;
    destruct (convert_runs env _ _ _ _ _ _ Ec) as [e3 [Ht3 Hf3]].
  - assert (Hall : trace w3 = trace w ++ e1 ++ e2 ++ e3 /\
                   runs e1 = [] /\
                   Forall (fun c => is_spotdl (fst c) = true) (runs e2) /\
                   Forall (fun c => is_ffmpeg (fst c) = true) (runs e3) /\
                   (runs e3 <> [] -> exists fmt, acquired_format e2 = Some fmt)).
    { split; [now rewrite Ht3, Ht2, Ht1, <- !app_assoc|].
      repeat split; auto. intros _. exists fmt.
      rewrite <- (app_nil_r e2). eapply Hacq. reflexivity. }
    destruct (num >? 0)%Z.
    + rewrite log_download_eq.
      destruct (mkdir_blocked (fs w3) (BASE_DIR env)); cbv zeta;
        intros [= <- <-]; cbn [trace]; exists e1, e2, e3; exact Hall.
    + intros [= <- <-]. exists e1, e2, e3. exact Hall.
  - intros [= <- <-]. exists e1, e2, e3.
    split; [now rewrite Ht3, Ht2, Ht1, <- !app_assoc|].
    repeat split; auto. intros _. exists fmt.
    rewrite <- (app_nil_r e2). eapply Hacq. reflexivity.
Qed.

(** X15 at work: the demo run has four [spotdl] runs, then two of
    [ffmpeg]. *)
Lemma run_phases_in_order_witness :
  download_spotify_url demo_env demo_url demo_world = (Ok tt, demo_final) /\
  exists resolution acquisition processing,
    trace demo_final = trace demo_world ++ resolution ++ acquisition ++ processing /\
    runs resolution = [] /\
    Forall (fun c => is_spotdl (fst c) = true) (runs acquisition) /\
    Forall (fun c => is_ffmpeg (fst c) = true) (runs processing).
Proof.
  assert (Hrun : download_spotify_url demo_env demo_url demo_world = (Ok tt, demo_final))
    by (vm_compute; reflexivity).
  split; [exact Hrun|].
  destruct (run_phases_in_order demo_env demo_url demo_world (Ok tt) demo_final Hrun)
    as [e1 [e2 [e3 [Htr [H1 [H2 [H3 _]]]]]]].
  exists e1, e2, e3. auto.
Defined.

(** ** The interactive loop *)

(** One run adds at most one line to the log and keeps the lines before. *)
Lemma download_spotify_url_log (env : Env) (url : pystr) (w : World)
  (r : result unit) (w' : World) :
  download_spotify_url env url w = (r, w') ->
  exists added, log w' = log w ++ added /\ length added <= 1.
Proof.
  unfold download_spotify_url. rewrite bind_eq.
  destruct (get_metadata_from_url env url w) as [[[md|]|e] w1] eqn:Emd;
    destruct (quiet_get_metadata_from_url env url _ _ _ Emd) as [e1 [Hl1 _]].
  2, 3: intros [= <- <-]; exists []; rewrite app_nil_r; auto.
  rewrite bind_eq.
  destruct (run_spotdl_download_with_fallback env url (md_artist md) (md_album md) w1)
    as [[[folder fmt]|e] w2] eqn:Efb;
    destruct (with_fallback_effects env url _ _ _ _ _ Efb) as [e2 [Hl2 _]].
  2: { intros [= <- <-]. exists []. rewrite app_nil_r. split; [congruence|auto]. }
  rewrite bind_eq. unfold get_world at 1.
  assert (Hsame : exists added, log w2 = log w ++ added /\ length added <= 1).
  { exists []. rewrite app_nil_r. split; [congruence|auto]. }
  destruct folder as [folder|]; [|intros [= <- <-]; exact Hsame].
  destruct (dir_exists (fs w2) folder); [|intros [= <- <-]; exact Hsame].
  rewrite bind_eq.
  destruct (convert_to_aac_parallel env folder (md_tracks md) (md_image_url md) w2)
    as [[num|e] w3] eqn:Ec;
    destruct (convert_effects env _ _ _ _ _ _ Ec) as [e3 [Hl3 _]].
  - destruct (num >? 0)%Z.
    + rewrite log_download_eq.
      destruct (mkdir_blocked (fs w3) (BASE_DIR env)); cbv zeta; intros [= <- <-];
        [exists []; rewrite app_nil_r; split; [congruence|auto]|].
      cbn [log].
      eexists. split; [rewrite Hl3, Hl2, Hl1; reflexivity|]. simpl. lia.
    + intros [= <- <-]. exists []. rewrite app_nil_r. split; [congruence|auto].
  - intros [= <- <-]. exists []. rewrite app_nil_r. split; [congruence|auto].
Qed.

(** X16: when [spotdl] cannot be started or its version check exits with a
    non-zero code, [main] exits with status 1 after that one process run: no
    input line is read, nothing is resolved or downloaded and the log is
    untouched, whatever the input holds. *)
Theorem main_exits_without_spotdl :
  forall (env : Env) (inputs : list pystr) (w : World),
    (forall cp f, spawn env w version_cmd = Some (cp, f) -> returncode cp <> 0%Z) ->
    exists rc w',
      main env inputs w = (Ok (Some 1%Z), w') /\
      trace w' = trace w ++ [EvRun version_cmd rc] /\
      log w' = log w.
Proof.
  intros env inputs w Hbad. unfold main. rewrite bind_eq.
  unfold check_spotdl_installed, try_except. rewrite bind_eq, subprocess_run_eq.
  destruct (spawn env w version_cmd) as [[cp f]|] eqn:Hsp.
  - specialize (Hbad cp f eq_refl). apply Z.eqb_neq in Hbad. rewrite Hbad.
    eexists; eexists. split; [reflexivity|]. cbn [trace log]. auto.
  - eexists; eexists. split; [reflexivity|]. cbn [trace log]. auto.
Qed.

(** X16 at work: an environment in which no process can be started. *)
Lemma main_exits_without_spotdl_witness :
  (forall cp f,
     spawn track_env demo_world version_cmd = Some (cp, f) -> returncode cp <> 0%Z) /\
  exists w', main track_env [demo_url; py "exit"] demo_world = (Ok (Some 1%Z), w') /\
             log w' = log demo_world.
Proof.
  assert (Hbad : forall cp f,
            spawn track_env demo_world version_cmd = Some (cp, f) ->
            returncode cp <> 0%Z) by (intros cp f [=]).
  split; [exact Hbad|].
  destruct (main_exits_without_spotdl track_env [demo_url; py "exit"] demo_world Hbad)
    as [rc [w' [Hrun [_ Hlog]]]].
  exists w'. auto.
Defined.

Lemma main_loop_cons (env : Env) (line : pystr) (rest : list pystr) :
  main_loop env (line :: rest) =
  let url := strip whitespace line in
  if is_exit url then ret tt
  else if is_history url then main_loop env rest
  else if asks_login url then
    match rest with
    | [] => raise EOFError
    | code :: rest' =>
        emit (EvCode code) ;;;
        download_spotify_url env url ;;;
        main_loop env rest'
    end
  else download_spotify_url env url ;;; main_loop env rest.
Proof. reflexivity. Qed.

Lemma emit_eq (e : Event) (w : World) :
  emit e w = (Ok tt, mkWorld (fs w) (log w) (trace w ++ [e])).
Proof. reflexivity. Qed.

Lemma main_loop_stops (env : Env) (line : pystr) (after : list pystr) (n : nat) :
  is_exit (strip whitespace line) = true ->
  forall (before : list pystr) (w : World),
    length before <= n ->
    ends_at_prompt before = true ->
    main_loop env (before ++ line :: after) w = main_loop env before w.
Proof.
  intros Hexit. induction n as [|n IH]; intros before w Hlen Hends.
  - destruct before; [|cbn [length] in Hlen; lia].
    cbn [app]. rewrite main_loop_cons. cbv zeta. now rewrite Hexit.
  - destruct before as [|l before].
    { cbn [app]. rewrite main_loop_cons. cbv zeta. now rewrite Hexit. }
    cbn [length] in Hlen. cbn [app]. rewrite !main_loop_cons. cbv zeta.
    cbn [ends_at_prompt] in Hends. cbv zeta in Hends.
    destruct (is_exit (strip whitespace l)); [reflexivity|].
    destruct (is_history (strip whitespace l)); [apply IH; [lia|exact Hends]|].
    destruct (asks_login (strip whitespace l)).
    + destruct before as [|code before]; [discriminate Hends|].
      cbn [app length] in *. rewrite !bind_eq, !emit_eq, !bind_eq.
      destruct (download_spotify_url env (strip whitespace l) _) as [[[]|e] w1];
        [apply IH; [lia|exact Hends]|reflexivity].
    + rewrite !bind_eq.
      destruct (download_spotify_url env (strip whitespace l) w) as [[[]|e] w1];
        [apply IH; [lia|exact Hends]|reflexivity].
Qed.

(** X17: the loop stops at the first line that is read by the prompt of
    [main] and is [exit] or [quit], in any letter case and with any
    surrounding white space: the lines after it are never read, so the
    session behaves as if the input had ended there.  A line that follows the
    URL of a playlist or of the liked songs is not read by that prompt: it is
    taken as the login code, [exit] or not, and the loop goes on after it;
    when the input ends at the login prompt, the session ends with
    [EOFError]. *)
Theorem main_loop_stops_at_exit :
  forall (env : Env) (before : list pystr) (line : pystr) (after : list pystr)
         (w : World),
    ends_at_prompt before = true ->
    is_exit (strip whitespace line) = true ->
    main_loop env (before ++ line :: after) w = main_loop env before w /\
    (forall url,
       is_exit (strip whitespace url) = false ->
       is_history (strip whitespace url) = false ->
       asks_login (strip whitespace url) = true ->
       main_loop env (url :: line :: after) w
       = (download_spotify_url env (strip whitespace url) ;;; main_loop env after)
           (mkWorld (fs w) (log w) (trace w ++ [EvCode line])) /\
       main_loop env [url] w = (Raise EOFError, w)).
Proof.
  intros env before line after w Hends Hexit. split.
  - apply (main_loop_stops env line after (length before) Hexit); auto.
  - intros url Hne Hnh Hlogin. rewrite !main_loop_cons. cbv zeta.
    rewrite Hne, Hnh, Hlogin. split; reflexivity.
Qed.

(** X17 at work: nothing after [  QUIT ] is resolved; but [exit] typed
    after the URL of a playlist is the login code, and the playlist is
    downloaded. *)
Lemma main_loop_stops_at_exit_witness :
  ends_at_prompt [py "history"] = true /\
  is_exit (strip whitespace (py "  QUIT ")) = true /\
  main_loop demo_env [py "history"; py "  QUIT "; demo_url] demo_world
  = (Ok tt, demo_world) /\
  log (snd (main_loop demo_env [demo_url; py "  QUIT "; py "exit"] demo_world))
  = [demo_log_line].
Proof.
  assert (Hexit : is_exit (strip whitespace (py "  QUIT ")) = true) by reflexivity.
  assert (Hends : ends_at_prompt [py "history"] = true) by reflexivity.
  split; [exact Hends|]. split; [exact Hexit|].
  destruct (main_loop_stops_at_exit demo_env [py "history"] (py "  QUIT ") [demo_url]
              demo_world Hends Hexit) as [Hstop _].
  destruct (main_loop_stops_at_exit demo_env [py "history"] (py "  QUIT ") [py "exit"]
              demo_world Hends Hexit) as [_ Hcode].
  split.
  - change [py "history"; py "  QUIT "; demo_url]
      with ([py "history"] ++ py "  QUIT " :: [demo_url]).
    rewrite Hstop. reflexivity.
  - destruct (Hcode demo_url eq_refl eq_refl eq_refl) as [Hrun _].
    rewrite Hrun. vm_compute. reflexivity.
Defined.

Lemma main_loop_log (env : Env) (n : nat) :
  forall (inputs : list pystr) (w : World) (r : result unit) (w' : World),
    length inputs <= n ->
    main_loop env inputs w = (r, w') ->
    exists added, log w' = log w ++ added /\ length added <= length inputs.
Proof.
  induction n as [|n IH]; intros inputs w r w' Hlen.
  - destruct inputs; [|cbn [length] in Hlen; lia].
    intros [= <- <-]. exists []. now rewrite app_nil_r.
  - destruct inputs as [|l inputs].
    { intros [= <- <-]. exists []. now rewrite app_nil_r. }
    cbn [length] in Hlen. rewrite main_loop_cons. cbv zeta.
    destruct (is_exit (strip whitespace l)).
    { intros [= <- <-]. exists []. rewrite app_nil_r. split; [reflexivity|].
      cbn [length]. lia. }
    destruct (is_history (strip whitespace l)).
    { intros Hrest. apply IH in Hrest as [added [Ha Hl]]; [|lia].
      exists added. split; [exact Ha|]. cbn [length]. lia. }
    destruct (asks_login (strip whitespace l)).
    + destruct inputs as [|code inputs].
      { intros [= <- <-]. exists []. rewrite app_nil_r. split; [reflexivity|].
        cbn [length]. lia. }
      cbn [length] in *. rewrite bind_eq, emit_eq, bind_eq.
      destruct (download_spotify_url env (strip whitespace l) _) as [r1 w1] eqn:E1.
      destruct (download_spotify_url_log env _ _ r1 w1 E1) as [a1 [Ha1 Hl1]].
      cbn [log] in Ha1.
      destruct r1 as [[]|e].
      * intros Hrest. apply IH in Hrest as [a2 [Ha2 Hl2]]; [|lia].
        exists (a1 ++ a2). split.
        -- now rewrite Ha2, Ha1, app_assoc.
        -- rewrite length_app. lia.
      * intros [= <- <-]. exists a1. split; [exact Ha1|]. lia.
    + rewrite bind_eq.
      destruct (download_spotify_url env (strip whitespace l) w) as [r1 w1] eqn:E1.
      destruct (download_spotify_url_log env _ w r1 w1 E1) as [a1 [Ha1 Hl1]].
      destruct r1 as [[]|e].
      * intros Hrest. apply IH in Hrest as [a2 [Ha2 Hl2]]; [|lia].
        exists (a1 ++ a2). split.
        -- now rewrite Ha2, Ha1, app_assoc.
        -- rewrite length_app. cbn [length]. lia.
      * intros [= <- <-]. exists a1. split; [exact Ha1|]. cbn [length]. lia.
Qed.

(** X18: a session only ever appends to the log.  Whatever the input, the
    lines that were in the log before are still its first lines afterwards,
    in the same order, and at most one line is added per input line. *)
Theorem main_loop_log_append_only :
  forall (env : Env) (inputs : list pystr) (w : World) (r : result unit) (w' : World),
    main_loop env inputs w = (r, w') ->
    exists added, log w' = log w ++ added /\ length added <= length inputs.
Proof.
  intros env inputs w r w'. apply (main_loop_log env (length inputs)). auto.
Qed.

(** X18 at work: a session with a command, a download with its login code
    and the end of input. *)
Lemma main_loop_log_append_only_witness :
  exists r w',
    main_loop demo_env [py "history"; demo_url; py "code"] demo_world = (r, w') /\
    log w' = [demo_log_line].
Proof.
  destruct (main_loop demo_env [py "history"; demo_url; py "code"] demo_world)
    as [r w'] eqn:Hrun.
  exists r, w'. split; [reflexivity|].
  destruct (main_loop_log_append_only demo_env _ demo_world r w' Hrun)
    as [added [Hlog _]].
  revert Hrun. vm_compute. now intros [= _ <-].
Defined.

(** ** A track without a title *)

Lemma contains_empty (s : pystr) : contains [] s = true.
Proof. destruct s; reflexivity. Qed.

(** X19: the empty string is a substring of every stem, so a track whose
    title is empty is paired with the first candidate file whatever that file
    is called, and is left out only when there is no candidate at all. *)
Theorem empty_title_takes_first_file :
  forall (fl : list Path) (before after : list TrackInfo) (track : TrackInfo)
         (art : option Path) (pad : nat),
    title track = [] ->
    (forall f rest,
       fl = f :: rest ->
       In (f, track, art, pad) (match_tracks fl (before ++ track :: after) art pad)) /\
    (fl = [] -> match_tracks fl (before ++ track :: after) art pad = []).
Proof.
  intros fl before after track art pad Htitle. split.
  - intros f rest ->. apply match_tracks_In. exists track, f.
    split; [apply in_elt|]. split; [|reflexivity].
    unfold first_match. cbn [find]. unfold title_in_stem.
    rewrite Htitle. cbn [lower map]. now rewrite contains_empty.
  - intros ->. induction (before ++ track :: after) as [|t l IH]; [reflexivity|].
    cbn [match_tracks first_match find]. exact IH.
Qed.

(** X19 at work: an untitled track gets the file of another song. *)
Lemma empty_title_takes_first_file_witness :
  title (mkTrack 7 [] (py "Artist") (py "Album")) = [] /\
  In (file_song_a, mkTrack 7 [] (py "Artist") (py "Album"), None, 1)
    (match_tracks [file_song_a] ([] ++ mkTrack 7 [] (py "Artist") (py "Album") :: [])
       None 1).
Proof.
  split; [reflexivity|].
  apply (proj1 (empty_title_takes_first_file [file_song_a] [] []
                  (mkTrack 7 [] (py "Artist") (py "Album")) None 1 eq_refl)
           file_song_a [] eq_refl).
Defined.
